(** * Reporthesis: JUnit report extraction (junit_to_html.py)

    A shallow embedding of [junit_to_html.py]: the failure-message
    extractor [parse_junit], the base-URL helper [extract_base_url], the
    summary values computed at the head of [make_html], and [main].

    Python text is a sequence of Unicode code points: a [str] is a list of
    code points, and the [str] methods, regular expressions and library
    functions the program calls are written out over it. *)

From Stdlib Require Import NArith ZArith Ascii String SpecFloat.
From stdpp Require Import base option list sorting gmap.

Local Open Scope N_scope.

(** ** Code points and character classes *)

Definition char := N.
Definition str := list char.

(** An ASCII literal as a [str]. *)
Definition lit (s : String.string) : str :=
  map N_of_ascii (list_ascii_of_string s).

Definition in_ranges (tbl : list (N * N)) (c : char) : bool :=
  existsb (fun r => (fst r <=? c) && (c <=? snd r)) tbl.

(** [str.isspace] on one code point; the same class serves [str.strip],
    [str.split] and the regular-expression class [\s]. *)
Definition space_ranges : list (N * N) :=
  [(9, 13); (28, 32); (133, 133); (160, 160); (5760, 5760); (8192, 8202);
   (8232, 8233); (8239, 8239); (8287, 8287); (12288, 12288)].

Definition isspace (c : char) : bool := in_ranges space_ranges c.

(** The line boundaries of [str.splitlines]. *)
Definition linebreak_ranges : list (N * N) :=
  [(10, 13); (28, 30); (133, 133); (8232, 8233)].

Definition is_linebreak (c : char) : bool := in_ranges linebreak_ranges c.

(** First code point of every run of ten decimal digits (Unicode 14,
    general category Nd): the regular-expression class [\d] and the digits
    [float] accepts. *)
Definition decimal_zeros : list N :=
  [48; 1632; 1776; 1984; 2406; 2534; 2662; 2790; 2918; 3046; 3174; 3302;
   3430; 3558; 3664; 3792; 3872; 4160; 4240; 6112; 6160; 6470; 6608; 6784;
   6800; 6992; 7088; 7232; 7248; 42528; 43216; 43264; 43472; 43504; 43600;
   44016; 65296; 66720; 68912; 69734; 69872; 69942; 70096; 70384; 70736;
   70864; 71248; 71360; 71472; 71904; 72016; 72784; 73040; 73120; 92768;
   92864; 93008; 120782; 120792; 120802; 120812; 120822; 123200; 123632;
   125264; 130032].

(** [Py_UNICODE_TODECIMAL]: the value of a decimal digit. *)
Definition decimal_value (c : char) : option N :=
  match List.find (fun z => (z <=? c) && (c <? z + 10)) decimal_zeros with
  | Some z => Some (c - z)
  | None => None
  end.

Definition isdecimal (c : char) : bool :=
  match decimal_value c with Some _ => true | None => false end.

Definition is_ascii_digit (c : char) : bool := (48 <=? c) && (c <=? 57).

(** ** [str] methods *)

Definition str_eqb (a b : str) : bool := bool_decide (a = b).

Fixpoint startswith (prefix s : str) : bool :=
  match prefix, s with
  | [], _ => true
  | p :: prefix', c :: s' => (p =? c) && startswith prefix' s'
  | _ :: _, [] => false
  end.

Fixpoint take_while {A} (p : A -> bool) (l : list A) : list A :=
  match l with
  | x :: l' => if p x then x :: take_while p l' else []
  | [] => []
  end.

Fixpoint drop_while {A} (p : A -> bool) (l : list A) : list A :=
  match l with
  | x :: l' => if p x then drop_while p l' else l
  | [] => []
  end.

Definition lstrip (s : str) : str := drop_while isspace s.

Definition rstrip (s : str) : str := rev (lstrip (rev s)).

Definition strip (s : str) : str := rstrip (lstrip s).

(** [sep.join(parts)]. *)
Fixpoint join (sep : str) (parts : list str) : str :=
  match parts with
  | [] => []
  | [p] => p
  | p :: rest => p ++ sep ++ join sep rest
  end.

(** [str.splitlines()]: the text is cut at every line boundary, a carriage
    return followed by a line feed counting as one; the boundaries are dropped and no empty line is
    reported after a final boundary.  [cur] holds the line being read. *)
Fixpoint splitlines_from (cur : str) (s : str) : list str :=
  match s with
  | [] => match cur with [] => [] | _ => [cur] end
  | c :: s' =>
      if is_linebreak c then
        cur :: match s' with
               | d :: s'' =>
                   if (c =? 13) && (d =? 10) then splitlines_from [] s''
                   else splitlines_from [] s'
               | [] => []
               end
      else splitlines_from (cur ++ [c]) s'
  end.

Definition splitlines (s : str) : list str := splitlines_from [] s.

(** [str.lower()], one code point at a time.  Exact on ASCII and on the two
    code points outside ASCII whose lowercase form begins with an ASCII
    letter (U+0130 and U+212A).  Every other cased code point lowers to
    code points outside ASCII and is left in place: the program only tests
    the lowered text against an ASCII prefix, which cannot tell the
    difference. *)
Definition lower_char (c : char) : str :=
  if (65 <=? c) && (c <=? 90) then [c + 32]
  else if c =? 304 then [105; 775]
  else if c =? 8490 then [107]
  else [c].

Definition lower (s : str) : str := flat_map lower_char s.

(** [str.split()] without arguments: the maximal runs of characters that are
    not whitespace.  [cur] holds the word being read. *)
Fixpoint split_from (cur : str) (s : str) : list str :=
  match s with
  | [] => match cur with [] => [] | _ => [cur] end
  | c :: s' =>
      if isspace c then
        match cur with
        | [] => split_from [] s'
        | _ => cur :: split_from [] s'
        end
      else split_from (cur ++ [c]) s'
  end.

Definition split (s : str) : list str := split_from [] s.

(** [str.expandtabs(tabsize)]; [col] is the current column. *)
Fixpoint expandtabs_from (tabsize col : nat) (s : str) : str :=
  match s with
  | [] => []
  | c :: s' =>
      if c =? 9 then
        let incr := match tabsize with
                    | O => O
                    | _ => (tabsize - col mod tabsize)%nat
                    end in
        repeat 32 incr ++ expandtabs_from tabsize (col + incr)%nat s'
      else if (c =? 10) || (c =? 13) then c :: expandtabs_from tabsize 0%nat s'
      else c :: expandtabs_from tabsize (S col) s'
  end.

Definition expandtabs (tabsize : nat) (s : str) : str :=
  expandtabs_from tabsize 0%nat s.

(** ** The regular-expression classes [\w] and [[^\d\W]] *)

(** Code points matched by [\w] (alphanumeric, or the underscore), as
    ranges; Unicode 14. *)
Definition word_ranges : list (N * N) :=
  [(48, 57); (65, 90); (95, 95); (97, 122); (170, 170); (178, 179);
   (181, 181); (185, 186); (188, 190); (192, 214); (216, 246); (248, 705);
   (710, 721); (736, 740); (748, 748); (750, 750); (880, 884); (886, 887);
   (890, 893); (895, 895); (902, 902); (904, 906); (908, 908); (910, 929);
   (931, 1013); (1015, 1153); (1162, 1327); (1329, 1366); (1369, 1369);
   (1376, 1416); (1488, 1514); (1519, 1522); (1568, 1610); (1632, 1641);
   (1646, 1647); (1649, 1747); (1749, 1749); (1765, 1766); (1774, 1788);
   (1791, 1791); (1808, 1808); (1810, 1839); (1869, 1957); (1969, 1969);
   (1984, 2026); (2036, 2037); (2042, 2042); (2048, 2069); (2074, 2074);
   (2084, 2084); (2088, 2088); (2112, 2136); (2144, 2154); (2160, 2183);
   (2185, 2190); (2208, 2249); (2308, 2361); (2365, 2365); (2384, 2384);
   (2392, 2401); (2406, 2415); (2417, 2432); (2437, 2444); (2447, 2448);
   (2451, 2472); (2474, 2480); (2482, 2482); (2486, 2489); (2493, 2493);
   (2510, 2510); (2524, 2525); (2527, 2529); (2534, 2545); (2548, 2553);
   (2556, 2556); (2565, 2570); (2575, 2576); (2579, 2600); (2602, 2608);
   (2610, 2611); (2613, 2614); (2616, 2617); (2649, 2652); (2654, 2654);
   (2662, 2671); (2674, 2676); (2693, 2701); (2703, 2705); (2707, 2728);
   (2730, 2736); (2738, 2739); (2741, 2745); (2749, 2749); (2768, 2768);
   (2784, 2785); (2790, 2799); (2809, 2809); (2821, 2828); (2831, 2832);
   (2835, 2856); (2858, 2864); (2866, 2867); (2869, 2873); (2877, 2877);
   (2908, 2909); (2911, 2913); (2918, 2927); (2929, 2935); (2947, 2947);
   (2949, 2954); (2958, 2960); (2962, 2965); (2969, 2970); (2972, 2972);
   (2974, 2975); (2979, 2980); (2984, 2986); (2990, 3001); (3024, 3024);
   (3046, 3058); (3077, 3084); (3086, 3088); (3090, 3112); (3114, 3129);
   (3133, 3133); (3160, 3162); (3165, 3165); (3168, 3169); (3174, 3183);
   (3192, 3198); (3200, 3200); (3205, 3212); (3214, 3216); (3218, 3240);
   (3242, 3251); (3253, 3257); (3261, 3261); (3293, 3294); (3296, 3297);
   (3302, 3311); (3313, 3314); (3332, 3340); (3342, 3344); (3346, 3386);
   (3389, 3389); (3406, 3406); (3412, 3414); (3416, 3425); (3430, 3448);
   (3450, 3455); (3461, 3478); (3482, 3505); (3507, 3515); (3517, 3517);
   (3520, 3526); (3558, 3567); (3585, 3632); (3634, 3635); (3648, 3654);
   (3664, 3673); (3713, 3714); (3716, 3716); (3718, 3722); (3724, 3747);
   (3749, 3749); (3751, 3760); (3762, 3763); (3773, 3773); (3776, 3780);
   (3782, 3782); (3792, 3801); (3804, 3807); (3840, 3840); (3872, 3891);
   (3904, 3911); (3913, 3948); (3976, 3980); (4096, 4138); (4159, 4169);
   (4176, 4181); (4186, 4189); (4193, 4193); (4197, 4198); (4206, 4208);
   (4213, 4225); (4238, 4238); (4240, 4249); (4256, 4293); (4295, 4295);
   (4301, 4301); (4304, 4346); (4348, 4680); (4682, 4685); (4688, 4694);
   (4696, 4696); (4698, 4701); (4704, 4744); (4746, 4749); (4752, 4784);
   (4786, 4789); (4792, 4798); (4800, 4800); (4802, 4805); (4808, 4822);
   (4824, 4880); (4882, 4885); (4888, 4954); (4969, 4988); (4992, 5007);
   (5024, 5109); (5112, 5117); (5121, 5740); (5743, 5759); (5761, 5786);
   (5792, 5866); (5870, 5880); (5888, 5905); (5919, 5937); (5952, 5969);
   (5984, 5996); (5998, 6000); (6016, 6067); (6103, 6103); (6108, 6108);
   (6112, 6121); (6128, 6137); (6160, 6169); (6176, 6264); (6272, 6276);
   (6279, 6312); (6314, 6314); (6320, 6389); (6400, 6430); (6470, 6509);
   (6512, 6516); (6528, 6571); (6576, 6601); (6608, 6618); (6656, 6678);
   (6688, 6740); (6784, 6793); (6800, 6809); (6823, 6823); (6917, 6963);
   (6981, 6988); (6992, 7001); (7043, 7072); (7086, 7141); (7168, 7203);
   (7232, 7241); (7245, 7293); (7296, 7304); (7312, 7354); (7357, 7359);
   (7401, 7404); (7406, 7411); (7413, 7414); (7418, 7418); (7424, 7615);
   (7680, 7957); (7960, 7965); (7968, 8005); (8008, 8013); (8016, 8023);
   (8025, 8025); (8027, 8027); (8029, 8029); (8031, 8061); (8064, 8116);
   (8118, 8124); (8126, 8126); (8130, 8132); (8134, 8140); (8144, 8147);
   (8150, 8155); (8160, 8172); (8178, 8180); (8182, 8188); (8304, 8305);
   (8308, 8313); (8319, 8329); (8336, 8348); (8450, 8450); (8455, 8455);
   (8458, 8467); (8469, 8469); (8473, 8477); (8484, 8484); (8486, 8486);
   (8488, 8488); (8490, 8493); (8495, 8505); (8508, 8511); (8517, 8521);
   (8526, 8526); (8528, 8585); (9312, 9371); (9450, 9471); (10102, 10131);
   (11264, 11492); (11499, 11502); (11506, 11507); (11517, 11517);
   (11520, 11557); (11559, 11559); (11565, 11565); (11568, 11623);
   (11631, 11631); (11648, 11670); (11680, 11686); (11688, 11694);
   (11696, 11702); (11704, 11710); (11712, 11718); (11720, 11726);
   (11728, 11734); (11736, 11742); (11823, 11823); (12293, 12295);
   (12321, 12329); (12337, 12341); (12344, 12348); (12353, 12438);
   (12445, 12447); (12449, 12538); (12540, 12543); (12549, 12591);
   (12593, 12686); (12690, 12693); (12704, 12735); (12784, 12799);
   (12832, 12841); (12872, 12879); (12881, 12895); (12928, 12937);
   (12977, 12991); (13312, 19903); (19968, 42124); (42192, 42237);
   (42240, 42508); (42512, 42539); (42560, 42606); (42623, 42653);
   (42656, 42735); (42775, 42783); (42786, 42888); (42891, 42954);
   (42960, 42961); (42963, 42963); (42965, 42969); (42994, 43009);
   (43011, 43013); (43015, 43018); (43020, 43042); (43056, 43061);
   (43072, 43123); (43138, 43187); (43216, 43225); (43250, 43255);
   (43259, 43259); (43261, 43262); (43264, 43301); (43312, 43334);
   (43360, 43388); (43396, 43442); (43471, 43481); (43488, 43492);
   (43494, 43518); (43520, 43560); (43584, 43586); (43588, 43595);
   (43600, 43609); (43616, 43638); (43642, 43642); (43646, 43695);
   (43697, 43697); (43701, 43702); (43705, 43709); (43712, 43712);
   (43714, 43714); (43739, 43741); (43744, 43754); (43762, 43764);
   (43777, 43782); (43785, 43790); (43793, 43798); (43808, 43814);
   (43816, 43822); (43824, 43866); (43868, 43881); (43888, 44002);
   (44016, 44025); (44032, 55203); (55216, 55238); (55243, 55291);
   (63744, 64109); (64112, 64217); (64256, 64262); (64275, 64279);
   (64285, 64285); (64287, 64296); (64298, 64310); (64312, 64316);
   (64318, 64318); (64320, 64321); (64323, 64324); (64326, 64433);
   (64467, 64829); (64848, 64911); (64914, 64967); (65008, 65019);
   (65136, 65140); (65142, 65276); (65296, 65305); (65313, 65338);
   (65345, 65370); (65382, 65470); (65474, 65479); (65482, 65487);
   (65490, 65495); (65498, 65500); (65536, 65547); (65549, 65574);
   (65576, 65594); (65596, 65597); (65599, 65613); (65616, 65629);
   (65664, 65786); (65799, 65843); (65856, 65912); (65930, 65931);
   (66176, 66204); (66208, 66256); (66273, 66299); (66304, 66339);
   (66349, 66378); (66384, 66421); (66432, 66461); (66464, 66499);
   (66504, 66511); (66513, 66517); (66560, 66717); (66720, 66729);
   (66736, 66771); (66776, 66811); (66816, 66855); (66864, 66915);
   (66928, 66938); (66940, 66954); (66956, 66962); (66964, 66965);
   (66967, 66977); (66979, 66993); (66995, 67001); (67003, 67004);
   (67072, 67382); (67392, 67413); (67424, 67431); (67456, 67461);
   (67463, 67504); (67506, 67514); (67584, 67589); (67592, 67592);
   (67594, 67637); (67639, 67640); (67644, 67644); (67647, 67669);
   (67672, 67702); (67705, 67742); (67751, 67759); (67808, 67826);
   (67828, 67829); (67835, 67867); (67872, 67897); (67968, 68023);
   (68028, 68047); (68050, 68096); (68112, 68115); (68117, 68119);
   (68121, 68149); (68160, 68168); (68192, 68222); (68224, 68255);
   (68288, 68295); (68297, 68324); (68331, 68335); (68352, 68405);
   (68416, 68437); (68440, 68466); (68472, 68497); (68521, 68527);
   (68608, 68680); (68736, 68786); (68800, 68850); (68858, 68899);
   (68912, 68921); (69216, 69246); (69248, 69289); (69296, 69297);
   (69376, 69415); (69424, 69445); (69457, 69460); (69488, 69505);
   (69552, 69579); (69600, 69622); (69635, 69687); (69714, 69743);
   (69745, 69746); (69749, 69749); (69763, 69807); (69840, 69864);
   (69872, 69881); (69891, 69926); (69942, 69951); (69956, 69956);
   (69959, 69959); (69968, 70002); (70006, 70006); (70019, 70066);
   (70081, 70084); (70096, 70106); (70108, 70108); (70113, 70132);
   (70144, 70161); (70163, 70187); (70272, 70278); (70280, 70280);
   (70282, 70285); (70287, 70301); (70303, 70312); (70320, 70366);
   (70384, 70393); (70405, 70412); (70415, 70416); (70419, 70440);
   (70442, 70448); (70450, 70451); (70453, 70457); (70461, 70461);
   (70480, 70480); (70493, 70497); (70656, 70708); (70727, 70730);
   (70736, 70745); (70751, 70753); (70784, 70831); (70852, 70853);
   (70855, 70855); (70864, 70873); (71040, 71086); (71128, 71131);
   (71168, 71215); (71236, 71236); (71248, 71257); (71296, 71338);
   (71352, 71352); (71360, 71369); (71424, 71450); (71472, 71483);
   (71488, 71494); (71680, 71723); (71840, 71922); (71935, 71942);
   (71945, 71945); (71948, 71955); (71957, 71958); (71960, 71983);
   (71999, 71999); (72001, 72001); (72016, 72025); (72096, 72103);
   (72106, 72144); (72161, 72161); (72163, 72163); (72192, 72192);
   (72203, 72242); (72250, 72250); (72272, 72272); (72284, 72329);
   (72349, 72349); (72368, 72440); (72704, 72712); (72714, 72750);
   (72768, 72768); (72784, 72812); (72818, 72847); (72960, 72966);
   (72968, 72969); (72971, 73008); (73030, 73030); (73040, 73049);
   (73056, 73061); (73063, 73064); (73066, 73097); (73112, 73112);
   (73120, 73129); (73440, 73458); (73648, 73648); (73664, 73684);
   (73728, 74649); (74752, 74862); (74880, 75075); (77712, 77808);
   (77824, 78894); (82944, 83526); (92160, 92728); (92736, 92766);
   (92768, 92777); (92784, 92862); (92864, 92873); (92880, 92909);
   (92928, 92975); (92992, 92995); (93008, 93017); (93019, 93025);
   (93027, 93047); (93053, 93071); (93760, 93846); (93952, 94026);
   (94032, 94032); (94099, 94111); (94176, 94177); (94179, 94179);
   (94208, 100343); (100352, 101589); (101632, 101640); (110576, 110579);
   (110581, 110587); (110589, 110590); (110592, 110882); (110928, 110930);
   (110948, 110951); (110960, 111355); (113664, 113770); (113776, 113788);
   (113792, 113800); (113808, 113817); (119520, 119539); (119648, 119672);
   (119808, 119892); (119894, 119964); (119966, 119967); (119970, 119970);
   (119973, 119974); (119977, 119980); (119982, 119993); (119995, 119995);
   (119997, 120003); (120005, 120069); (120071, 120074); (120077, 120084);
   (120086, 120092); (120094, 120121); (120123, 120126); (120128, 120132);
   (120134, 120134); (120138, 120144); (120146, 120485); (120488, 120512);
   (120514, 120538); (120540, 120570); (120572, 120596); (120598, 120628);
   (120630, 120654); (120656, 120686); (120688, 120712); (120714, 120744);
   (120746, 120770); (120772, 120779); (120782, 120831); (122624, 122654);
   (123136, 123180); (123191, 123197); (123200, 123209); (123214, 123214);
   (123536, 123565); (123584, 123627); (123632, 123641); (124896, 124902);
   (124904, 124907); (124909, 124910); (124912, 124926); (124928, 125124);
   (125127, 125135); (125184, 125251); (125259, 125259); (125264, 125273);
   (126065, 126123); (126125, 126127); (126129, 126132); (126209, 126253);
   (126255, 126269); (126464, 126467); (126469, 126495); (126497, 126498);
   (126500, 126500); (126503, 126503); (126505, 126514); (126516, 126519);
   (126521, 126521); (126523, 126523); (126530, 126530); (126535, 126535);
   (126537, 126537); (126539, 126539); (126541, 126543); (126545, 126546);
   (126548, 126548); (126551, 126551); (126553, 126553); (126555, 126555);
   (126557, 126557); (126559, 126559); (126561, 126562); (126564, 126564);
   (126567, 126570); (126572, 126578); (126580, 126583); (126585, 126588);
   (126590, 126590); (126592, 126601); (126603, 126619); (126625, 126627);
   (126629, 126633); (126635, 126651); (127232, 127244); (130032, 130041);
   (131072, 173791); (173824, 177976); (177984, 178205); (178208, 183969);
   (183984, 191456); (194560, 195101); (196608, 201546)].

Definition isword (c : char) : bool := in_ranges word_ranges c.

(** ** textwrap *)

Module textwrap.

(** [_whitespace]: the ASCII whitespace the wrapper recognises. *)
Definition is_whitespace (c : char) : bool :=
  ((9 <=? c) && (c <=? 13)) || (c =? 32).

Definition hyphen : char := 45.

(** [word_punct]: a word character or one of the seven punctuation marks
    of the class; [letter = [^\d\W]]: a word character that is no digit. *)
Definition word_punct (c : char) : bool :=
  isword c || existsb (N.eqb c) [33; 34; 39; 38; 46; 44; 63].

Definition letter (c : char) : bool := isword c && negb (isdecimal c).

(** [_munge_whitespace] with [expand_tabs] and [replace_whitespace] on. *)
Definition munge_whitespace (text : str) : str :=
  map (fun c => if is_whitespace c then 32 else c) (expandtabs 8 text).

(** Length of the run matched by [-{2,}(?=\w)] at the head of [rest], or 0
    when it does not match. *)
Definition hyphens_then_word (rest : str) : nat :=
  let n := length (take_while (fun c => c =? hyphen) rest) in
  match drop_while (fun c => c =? hyphen) rest with
  | c :: _ => if (2 <=? n)%nat && isword c then n else O
  | [] => O
  end.

(** [before] is the text to the left of the position, nearest character
    first; [rest] the text to its right. *)
Definition emdash_ahead (before rest : str) : bool :=
  match before with
  | p :: _ => word_punct p && negb (hyphens_then_word rest =? 0)%nat
  | [] => false
  end.

(** The hyphenated-word ending of [wordsep_re]:
    [-(?:(?<=lt{2}-)|(?<=lt-lt-))(?=lt-?lt)]. *)
Definition hyphen_break (before rest : str) : bool :=
  match rest with
  | h :: ahead =>
      (h =? hyphen)
      && match before with
         | l1 :: l2 :: more =>
             letter l1
             && (letter l2
                 || ((l2 =? hyphen)
                     && match more with l3 :: _ => letter l3 | [] => false end))
         | _ => false
         end
      && match ahead with
         | a :: b :: more =>
             letter a
             && (letter b
                 || ((b =? hyphen)
                     && match more with c :: _ => letter c | [] => false end))
         | _ => false
         end
  | [] => false
  end.

(** What the chunk being read is: nothing yet, a run of whitespace, an
    em-dash with [n] hyphens still to take, a word, or a word just closed
    by its hyphen. *)
Inductive mode := Start | Ws | Dash (n : nat) | Word | Closed.

(** Does the chunk being read take the next character, and in which mode
    does it go on? *)
Definition continues (m : mode) (before rest : str) : option mode :=
  match m, rest with
  | Ws, c :: _ => if is_whitespace c then Some Ws else None
  | Dash (S n), _ :: _ => Some (Dash n)
  | Word, c :: _ =>
      if hyphen_break before rest then Some Closed
      else if is_whitespace c then None
      else if emdash_ahead before rest then None
      else Some Word
  | _, _ => None
  end.

(** The alternative of [wordsep_re] that matches at a position where a
    chunk starts. *)
Definition start_mode (before rest : str) : mode :=
  match rest with
  | c :: _ =>
      if is_whitespace c then Ws
      else match before with
           | p :: _ =>
               if word_punct p then
                 match hyphens_then_word rest with
                 | S n => Dash n
                 | O => Word
                 end
               else Word
           | [] => Word
           end
  | [] => Start
  end.

(** [wordsep_re.split(text)] with the empty strings removed, read one
    character at a time; [cur] is the chunk being read. *)
Fixpoint wordsep_scan (before cur : str) (m : mode) (rest : str) : list str :=
  match rest with
  | [] => match cur with [] => [] | _ => [cur] end
  | c :: rest' =>
      match continues m before rest with
      | Some m' => wordsep_scan (c :: before) (cur ++ [c]) m' rest'
      | None =>
          let tail := wordsep_scan (c :: before) [c] (start_mode before rest) rest' in
          match cur with [] => tail | _ => cur :: tail end
      end
  end.

(** [_split_chunks]: [_munge_whitespace] then [_split] (with
    [break_on_hyphens] on). *)
Definition split_chunks (text : str) : list str :=
  wordsep_scan [] [] Start (munge_whitespace text).

Section Wrapper.
(** A [TextWrapper] with [max_lines = 1], empty indents and every other
    option at its default, as [shorten] builds it. *)
Variable width : nat.
Variable placeholder : str.

Definition blank (chunk : str) : bool :=
  match strip chunk with [] => true | _ => false end.

Definition total_len (chunks : list str) : nat :=
  list_sum (map (@length char) chunks).

(** The inner [while chunks] loop: chunks are moved to the line while
    they fit. *)
Fixpoint take_fitting (cur_line : list str) (cur_len : nat)
    (chunks : list str) : list str * nat * list str :=
  match chunks with
  | [] => (cur_line, cur_len, [])
  | chunk :: chunks' =>
      if (cur_len + length chunk <=? width)%nat
      then take_fitting (cur_line ++ [chunk]) (cur_len + length chunk)%nat chunks'
      else (cur_line, cur_len, chunks)
  end.

(** [chunk.rfind('-', 0, stop)]. *)
Definition rfind_hyphen (chunk : str) (stop : nat) : option nat :=
  last (filter (fun i => bool_decide (chunk !! i = Some hyphen))
               (seq 0 (min stop (length chunk)))).

(** [_handle_long_word] with [break_long_words] on: the head chunk is
    cut so that its first part fills the line. *)
Definition handle_long_word (chunks cur_line : list str) (cur_len : nat)
    : list str * list str :=
  let space_left := if (width <? 1)%nat then 1%nat else (width - cur_len)%nat in
  match chunks with
  | chunk :: chunks' =>
      let stop :=
        if (space_left <? length chunk)%nat then
          match rfind_hyphen chunk space_left with
          | Some h =>
              if (0 <? h)%nat
                 && existsb (fun c => negb (c =? hyphen)) (take h chunk)
              then S h else space_left
          | None => space_left
          end
        else space_left in
      (cur_line ++ [take stop chunk], drop stop chunk :: chunks')
  | [] => (cur_line, chunks)
  end.

(** The [while cur_line] loop that makes room for the placeholder;
    [rev_line] is the line, last chunk first. *)
Fixpoint add_placeholder (rev_line : list str) (cur_len : nat) : option str :=
  match rev_line with
  | [] => None
  | chunk :: rev_line' =>
      if negb (blank chunk) && (cur_len + length placeholder <=? width)%nat
      then Some (concat (rev rev_line) ++ placeholder)
      else add_placeholder rev_line' (cur_len - length chunk)%nat
  end.

(** What one pass of the outer [while chunks] loop does. *)
Inductive pass := Next (lines chunks : list str) | Break (lines : list str).

Definition drop_last {A} (l : list A) : list A := take (pred (length l)) l.

Definition wrap_pass (lines chunks : list str) : pass :=
  let chunks :=
    match chunks, lines with
    | chunk :: chunks', _ :: _ => if blank chunk then chunks' else chunks
    | _, _ => chunks
    end in
  let '(cur_line, cur_len, chunks) := take_fitting [] 0%nat chunks in
  let '(cur_line, chunks) :=
    match chunks with
    | chunk :: _ =>
        if (width <? length chunk)%nat
        then handle_long_word chunks cur_line cur_len
        else (cur_line, chunks)
    | [] => (cur_line, chunks)
    end in
  let cur_len := total_len cur_line in
  let '(cur_line, cur_len) :=
    match last cur_line with
    | Some chunk =>
        if blank chunk
        then (drop_last cur_line, (cur_len - length chunk)%nat)
        else (cur_line, cur_len)
    | None => (cur_line, cur_len)
    end in
  match cur_line with
  | [] => Next lines chunks
  | _ :: _ =>
      if (match chunks with
          | [] => true
          | [chunk] => blank chunk
          | _ => false
          end) && (cur_len <=? width)%nat
      then Next (lines ++ [concat cur_line]) chunks
      else
        match add_placeholder (rev cur_line) cur_len with
        | Some line => Break (lines ++ [line])
        | None =>
            match last lines with
            | Some prev =>
                let prev_line := rstrip prev in
                if (length prev_line + length placeholder <=? width)%nat
                then Break (drop_last lines ++ [prev_line ++ placeholder])
                else Break (lines ++ [lstrip placeholder])
            | None => Break (lines ++ [lstrip placeholder])
            end
        end
  end.

(** The outer loop; every pass that goes on has used up part of the
    chunks, so [fuel] above their measure is never exhausted. *)
Fixpoint wrap_loop (fuel : nat) (lines chunks : list str) : list str :=
  match chunks, fuel with
  | [], _ => lines
  | _, O => lines
  | _, S fuel' =>
      match wrap_pass lines chunks with
      | Next lines' chunks' => wrap_loop fuel' lines' chunks'
      | Break lines' => lines'
      end
  end.

Definition measure (chunks : list str) : nat :=
  (length chunks + total_len chunks)%nat.

Definition wrap_chunks (chunks : list str) : list str :=
  wrap_loop (S (measure chunks)) [] chunks.

Definition wrap (text : str) : list str := wrap_chunks (split_chunks text).

Definition fill (text : str) : str := join [10] (wrap text).
End Wrapper.

(** [shorten(text, width, placeholder=...)]. *)
Definition shorten (text : str) (width : nat) (placeholder : str) : str :=
  fill width placeholder (join [32] (split (strip text))).

End textwrap.

(** ** The module-level regular expressions *)

(** [pattern.search(s)]: the match at the leftmost position that has one. *)
Fixpoint re_search {A} (match_at : str -> option A) (s : str) : option A :=
  match match_at s with
  | Some m => Some m
  | None =>
      match s with
      | [] => None
      | _ :: s' => re_search match_at s'
      end
  end.

(** [s] without [prefix] when it starts with it. *)
Fixpoint strip_prefix (prefix s : str) : option str :=
  match prefix, s with
  | [], _ => Some s
  | p :: prefix', c :: s' => if p =? c then strip_prefix prefix' s' else None
  | _ :: _, [] => None
  end.

(** [STATUS_RE = \[(\d{3})\]], anchored at the head of [s]; the result is
    group 1. *)
Definition STATUS_RE_match (s : str) : option str :=
  match s with
  | open :: d1 :: d2 :: d3 :: close :: _ =>
      if (open =? 91) && isdecimal d1 && isdecimal d2 && isdecimal d3
         && (close =? 93)
      then Some [d1; d2; d3] else None
  | _ => None
  end.

Definition STATUS_RE_search : str -> option str := re_search STATUS_RE_match.

Definition not_newline (c : char) : bool := negb ((c =? 10) || (c =? 13)).

(** [KIND_RE = - ([^\n\r]+)], anchored; the result is group 1. *)
Definition KIND_RE_match (s : str) : option str :=
  match strip_prefix (lit "- ") s with
  | Some rest =>
      match take_while not_newline rest with
      | [] => None
      | g => Some g
      end
  | None => None
  end.

Definition KIND_RE_search : str -> option str := re_search KIND_RE_match.

(** The class of [URL_RE]'s tail: no whitespace, no quote of either kind. *)
Definition url_char (c : char) : bool :=
  negb (isspace c || (c =? 39) || (c =? 34)).

(** The rest of [URL_RE] after its scheme: [://] and one or more
    [url_char]. *)
Definition url_tail (scheme rest : str) : option str :=
  match strip_prefix (lit "://") rest with
  | Some body =>
      match take_while url_char body with
      | [] => None
      | host => Some (scheme ++ lit "://" ++ host)
      end
  | None => None
  end.

(** [URL_RE]: [http], an optional [s], [://] and one or more [url_char];
    anchored, the result is group 0.  The optional [s] is tried first. *)
Definition URL_RE_match (s : str) : option str :=
  match strip_prefix (lit "http") s with
  | Some rest =>
      match strip_prefix (lit "s") rest with
      | Some rest' =>
          match url_tail (lit "https") rest' with
          | Some m => Some m
          | None => url_tail (lit "http") rest
          end
      | None => url_tail (lit "http") rest
      end
  | None => None
  end.

Definition URL_RE_search : str -> option str := re_search URL_RE_match.

(** ** urllib.parse *)

Module urllib.

Record SplitResult := {
  scheme : str;
  netloc : str;
  path : str;
  query : str;
  fragment : str
}.

Definition is_ascii_alpha (c : char) : bool :=
  ((65 <=? c) && (c <=? 90)) || ((97 <=? c) && (c <=? 122)).

(** [scheme_chars]: ASCII letters, digits, [+], [-] and [.]. *)
Definition scheme_char (c : char) : bool :=
  is_ascii_alpha c || is_ascii_digit c || (c =? 43) || (c =? 45) || (c =? 46).

Definition contains (c : char) (s : str) : bool := existsb (N.eqb c) s.

(** [s.partition(c)] without its middle component: the text before the
    first [c], and the text after it when there is one. *)
Definition cut (c : char) (s : str) : str * option str :=
  let before := take_while (fun x => negb (x =? c)) s in
  match drop_while (fun x => negb (x =? c)) s with
  | _ :: after => (before, Some after)
  | [] => (before, None)
  end.

(** Code points whose NFKC form contains one of [/?#@:] (Unicode 14):
    [_checknetloc] refuses a netloc that holds one. *)
Definition nfkc_delimiters : list N :=
  [8263; 8264; 8265; 8448; 8449; 8453; 8454; 10868; 65043; 65046; 65109;
   65110; 65119; 65131; 65283; 65295; 65306; 65311; 65312].

Definition checknetloc (netloc : str) : bool :=
  negb (existsb (fun c => existsb (N.eqb c) nfkc_delimiters) netloc).

Section Split.
(** [_check_bracketed_netloc]: whether the bracketed host of a netloc is
    a well-formed IPv6 or IPvFuture address.  It is decided by the
    [ipaddress] module and is taken as given. *)
Variable check_bracketed_netloc : str -> bool.

(** [urlsplit(url)]; [None] stands for the [ValueError] it raises. *)
Definition urlsplit (url : str) : option SplitResult :=
  let url := drop_while (fun c => c <=? 32) url in
  let url := List.filter (fun c => negb ((c =? 9) || (c =? 13) || (c =? 10))) url in
  let '(scheme, url) :=
    match cut 58 url with
    | (c :: before, Some after) =>
        if is_ascii_alpha c && forallb scheme_char (c :: before)
        then (lower (c :: before), after)
        else ([], url)
    | _ => ([], url)
    end in
  let no_netloc := Some ([], url) in
  let split :=
    match url with
    | 47 :: 47 :: rest =>
        let netloc :=
          take_while (fun c => negb ((c =? 47) || (c =? 63) || (c =? 35))) rest in
        let url :=
          drop_while (fun c => negb ((c =? 47) || (c =? 63) || (c =? 35))) rest in
        if negb (bool_decide (contains 91 netloc = contains 93 netloc)) then None
        else if contains 91 netloc && negb (check_bracketed_netloc netloc) then None
        else Some (netloc, url)
    | _ => no_netloc
    end in
  match split with
  | None => None
  | Some (netloc, url) =>
      let '(url, fragment) := cut 35 url in
      let '(url, query) := cut 63 url in
      if checknetloc netloc
      then Some {| scheme := scheme; netloc := netloc; path := url;
                   query := default [] query;
                   fragment := default [] fragment |}
      else None
  end.
Record ParseResult := {
  p_scheme : str;
  p_netloc : str;
  p_path : str;
  p_params : str;
  p_query : str;
  p_fragment : str
}.

(** [uses_params]. *)
Definition uses_params : list str :=
  [[]; lit "ftp"; lit "hdl"; lit "prospero"; lit "http"; lit "imap";
   lit "https"; lit "shttp"; lit "rtsp"; lit "rtspu"; lit "sip";
   lit "sips"; lit "mms"; lit "sftp"; lit "tel"].

(** [_splitparams]: the path is cut at the first semicolon of its last
    segment. *)
Definition splitparams (url : str) : str * str :=
  let last_segment := rev (take_while (fun c => negb (c =? 47)) (rev url)) in
  let head := take (length url - length last_segment) url in
  match cut 59 last_segment with
  | (before, Some after) => (head ++ before, after)
  | (_, None) => (url, [])
  end.

(** [urlparse(url)]: [urlsplit], then the parameters are taken off the
    path. *)
Definition urlparse (url : str) : option ParseResult :=
  match urlsplit url with
  | Some r =>
      let '(url, params) :=
        if bool_decide (scheme r ∈ uses_params) && contains 59 (path r)
        then splitparams (path r) else (path r, []) in
      Some {| p_scheme := scheme r; p_netloc := netloc r; p_path := url;
              p_params := params; p_query := query r;
              p_fragment := fragment r |}
  | None => None
  end.
End Split.

End urllib.

(** ** float *)

Module pyfloat.

Definition prec : Z := 53.
Definition emax : Z := 1024.

(** A Python [float]: an IEEE 754 binary64 value. *)
Definition float := spec_float.

Definition zero : float := S754_zero false.
Definition one : float := S754_finite false 4503599627370496 (-52).

(** [a < b] on floats. *)
Definition lt (a b : float) : bool := SFltb a b.
Definition le (a b : float) : bool := SFleb a b.
Definition is_nan (a : float) : bool :=
  match a with S754_nan => true | _ => false end.

(** [_PyUnicode_TransformDecimalAndSpaceToASCII]: text that is not ASCII
    has its spaces and decimal digits replaced by their ASCII
    counterparts and is cut after the first other code point, which
    becomes a question mark. *)
Fixpoint transform (s : str) : str :=
  match s with
  | [] => []
  | c :: s' =>
      if c <? 127 then c :: transform s'
      else if isspace c then 32 :: transform s'
      else match decimal_value c with
           | Some d => (48 + d) :: transform s'
           | None => [63]
           end
  end.

Definition to_ascii (s : str) : str :=
  if forallb (fun c => c <? 128) s then s else transform s.

(** [Py_ISSPACE]. *)
Definition is_c_space (c : char) : bool := ((9 <=? c) && (c <=? 13)) || (c =? 32).

Definition c_strip (s : str) : str :=
  rev (drop_while is_c_space (rev (drop_while is_c_space s))).

(** [_Py_string_to_number_with_underscores]: an underscore must stand
    between two digits and is dropped; [None] is the error. *)
Fixpoint drop_underscores (prev : char) (s : str) : option str :=
  match s with
  | [] => if prev =? 95 then None else Some []
  | c :: s' =>
      if c =? 95 then
        if is_ascii_digit prev then drop_underscores c s' else None
      else if (prev =? 95) && negb (is_ascii_digit c) then None
      else option_map (cons c) (drop_underscores c s')
  end.

Definition digits_value (ds : str) : Z :=
  fold_left (fun acc d => (10 * acc + Z.of_N (d - 48))%Z) ds 0%Z.

(** An optional sign; [true] is minus. *)
Definition read_sign (s : str) : bool * str :=
  match s with
  | 45 :: s' => (true, s')
  | 43 :: s' => (false, s')
  | _ => (false, s)
  end.

(** The value of the decimal [m * 10^e10], rounded to the nearest float,
    ties to even. *)
Definition of_decimal (neg : bool) (m e10 : Z) : float :=
  match m with
  | Zpos p =>
      if (0 <=? e10)%Z then
        binary_normalize prec emax
          (if neg then (- (m * 10 ^ e10))%Z else (m * 10 ^ e10)%Z) 0 false
      else
        SFdiv prec emax (S754_finite neg p 0)
              (S754_finite false (Z.to_pos (10 ^ (- e10))) 0)
  | _ => S754_zero neg
  end.

(** The exponent part [e], optional sign, digits.  When the digits are
    missing the part is not read, and its text is left over. *)
Definition read_exponent (s : str) : Z * str :=
  match s with
  | c :: s' =>
      if (c =? 101) || (c =? 69) then
        let '(neg, s'') := read_sign s' in
        match take_while is_ascii_digit s'' with
        | [] => (0%Z, s)
        | ds =>
            let e := digits_value ds in
            ((if neg then - e else e)%Z, drop_while is_ascii_digit s'')
        end
      else (0%Z, s)
  | [] => (0%Z, s)
  end.

(** [_Py_parse_inf_or_nan], applied to the text after the sign. *)
Definition parse_inf_or_nan (neg : bool) (s : str) : option float :=
  let l := lower s in
  if str_eqb l (lit "inf") || str_eqb l (lit "infinity")
  then Some (S754_infinity neg)
  else if str_eqb l (lit "nan") then Some S754_nan
  else None.

(** [PyOS_string_to_double] on the whole of [s]: a decimal literal, or an
    infinity or a NaN; anything left over is an error. *)
Definition string_to_double (s : str) : option float :=
  let '(neg, s1) := read_sign s in
  let int_part := take_while is_ascii_digit s1 in
  let s2 := drop_while is_ascii_digit s1 in
  let '(frac_part, s3) :=
    match s2 with
    | 46 :: s2' => (take_while is_ascii_digit s2', drop_while is_ascii_digit s2')
    | _ => ([], s2)
    end in
  match int_part ++ frac_part with
  | [] => parse_inf_or_nan neg s1
  | mantissa =>
      let '(e, s4) := read_exponent s3 in
      match s4 with
      | [] => Some (of_decimal neg (digits_value mantissa)
                               (e - Z.of_nat (length frac_part)))
      | _ => None
      end
  end.

(** [float(s)] for a [str]; [None] stands for [ValueError]. *)
Definition of_str (s : str) : option float :=
  match drop_underscores 0 (c_strip (to_ascii s)) with
  | Some s' => string_to_double s'
  | None => None
  end.

(** [min(l)] and [max(l)] on a list that is not empty: the first element
    is kept until a later one compares below (above) it. *)
Definition min_from (first : float) (l : list float) : float :=
  fold_left (fun best item => if lt item best then item else best) l first.

Definition max_from (first : float) (l : list float) : float :=
  fold_left (fun best item => if lt best item then item else best) l first.

End pyfloat.

(** ** xml.etree.ElementTree *)

Module ET.

#[local] Set Warnings "-register-all".

Inductive Element := mkElement {
  tag : str;
  attrib : gmap str str;
  children : list Element
}.

(** [element.findall(name)]: the direct children with that tag, in
    document order. *)
Definition findall (name : str) (e : Element) : list Element :=
  filter (fun child => tag child = name) (children e).

(** [element.find(name)]: the first of them, or [None]. *)
Definition find (name : str) (e : Element) : option Element :=
  head (findall name e).

(** [element.attrib.get(key, fallback)]. *)
Definition get (key fallback : str) (e : Element) : str :=
  default fallback (attrib e !! key).

End ET.

(** ** junit_to_html.py *)

(** The dictionary [parse_junit] appends for a failed test case. *)
Record Issue := {
  suite : str;
  endpoint : str;
  time : str;
  msg : str;
  msg_short : str;
  status : str;
  kind : str;
  curl : str
}.

(** The variables of the loop over the lines of a failure message. *)
Record strip_state := {
  clean_lines : list str;
  curl_cmd : str;
  seen_reproduce : bool
}.

Definition strip_init : strip_state :=
  {| clean_lines := []; curl_cmd := []; seen_reproduce := false |}.

Definition is_marker (stripped : str) : bool :=
  startswith (lit "reproduce with") (lower stripped).

Definition is_curl (stripped : str) : bool := startswith (lit "curl ") stripped.

(** The body of [for line in lines]. *)
Definition strip_line (st : strip_state) (line : str) : strip_state :=
  let stripped := strip line in
  if is_marker stripped then
    {| clean_lines := clean_lines st; curl_cmd := curl_cmd st;
       seen_reproduce := true |}
  else if is_curl stripped then
    {| clean_lines := clean_lines st;
       curl_cmd := match curl_cmd st with [] => stripped | cmd => cmd end;
       seen_reproduce := seen_reproduce st |}
  else if seen_reproduce st && (is_curl stripped || str_eqb stripped []) then st
  else
    {| clean_lines := clean_lines st ++ [line]; curl_cmd := curl_cmd st;
       seen_reproduce := seen_reproduce st |}.

Definition strip_lines (lines : list str) : strip_state :=
  fold_left strip_line lines strip_init.

(** [msg_clean]: the kept lines joined and trimmed, or the raw message when
    nothing is left. *)
Definition clean_message (raw_msg : str) (st : strip_state) : str :=
  match strip (join [10] (clean_lines st)) with
  | [] => raw_msg
  | msg_clean => msg_clean
  end.

Definition ellipsis : char := 8230.

(** The body of the loop over test cases, from [raw_msg] on: the issue built
    for a test case that has a [failure] child. *)
Definition failure_issue (suite_name tc_name time : str) (failure : ET.Element)
    : Issue :=
  let raw_msg := strip (ET.get (lit "message") [] failure) in
  let status := default [] (STATUS_RE_search raw_msg) in
  let kind := default [] (strip <$> KIND_RE_search raw_msg) in
  let st := strip_lines (splitlines raw_msg) in
  let msg_clean := clean_message raw_msg st in
  let msg_short := textwrap.shorten msg_clean 180 [ellipsis] in
  {| suite := suite_name; endpoint := tc_name; time := time;
     msg := msg_clean; msg_short := msg_short; status := status;
     kind := kind; curl := curl_cmd st |}.

(** The body of [for tc in testsuite.findall("testcase")]. *)
Definition testcase_step (suite_name : str) (issues : list Issue)
    (tc : ET.Element) : list Issue :=
  let tc_name := ET.get (lit "name") [] tc in
  let time := ET.get (lit "time") [] tc in
  match ET.find (lit "failure") tc with
  | None => issues
  | Some failure => issues ++ [failure_issue suite_name tc_name time failure]
  end.

(** The body of [for testsuite in root.findall("testsuite")]. *)
Definition testsuite_step (issues : list Issue) (testsuite : ET.Element)
    : list Issue :=
  let suite_name := ET.get (lit "name") [] testsuite in
  fold_left (testcase_step suite_name) (ET.findall (lit "testcase") testsuite)
            issues.

(** [parse_junit] from [root = tree.getroot()] on. *)
Definition issues_of_root (root : ET.Element) : list Issue :=
  fold_left testsuite_step (ET.findall (lit "testsuite") root) [].

(** Python compares [str] values code point by code point. *)
Fixpoint str_ltb (a b : str) : bool :=
  match a, b with
  | _, [] => false
  | [], _ :: _ => true
  | x :: a', y :: b' =>
      if x <? y then true else if y <? x then false else str_ltb a' b'
  end.

Definition str_le (a b : str) : Prop := str_ltb b a = false.

Global Instance str_le_dec (a b : str) : Decision (str_le a b).
Proof. unfold str_le. apply _. Defined.

(** [sorted(...)] on [str] values. *)
Definition sorted (l : list str) : list str := merge_sort str_le l.

(** A Python exception: the [ParseError] that [ET.parse] raises for a
    document that is not well-formed, or any other one, known by the name
    of its class ([FileNotFoundError], [IsADirectoryError], [ValueError],
    [UnicodeEncodeError] and so on). *)
Inductive exn := ParseError | Raised (class : str).

Section Program.

(** Taken as given: the bracketed-host check of [urllib] and the text
    [make_html] builds around its summary values. *)
Variable check_bracketed_netloc : str -> bool.

(** The [try] block of [extract_base_url]: the first URL of [text], cut
    down to scheme and host; [None] when there is no URL or [urlparse]
    raises. *)
Definition url_base (text : str) : option str :=
  match URL_RE_search text with
  | Some full_url =>
      match urllib.urlparse check_bracketed_netloc full_url with
      | Some parsed =>
          Some (urllib.p_scheme parsed ++ lit "://" ++ urllib.p_netloc parsed)
      | None => None
      end
  | None => None
  end.

Definition extract_base_url (curl_cmd suite_name : str) : str :=
  match (match curl_cmd with [] => None | _ => url_base curl_cmd end) with
  | Some base_url => base_url
  | None =>
      match (match suite_name with [] => None | _ => url_base suite_name end) with
      | Some base_url => base_url
      | None => []
      end
  end.

(** The set [base_urls] after the loop over the issues. *)
Definition base_url_set (issues : list Issue) : gset str :=
  fold_left
    (fun acc issue =>
       match extract_base_url (curl issue) (suite issue) with
       | [] => acc
       | base_url => acc ∪ {[ base_url ]}
       end)
    issues ∅.

Definition base_urls (issues : list Issue) : list str :=
  sorted (elements (base_url_set issues)).

(** The list [times]. *)
Definition times (issues : list Issue) : list pyfloat.float :=
  fold_left
    (fun acc issue =>
       match pyfloat.of_str (time issue) with
       | Some time_val => acc ++ [time_val]
       | None => acc
       end)
    issues [].

Definition min_time (issues : list Issue) : pyfloat.float :=
  match times issues with
  | [] => pyfloat.zero
  | t :: rest => pyfloat.min_from t rest
  end.

Definition max_time (issues : list Issue) : pyfloat.float :=
  match times issues with
  | [] => pyfloat.one
  | t :: rest => pyfloat.max_from t rest
  end.

(** What [make_html] computes before it builds the page. *)
Record Summary := {
  s_total : nat;
  s_base_urls : list str;
  s_min_time : pyfloat.float;
  s_max_time : pyfloat.float
}.

Definition summary (issues : list Issue) : Summary :=
  {| s_total := length issues; s_base_urls := base_urls issues;
     s_min_time := min_time issues; s_max_time := max_time issues |}.

(** The page built from the summary and the issues (status counters,
    style sheet, table rows and script). *)
Variable render : Summary -> list Issue -> str.

Definition make_html (issues : list Issue) : str :=
  render (summary issues) issues.

(** *** [main]: the outside world and exceptions *)

(** Taken as given: the outside world (the file system, the terminal) and
    what the four library calls of [main] do in it.  Each of them may
    raise.  [ET.parse(xml_path).getroot()] and [out_path.resolve()] read
    the world; [out_path.write_text(html)] and [print(line)] change it, also
    when they raise. *)
Variable world : Type.
Variable ET_parse : str -> world -> exn + ET.Element.
Variable write_text : str -> str -> world -> (exn + unit) * world.
Variable resolve : str -> world -> exn + str.
Variable print : str -> world -> (exn + unit) * world.

(** A computation that may raise, in the outside world. *)
Definition io (A : Type) : Type := world -> (exn + A) * world.

Definition ret {A} (a : A) : io A := fun w => (inr a, w).
Definition bind {A B} (m : io A) (k : A -> io B) : io B :=
  fun w =>
    match m w with
    | (inr a, w') => k a w'
    | (inl e, w') => (inl e, w')
    end.

(** A call that reads the world. *)
Definition reading {A} (call : world -> exn + A) : io A :=
  fun w => (call w, w).

Notation "x <- m ;; k" := (bind m (fun x => k))
  (at level 100, m at next level, right associativity).

Definition parse_junit (xml_path : str) : io (list Issue) :=
  root <- reading (ET_parse xml_path) ;;
  ret (issues_of_root root).

(** The text before the path in the line [main] prints, by code points. *)
Definition done_text : str :=
  [1043; 1086; 1090; 1086; 1074; 1086; 33; 32; 72; 84; 77; 76; 45; 1086;
   1090; 1095; 1105; 1090; 58; 32].

(** [main], after the command line has been read: [junit_xml] is the
    positional argument and [output] the value of [-o]. *)
Definition main (junit_xml output : str) : io unit :=
  issues <- parse_junit junit_xml ;;
  let html := make_html issues in
  _ <- write_text output html ;;
  resolved <- reading (resolve output) ;;
  print (done_text ++ resolved).

Definition default_output : str := lit "reporthesis.html".

End Program.

Arguments ret {world A} a.
Arguments bind {world A B} m k.
Arguments reading {world A} call.
Arguments parse_junit {world} ET_parse xml_path.
Arguments main check_bracketed_netloc render {world} ET_parse write_text
  resolve print junit_xml output.

(** ** [str.isdigit], [int] and [str] of an [int] *)

(** Code points that are digits without being decimal digits (superscripts,
    circled digits and the like), as ranges; Unicode 14. *)
Definition digit_only_ranges : list (N * N) :=
  [(178, 179); (185, 185); (4969, 4977); (6618, 6618); (8304, 8304);
   (8308, 8313); (8320, 8329); (9312, 9320); (9332, 9340); (9352, 9360);
   (9450, 9450); (9461, 9469); (9471, 9471); (10102, 10110);
   (10112, 10120); (10122, 10130); (68160, 68163); (69216, 69224);
   (69714, 69722); (127232, 127242)].

Definition isdigit_char (c : char) : bool :=
  isdecimal c || in_ranges digit_only_ranges c.

(** [str.isdigit()]: every character is a digit, and there is one at
    least. *)
Definition isdigit (s : str) : bool :=
  match s with
  | [] => false
  | _ => forallb isdigit_char s
  end.

Module pyint.

(** [sys.int_info.default_max_str_digits]. *)
Definition max_str_digits : nat := 4300.

Definition digit_or_underscore (c : char) : bool :=
  is_ascii_digit c || (c =? 95).

(** No two underscores in a row, and none at the end; [prev] is the
    character before [body]. *)
Fixpoint underscores_ok (prev : char) (body : str) : bool :=
  match body with
  | [] => negb (prev =? 95)
  | c :: body' =>
      if (c =? 95) && (prev =? 95) then false else underscores_ok c body'
  end.

(** [int(s)] for a [str], base 10; [None] stands for [ValueError].  The
    text is brought to ASCII as for [float]; then come whitespace, a sign,
    digits with single underscores between them, and whitespace. *)
Definition of_str (s : str) : option Z :=
  let s1 := drop_while pyfloat.is_c_space (pyfloat.to_ascii s) in
  let '(neg, s2) := pyfloat.read_sign s1 in
  let body := take_while digit_or_underscore s2 in
  let rest := drop_while digit_or_underscore s2 in
  let digits := List.filter is_ascii_digit body in
  match body with
  | [] => None
  | first :: _ =>
      if first =? 95 then None
      else if negb (underscores_ok 0 body) then None
      else if (max_str_digits <? length digits)%nat then None
      else if negb (forallb pyfloat.is_c_space rest) then None
      else
        let n := pyfloat.digits_value digits in
        Some (if neg then (- n)%Z else n)
  end.

Definition uint_digits : Decimal.uint -> str :=
  fix go (u : Decimal.uint) : str :=
    match u with
    | Decimal.Nil => []
    | Decimal.D0 u' => 48 :: go u'
    | Decimal.D1 u' => 49 :: go u'
    | Decimal.D2 u' => 50 :: go u'
    | Decimal.D3 u' => 51 :: go u'
    | Decimal.D4 u' => 52 :: go u'
    | Decimal.D5 u' => 53 :: go u'
    | Decimal.D6 u' => 54 :: go u'
    | Decimal.D7 u' => 55 :: go u'
    | Decimal.D8 u' => 56 :: go u'
    | Decimal.D9 u' => 57 :: go u'
    end.

(** [str(n)], which an f-string uses for an [int]. *)
Definition to_str (n : Z) : str :=
  match n with
  | Zneg p => 45 :: uint_digits (Pos.to_uint p)
  | _ => uint_digits (N.to_uint (Z.to_N n))
  end.

End pyint.

(** ** html.escape *)

(** [s.replace(old, new)] where [old] is one character. *)
Definition replace_char (old : char) (new : str) (s : str) : str :=
  flat_map (fun c => if c =? old then new else [c]) s.

Module html.

(** [html.escape(s, quote)]: the ampersand first, then the angle brackets,
    then, with [quote], the two quotes. *)
Definition escape (s : str) (quote : bool) : str :=
  let s := replace_char 38 (lit "&amp;") s in
  let s := replace_char 60 (lit "&lt;") s in
  let s := replace_char 62 (lit "&gt;") s in
  if quote then
    let s := replace_char 34 (lit "&quot;") s in
    replace_char 39 (lit "&#x27;") s
  else s.

End html.

(** ** [status_pill_html] and the counters of [make_html] *)

(** [status_pill_html]; [None] stands for the [ValueError] of [int]. *)
Definition status_pill_html (status : str) : option str :=
  if isdigit status then
    match pyint.of_str status with
    | Some code =>
        if ((500 <=? code) && (code <? 600))%Z then
          Some (lit "<span class='pill pill-5xx'>" ++ pyint.to_str code
                ++ lit "</span>")
        else if ((400 <=? code) && (code <? 500))%Z then
          Some (lit "<span class='pill pill-4xx'>" ++ pyint.to_str code
                ++ lit "</span>")
        else if ((200 <=? code) && (code <? 300))%Z then
          Some (lit "<span class='pill pill-2xx'>" ++ pyint.to_str code
                ++ lit "</span>")
        else Some (lit "<span class='pill pill-unk'>n/a</span>")
    | None => None
    end
  else Some (lit "<span class='pill pill-unk'>n/a</span>").

(** The condition of the generators that count the issues of a class of
    status codes: [status.isdigit() and lo <= int(status) < hi]. *)
Definition status_between (lo hi : Z) (status : str) : option bool :=
  if isdigit status then
    match pyint.of_str status with
    | Some code => Some ((lo <=? code) && (code <? hi))%Z
    | None => None
    end
  else Some false.

(** [sum(1 for i in issues if ...)]. *)
Fixpoint count_status (lo hi : Z) (issues : list Issue) : option nat :=
  match issues with
  | [] => Some O
  | issue :: issues' =>
      match status_between lo hi (status issue) with
      | Some b =>
          match count_status lo hi issues' with
          | Some n => Some (if b then S n else n)
          | None => None
          end
      | None => None
      end
  end.

Definition total_5xx : list Issue -> option nat := count_status 500 600.

Definition total_4xx : list Issue -> option nat := count_status 400 500.

(** ** What the extractor is expected to return *)

(** The two loops of [parse_junit] in closed form: for each [testsuite] found
    in the root, in order, the issues of the [testcase] elements found in
    it that have a [failure] element. *)
Definition testcase_issue (suite_name : str) (tc : ET.Element) : option Issue :=
  failure_issue suite_name (ET.get (lit "name") [] tc) (ET.get (lit "time") [] tc)
    <$> ET.find (lit "failure") tc.

Definition document_order_issues (root : ET.Element) : list Issue :=
  flat_map
    (fun testsuite =>
       omap (testcase_issue (ET.get (lit "name") [] testsuite))
            (ET.findall (lit "testcase") testsuite))
    (ET.findall (lit "testsuite") root).

(** *** Document order, over children and tags

    The issues of a document as the specification words them, written over
    the children of an element, their tags and their attributes alone: the
    test suites in document order, in each its test cases in document
    order, and an issue for exactly the test cases that have a [failure]
    child. *)

(** [child.tag == name]. *)
Definition has_tag (name : str) (e : ET.Element) : bool :=
  str_eqb (ET.tag e) name.

(** The value of an attribute, the empty text when the element has none of
    that name. *)
Definition attribute (key : str) (e : ET.Element) : str :=
  match ET.attrib e !! key with
  | Some value => value
  | None => []
  end.

(** The first of a list of children that has the tag. *)
Fixpoint first_with_tag (name : str) (cs : list ET.Element)
    : option ET.Element :=
  match cs with
  | [] => None
  | c :: cs' => if has_tag name c then Some c else first_with_tag name cs'
  end.

(** The children of a test suite that are test cases with a [failure]
    child, in the order of the children, each with the first such child. *)
Fixpoint failed_testcases (cs : list ET.Element)
    : list (ET.Element * ET.Element) :=
  match cs with
  | [] => []
  | c :: cs' =>
      if has_tag (lit "testcase") c then
        match first_with_tag (lit "failure") (ET.children c) with
        | Some failure => (c, failure) :: failed_testcases cs'
        | None => failed_testcases cs'
        end
      else failed_testcases cs'
  end.

(** The failed test cases of the children of a root: child by child, and
    for a child that is a test suite its failed test cases, with the suite. *)
Fixpoint document_order_failures (cs : list ET.Element)
    : list (ET.Element * ET.Element * ET.Element) :=
  match cs with
  | [] => []
  | c :: cs' =>
      if has_tag (lit "testsuite") c then
        map (fun found => (c, found.1, found.2))
            (failed_testcases (ET.children c))
        ++ document_order_failures cs'
      else document_order_failures cs'
  end.

(** The issue expected for a failed test case of a test suite. *)
Definition expected_issue (found : ET.Element * ET.Element * ET.Element)
    : Issue :=
  let '(testsuite, tc, failure) := found in
  failure_issue (attribute (lit "name") testsuite)
                (attribute (lit "name") tc) (attribute (lit "time") tc)
                failure.

(** The child at index [j] is a test case with a [failure] child. *)
Definition failed_testcase_at (cs : list ET.Element) (j : nat) : Prop :=
  exists tc,
    cs !! j = Some tc /\ ET.tag tc = lit "testcase"
    /\ exists failure, failure ∈ ET.children tc /\ ET.tag failure = lit "failure".

(** The position [(i, j)] of a document is that of a failed test case: the
    child [i] of the root is a test suite, and its child [j] a test case with
    a [failure] child. *)
Definition failed_at (root : ET.Element) (position : nat * nat) : Prop :=
  exists testsuite,
    ET.children root !! position.1 = Some testsuite
    /\ ET.tag testsuite = lit "testsuite"
    /\ failed_testcase_at (ET.children testsuite) position.2.

(** Document order on positions: an earlier suite, or the same suite and an
    earlier test case. *)
Definition before_in_document (p q : nat * nat) : Prop :=
  (p.1 < q.1)%nat \/ (p.1 = q.1 /\ (p.2 < q.2)%nat).

(** The issue of the failed test case at a position: the names of the suite
    and of the test case, the time of the test case, and what the body of
    the loop makes of the first [failure] child. *)
Definition issue_at (root : ET.Element) (position : nat * nat) (issue : Issue)
    : Prop :=
  exists testsuite tc failure before after,
    ET.children root !! position.1 = Some testsuite
    /\ ET.children testsuite !! position.2 = Some tc
    /\ ET.children tc = before ++ failure :: after
    /\ ET.tag failure = lit "failure"
    /\ Forall (fun c => ET.tag c <> lit "failure") before
    /\ issue = failure_issue (attribute (lit "name") testsuite)
                 (attribute (lit "name") tc) (attribute (lit "time") tc)
                 failure.

(** ** Notions used in the statements and proofs *)

(** A text of whitespace only. *)
Definition blank_line (s : str) : bool := forallb isspace s.

(** A text that holds no line boundary. *)
Definition no_linebreak (l : str) : Prop := Forall (fun c => is_linebreak c = false) l.

(** [m] is [l] with whitespace taken off its ends. *)
Definition trim_of (m l : str) : Prop :=
  strip m = strip l /\ forall c, c ∈ m -> c ∈ l.

(** Trimming a text that is given by its lines: the blank lines at the
    head are dropped and the first line left is trimmed on the left;
    likewise at the tail. *)
Fixpoint ltrim_lines (ls : list str) : list str :=
  match ls with
  | [] => []
  | l :: ls' => if blank_line l then ltrim_lines ls' else lstrip l :: ls'
  end.

Fixpoint rtrim_rev (ls : list str) : list str :=
  match ls with
  | [] => []
  | l :: ls' => if blank_line l then rtrim_rev ls' else rstrip l :: ls'
  end.

Definition rtrim_lines (ls : list str) : list str := rev (rtrim_rev (rev ls)).

(** The text kept by the loop over the lines of a raw message, joined and
    trimmed, before [clean_message] falls back on the raw message. *)
Definition kept_text (raw_msg : str) : str :=
  strip (join [10] (clean_lines (strip_lines (splitlines raw_msg)))).

(** The reproduction command as the specification words it: the first line
    whose trimmed form starts with [curl ], trimmed; empty when there is
    none. *)
Definition first_curl_line (lines : list str) : str :=
  match List.find (fun line => is_curl (strip line)) lines with
  | Some line => strip line
  | None => []
  end.

(** No line of [message] is a marker line, a curl line, the line [cmd]. *)
Definition no_marker_line (message : str) : Prop :=
  forall m, m ∈ splitlines message -> is_marker (strip m) = false.

Definition no_curl_line (message : str) : Prop :=
  forall m, m ∈ splitlines message -> is_curl (strip m) = false.

Definition lacks_line (cmd message : str) : Prop :=
  forall m, m ∈ splitlines message -> strip m <> cmd.

(** The lines the loop over a raw message keeps, read off its text: before
    the first marker line every line that is no curl line; from it on every
    line that is no marker line, no curl line and not blank. *)
Definition marker_line (l : str) : bool := is_marker (strip l).

Definition curl_line (l : str) : bool := is_curl (strip l).

Definition kept_after_marker (l : str) : bool :=
  negb (marker_line l) && negb (curl_line l) && negb (blank_line l).

Definition lines_kept (lines : list str) : list str :=
  List.filter (fun l => negb (curl_line l))
              (take_while (fun l => negb (marker_line l)) lines)
  ++ List.filter kept_after_marker
                 (drop_while (fun l => negb (marker_line l)) lines).

(** The code points of a table of ranges, listed. *)
Fixpoint N_upto (lo : N) (n : nat) : list N :=
  match n with
  | O => []
  | S n' => lo :: N_upto (N.succ lo) n'
  end.

Definition range_members (r : N * N) : list N :=
  N_upto (fst r) (N.to_nat (N.succ (snd r) - fst r)).

(** The ASCII digit that stands for a decimal digit. *)
Definition ascii_digit_of (c : char) : char :=
  match decimal_value c with
  | Some d => 48 + d
  | None => c
  end.

(** The pill of a status code of decimal digits, read off its first
    digit; the code is shown with ASCII digits. *)
Definition unknown_pill : str := lit "<span class='pill pill-unk'>n/a</span>".

Definition pill_of_class (class : String.string) (status : str) : str :=
  lit "<span class='pill pill-" ++ lit class ++ lit "'>"
  ++ map ascii_digit_of status ++ lit "</span>".

Definition expected_pill (status : str) : str :=
  match status with
  | [d1; _; _] =>
      match decimal_value d1 with
      | Some 5 => pill_of_class "5xx" status
      | Some 4 => pill_of_class "4xx" status
      | Some 2 => pill_of_class "2xx" status
      | _ => unknown_pill
      end
  | _ => unknown_pill
  end.

(** A status code as the extractor gives it: empty, or three decimal
    digits. *)
Definition extracted_status (status : str) : Prop :=
  status = []
  \/ (length status = 3%nat /\ Forall (fun c => isdecimal c = true) status).

(** A base URL as the code builds it: [http] or [https], [://], and a host
    that holds no whitespace, no quote of either kind, and none of [/], [?]
    and [#]. *)
Definition host_char (c : char) : bool :=
  url_char c && negb ((c =? 47) || (c =? 63) || (c =? 35)).

Definition base_url_shaped (b : str) : Prop :=
  exists scheme host,
    (scheme = lit "http" \/ scheme = lit "https")
    /\ b = scheme ++ lit "://" ++ host
    /\ Forall (fun c => host_char c = true) host.

(** What [html.escape] puts for one character. *)
Definition escape_char (quote : bool) (c : char) : str :=
  if c =? 38 then lit "&amp;"
  else if c =? 60 then lit "&lt;"
  else if c =? 62 then lit "&gt;"
  else if quote && (c =? 34) then lit "&quot;"
  else if quote && (c =? 39) then lit "&#x27;"
  else [c].

(** *** Sample documents *)

Definition failure_with (message : str) : ET.Element :=
  ET.mkElement (lit "failure") {[ lit "message" := message ]} [].

Definition testcase_with (name time : str) (children : list ET.Element)
    : ET.Element :=
  ET.mkElement (lit "testcase")
    (<[ lit "name" := name ]> {[ lit "time" := time ]}) children.

Definition testsuite_with (name : str) (children : list ET.Element)
    : ET.Element :=
  ET.mkElement (lit "testsuite") {[ lit "name" := name ]} children.

Definition newline : str := [10].

(** The scenario of the specification: one suite, one failed test case. *)
Definition sample_message : str :=
  lit "[500] - Internal error" ++ newline ++ newline
  ++ lit "Reproduce with:" ++ newline ++ newline
  ++ lit "curl -X GET https://api.example.com/users".

Definition sample_root : ET.Element :=
  ET.mkElement (lit "testsuites") ∅
    [testsuite_with (lit "API Tests")
       [testcase_with (lit "GET /users [500] - Server error") (lit "0.12")
          [failure_with sample_message]]].

(** A line the loop keeps is neither a marker line nor a curl line. *)
Definition kept_line (l : str) : Prop :=
  is_marker (strip l) = false /\ is_curl (strip l) = false.

Definition sample_issue : Issue :=
  failure_issue (lit "API Tests") (lit "GET /users [500] - Server error")
                (lit "0.12") (failure_with sample_message).

Definition marker_only_message : str :=
  lit "Reproduce with:" ++ newline
  ++ lit "curl -X GET https://api.example.com/users".

Definition curl_only_message : str :=
  lit "curl -X GET https://api.example.com/users".

(** A message whose only bracketed status and only dash-led text stand in
    the curl line. *)
Definition curl_status_message : str :=
  lit "Server error" ++ newline
  ++ lit "Reproduce with:" ++ newline
  ++ lit "curl https://api.example.com/items/[404] -H - verbose".

(** A bracketed status written with ARABIC-INDIC digits (U+0665, U+0660). *)
Definition arabic_status_message : str := [91; 1637; 1632; 1632; 93].

(** An issue known by its time only, and one known by its reproduction
    command only. *)
Definition timed_issue (t : str) : Issue :=
  {| suite := []; endpoint := []; time := t; msg := []; msg_short := [];
     status := []; kind := []; curl := [] |}.

Definition curl_issue (cmd : str) : Issue :=
  {| suite := []; endpoint := []; time := []; msg := []; msg_short := [];
     status := []; kind := []; curl := cmd |}.

(** The times of the issues that have one, as the specification words
    them. *)
Definition parsed_times (issues : list Issue) : list pyfloat.float :=
  omap (fun issue => pyfloat.of_str (time issue)) issues.

(** A word of [str.split()]: not empty, and free of whitespace. *)
Definition word (w : str) : Prop :=
  w <> [] /\ Forall (fun c => isspace c = false) w.

(** A text made of characters that are no whitespace and of spaces. *)
Definition spaced (t : str) : Prop :=
  Forall (fun c => isspace c = false \/ c = 32) t.

(** The text [shorten] hands to the wrapper: the words of [text], one space
    between two of them. *)
Definition collapsed (text : str) : str := join [32] (split (strip text)).

(** A message of two lines. *)
Definition two_line_message : str := lit "a" ++ newline ++ lit "b".

(** A message of 203 characters. *)
Definition long_message : str :=
  concat (repeat (lit "abcdefghi ") 20) ++ lit "end".

(** *** A sample run *)

(** A parser that accepts one document only, the empty report. *)
Definition sample_parser (content : str) : option ET.Element :=
  if str_eqb content (lit "<testsuites/>")
  then Some (ET.mkElement (lit "testsuites") ∅ [])
  else None.

(** A sample outside world: files known by their name alone, a terminal
    that takes ASCII only. *)
Definition sample_ET_parse (path : str) (w : gmap str str)
    : exn + ET.Element :=
  match w !! path with
  | None => inl (Raised (lit "FileNotFoundError"))
  | Some content =>
      match sample_parser content with
      | None => inl ParseError
      | Some root => inr root
      end
  end.

Definition sample_write_text (path html : str) (w : gmap str str)
    : (exn + unit) * gmap str str :=
  (inr tt, <[ path := html ]> w).

Definition sample_resolve (path : str) (w : gmap str str) : exn + str :=
  inr (lit "/work/" ++ path).

Definition sample_print (line : str) (w : gmap str str)
    : (exn + unit) * gmap str str :=
  if forallb (fun c => c <? 128) line then (inr tt, w)
  else (inl (Raised (lit "UnicodeEncodeError")), w).

(** A file system whose report is cut short. *)
Definition sample_world : gmap str str :=
  {[ lit "junit.xml" := lit "<testsuites>" ]}.


(** * Properties *)

(** ** Trimming *)

Lemma take_drop_while {A} (p : A -> bool) (l : list A) :
  take_while p l ++ drop_while p l = l.
Proof. induction l as [|x l IH]; simpl; [done|]. destruct (p x); simpl; congruence. Qed.

Lemma take_while_all {A} (p : A -> bool) (l : list A) :
  forallb p (take_while p l) = true.
Proof. induction l as [|x l IH]; simpl; [done|]. destruct (p x) eqn:E; simpl; [by rewrite E|done]. Qed.

Lemma drop_while_all {A} (p : A -> bool) (a b : list A) :
  forallb p a = true -> drop_while p (a ++ b) = drop_while p b.
Proof.
  induction a as [|x a IH]; simpl; [done|].
  intros [Hx Ha]%andb_true_iff. rewrite Hx. auto.
Qed.

Lemma drop_while_not_all {A} (p : A -> bool) (a b : list A) :
  forallb p a = false -> drop_while p (a ++ b) = drop_while p a ++ b.
Proof.
  induction a as [|x a IH]; simpl; [done|].
  destruct (p x); simpl; auto.
Qed.

Lemma drop_while_nil {A} (p : A -> bool) (l : list A) :
  drop_while p l = [] <-> forallb p l = true.
Proof.
  induction l as [|x l IH]; simpl; [done|].
  destruct (p x); simpl; [done|]. split; discriminate.
Qed.

Lemma drop_while_head {A} (p : A -> bool) (l : list A) x t :
  drop_while p l = x :: t -> p x = false.
Proof.
  induction l as [|y l IH]; simpl; [done|].
  destruct (p y) eqn:E; [done|]. intros [= -> _]. done.
Qed.

Lemma drop_while_fix {A} (p : A -> bool) x (t : list A) :
  p x = false -> drop_while p (x :: t) = x :: t.
Proof. simpl. by intros ->. Qed.

Lemma drop_while_idem {A} (p : A -> bool) (l : list A) :
  drop_while p (drop_while p l) = drop_while p l.
Proof.
  destruct (drop_while p l) as [|x t] eqn:E; [done|].
  apply drop_while_fix. eapply drop_while_head, E.
Qed.

Lemma forallb_rev {A} (p : A -> bool) (l : list A) :
  forallb p (rev l) = forallb p l.
Proof.
  induction l as [|x l IH]; simpl; [done|].
  rewrite forallb_app, IH. simpl. rewrite andb_true_r. apply andb_comm.
Qed.

Lemma elem_of_rev {A} (x : A) (l : list A) : x ∈ rev l <-> x ∈ l.
Proof. rewrite !list_elem_of_In. symmetry. apply in_rev. Qed.

Lemma last_rev {A} (l : list A) : last (rev l) = head l.
Proof. destruct l as [|x l]; [done|]. simpl. apply last_snoc. Qed.


Lemma lstrip_nil s : lstrip s = [] <-> blank_line s = true.
Proof. apply drop_while_nil. Qed.

Lemma rstrip_nil s : rstrip s = [] <-> blank_line s = true.
Proof.
  unfold rstrip, blank_line. rewrite <- (forallb_rev _ s), <- drop_while_nil.
  unfold lstrip. split; [|by intros ->].
  intros H. by rewrite <- (rev_involutive (drop_while _ _)), H.
Qed.

Lemma rstrip_app_blank a b : blank_line b = true -> rstrip (a ++ b) = rstrip a.
Proof.
  intros Hb. unfold rstrip, lstrip. rewrite rev_app_distr, drop_while_all; [done|].
  by rewrite forallb_rev.
Qed.

Lemma rstrip_app_not_blank a b :
  blank_line b = false -> rstrip (a ++ b) = a ++ rstrip b.
Proof.
  intros Hb. unfold rstrip, lstrip.
  rewrite rev_app_distr, drop_while_not_all by (by rewrite forallb_rev).
  by rewrite rev_app_distr, rev_involutive.
Qed.

Lemma lstrip_app_blank a b : blank_line a = true -> lstrip (a ++ b) = lstrip b.
Proof. apply drop_while_all. Qed.

Lemma lstrip_app_not_blank a b :
  blank_line a = false -> lstrip (a ++ b) = lstrip a ++ b.
Proof. apply drop_while_not_all. Qed.

Lemma lstrip_idem s : lstrip (lstrip s) = lstrip s.
Proof. apply drop_while_idem. Qed.

Lemma rstrip_idem s : rstrip (rstrip s) = rstrip s.
Proof. unfold rstrip. rewrite rev_involutive. unfold lstrip. by rewrite drop_while_idem. Qed.

Lemma blank_line_app a b : blank_line (a ++ b) = blank_line a && blank_line b.
Proof. apply forallb_app. Qed.

Lemma lstrip_decompose s : exists a, s = a ++ lstrip s /\ blank_line a = true.
Proof.
  exists (take_while isspace s). split.
  - symmetry. apply take_drop_while.
  - apply take_while_all.
Qed.

Lemma rstrip_decompose s : exists b, s = rstrip s ++ b /\ blank_line b = true.
Proof.
  destruct (lstrip_decompose (rev s)) as (a & Ha & Hb).
  exists (rev a). split.
  - unfold rstrip. rewrite <- rev_app_distr, <- Ha. by rewrite rev_involutive.
  - unfold blank_line. by rewrite forallb_rev.
Qed.

Lemma blank_lstrip s : blank_line (lstrip s) = blank_line s.
Proof.
  destruct (lstrip_decompose s) as (a & Ha & Hb).
  rewrite Ha at 2. rewrite blank_line_app, Hb. done.
Qed.

Lemma blank_rstrip s : blank_line (rstrip s) = blank_line s.
Proof.
  destruct (rstrip_decompose s) as (a & Ha & Hb).
  rewrite Ha at 2. rewrite blank_line_app, Hb. by rewrite andb_true_r.
Qed.

Lemma strip_comm s : lstrip (rstrip s) = rstrip (lstrip s).
Proof.
  destruct (blank_line s) eqn:Hs.
  - assert (H1 : rstrip s = []) by by apply rstrip_nil.
    assert (H2 : lstrip s = []) by by apply lstrip_nil.
    by rewrite H1, H2.
  - destruct (lstrip_decompose s) as (a & Ha & Hb).
    assert (Hl : blank_line (lstrip s) = false) by by rewrite blank_lstrip.
    rewrite Ha at 1. rewrite rstrip_app_not_blank by done.
    rewrite lstrip_app_blank by done.
    destruct (rstrip (lstrip s)) as [|x t] eqn:E.
    { apply rstrip_nil in E. congruence. }
    destruct (lstrip s) as [|y u] eqn:E2; [done|].
    assert (Hy : isspace y = false) by (eapply drop_while_head, E2).
    assert (x = y) as ->.
    { destruct (blank_line u) eqn:Hu.
      - change (y :: u) with ([y] ++ u) in E. rewrite rstrip_app_blank in E by done.
        unfold rstrip, lstrip in E. simpl in E. rewrite Hy in E. simpl in E. congruence.
      - change (y :: u) with ([y] ++ u) in E. rewrite rstrip_app_not_blank in E by done.
        simpl in E. congruence. }
    unfold lstrip. by apply drop_while_fix.
Qed.

Lemma strip_idem s : strip (strip s) = strip s.
Proof.
  unfold strip. rewrite strip_comm, lstrip_idem, rstrip_idem. done.
Qed.

Lemma strip_lstrip s : strip (lstrip s) = strip s.
Proof. unfold strip. by rewrite lstrip_idem. Qed.

Lemma strip_rstrip s : strip (rstrip s) = strip s.
Proof. unfold strip. by rewrite strip_comm, rstrip_idem. Qed.

Lemma strip_nil s : strip s = [] <-> blank_line s = true.
Proof. unfold strip. by rewrite rstrip_nil, blank_lstrip. Qed.

Lemma strip_decompose s :
  exists a b, s = a ++ strip s ++ b /\ blank_line a = true /\ blank_line b = true.
Proof.
  destruct (lstrip_decompose s) as (a & Ha & Hb).
  destruct (rstrip_decompose (lstrip s)) as (b & Ha' & Hb').
  exists a, b. unfold strip. by rewrite <- Ha', <- Ha.
Qed.

Lemma elem_of_strip c s : c ∈ strip s -> c ∈ s.
Proof.
  destruct (strip_decompose s) as (a & b & Hs & _).
  intros H. rewrite Hs. set_solver.
Qed.

(** A trimmed text that is not empty begins and ends with characters that
    are not whitespace. *)
Lemma strip_ends s :
  strip s <> [] ->
  (exists c, head (strip s) = Some c /\ isspace c = false)
  /\ (exists d, last (strip s) = Some d /\ isspace d = false).
Proof.
  intros Hne. split.
  - unfold strip in *. rewrite <- strip_comm in *.
    destruct (lstrip (rstrip s)) as [|x t] eqn:E; [done|].
    exists x. split; [done|]. eapply drop_while_head, E.
  - unfold strip in *. unfold rstrip at 1 in Hne. unfold rstrip at 1.
    rewrite last_rev.
    destruct (lstrip (rev (lstrip s))) as [|x t] eqn:E; [done|].
    exists x. split; [done|]. eapply drop_while_head, E.
Qed.

(** ** Lines *)

Lemma trim_of_refl l : trim_of l l.
Proof. by split. Qed.

Lemma trim_of_trans a b c : trim_of a b -> trim_of b c -> trim_of a c.
Proof. intros [H1 H2] [H3 H4]. split; [congruence | auto]. Qed.

Lemma trim_of_lstrip l : trim_of (lstrip l) l.
Proof.
  split; [apply strip_lstrip|].
  destruct (lstrip_decompose l) as (a & Ha & _). intros c Hc. rewrite Ha. set_solver.
Qed.

Lemma trim_of_rstrip l : trim_of (rstrip l) l.
Proof.
  split; [apply strip_rstrip|].
  destruct (rstrip_decompose l) as (a & Ha & _). intros c Hc. rewrite Ha. set_solver.
Qed.

Lemma trim_of_no_linebreak m l : trim_of m l -> no_linebreak l -> no_linebreak m.
Proof.
  intros [_ H] Hl. unfold no_linebreak in *. rewrite Forall_forall in *. auto.
Qed.

Lemma splitlines_from_plain cur s :
  no_linebreak s ->
  splitlines_from cur s = match cur ++ s with [] => [] | l => [l] end.
Proof.
  revert cur. induction s as [|c s IH]; intros cur Hs; simpl.
  - rewrite app_nil_r. by destruct cur.
  - inversion Hs as [|? ? Hc Hs']; subst. rewrite Hc, IH by done.
    by rewrite <- app_assoc.
Qed.

Lemma splitlines_from_newline cur l rest :
  no_linebreak l ->
  splitlines_from cur (l ++ 10 :: rest) = (cur ++ l) :: splitlines_from [] rest.
Proof.
  revert cur. induction l as [|c l IH]; intros cur Hl; simpl.
  - rewrite app_nil_r. by destruct rest.
  - inversion Hl as [|? ? Hc Hl']; subst. rewrite Hc, IH by done.
    by rewrite <- app_assoc.
Qed.

Lemma splitlines_join ls :
  Forall no_linebreak ls -> last ls <> Some [] ->
  splitlines (join [10] ls) = ls.
Proof.
  unfold splitlines. induction ls as [|p ls IH]; intros Hls Hlast; [done|].
  inversion Hls as [|? ? Hp Hls']; subst.
  destruct ls as [|q r].
  - simpl. rewrite splitlines_from_plain by done. simpl.
    destruct p; [by destruct Hlast | done].
  - change (join [10] (p :: q :: r)) with (p ++ 10 :: join [10] (q :: r)).
    rewrite splitlines_from_newline by done. simpl app. f_equal.
    apply IH; [done|]. by rewrite last_cons_cons in Hlast.
Qed.

Lemma splitlines_from_no_linebreak cur s :
  no_linebreak cur -> Forall no_linebreak (splitlines_from cur s).
Proof.
  remember (length s) as n eqn:Hn. revert s cur Hn.
  induction (lt_wf n) as [n _ IH]. intros s cur -> Hcur.
  destruct s as [|c s]; simpl.
  - destruct cur; [constructor | constructor; [done | constructor]].
  - destruct (is_linebreak c) eqn:Hc.
    + constructor; [done|].
      destruct s as [|d s']; [constructor|].
      destruct ((c =? 13) && (d =? 10)).
      * eapply IH; [|done|constructor]. simpl. lia.
      * eapply IH; [|done|constructor]. simpl. lia.
    + eapply IH; [|done|]. { simpl. lia. }
      apply Forall_app. split; [done|]. constructor; [done | constructor].
Qed.

Lemma splitlines_no_linebreak s : Forall no_linebreak (splitlines s).
Proof. apply splitlines_from_no_linebreak. constructor. Qed.

(** *** Trimming a text that is given by its lines *)

Lemma lstrip_join ls : lstrip (join [10] ls) = join [10] (ltrim_lines ls).
Proof.
  induction ls as [|l ls IH]; [done|].
  destruct ls as [|q r].
  - simpl. destruct (blank_line l) eqn:Hl; [by apply lstrip_nil | done].
  - change (join [10] (l :: q :: r)) with (l ++ [10] ++ join [10] (q :: r)).
    cbn [ltrim_lines]. fold (ltrim_lines (q :: r)).
    destruct (blank_line l) eqn:Hl.
    + rewrite lstrip_app_blank by done.
      rewrite lstrip_app_blank by done. apply IH.
    + by rewrite lstrip_app_not_blank.
Qed.

Lemma join_snoc sep ls l :
  join sep (ls ++ [l]) = match ls with [] => l | _ => join sep ls ++ sep ++ l end.
Proof.
  induction ls as [|p ls IH]; [done|].
  destruct ls as [|q r]; [done|].
  change (join sep ((p :: q :: r) ++ [l])) with (p ++ sep ++ join sep ((q :: r) ++ [l])).
  rewrite IH.
  change (join sep (p :: q :: r)) with (p ++ sep ++ join sep (q :: r)).
  by rewrite <- !app_assoc.
Qed.

Lemma rstrip_join ls : rstrip (join [10] ls) = join [10] (rtrim_lines ls).
Proof.
  induction ls as [|l ls IH] using rev_ind; [done|].
  unfold rtrim_lines. rewrite rev_app_distr. simpl.
  rewrite join_snoc.
  destruct (blank_line l) eqn:Hl.
  - fold (rtrim_lines ls). rewrite <- IH.
    destruct ls; [by apply rstrip_nil|].
    rewrite rstrip_app_blank; [done|].
    change (blank_line ([10] ++ l) = true). by rewrite blank_line_app, Hl.
  - simpl. rewrite rev_involutive, join_snoc.
    destruct ls; [done|].
    rewrite rstrip_app_not_blank.
    + change (10 :: l) with ([10] ++ l). by rewrite rstrip_app_not_blank.
    + change (blank_line ([10] ++ l) = false).
      by rewrite blank_line_app, Hl, andb_false_r.
Qed.

Lemma ltrim_lines_trim ls m :
  m ∈ ltrim_lines ls -> exists l, l ∈ ls /\ trim_of m l.
Proof.
  induction ls as [|l ls IH]; simpl; [by intros ?%elem_of_nil|].
  destruct (blank_line l).
  - intros (l' & ? & ?)%IH. exists l'. split; [by right | done].
  - intros [->|H]%elem_of_cons.
    + exists l. split; [by left | apply trim_of_lstrip].
    + exists m. split; [by right | apply trim_of_refl].
Qed.

Lemma rtrim_rev_trim ls m :
  m ∈ rtrim_rev ls -> exists l, l ∈ ls /\ trim_of m l.
Proof.
  induction ls as [|l ls IH]; simpl; [by intros ?%elem_of_nil|].
  destruct (blank_line l).
  - intros (l' & ? & ?)%IH. exists l'. split; [by right | done].
  - intros [->|H]%elem_of_cons.
    + exists l. split; [by left | apply trim_of_rstrip].
    + exists m. split; [by right | apply trim_of_refl].
Qed.

Lemma rtrim_lines_trim ls m :
  m ∈ rtrim_lines ls -> exists l, l ∈ ls /\ trim_of m l.
Proof.
  unfold rtrim_lines. rewrite elem_of_rev.
  intros (l & Hl & ?)%rtrim_rev_trim. exists l. by rewrite elem_of_rev in Hl.
Qed.

Lemma rtrim_lines_last ls : last (rtrim_lines ls) <> Some [].
Proof.
  unfold rtrim_lines. rewrite last_rev.
  induction (rev ls) as [|l rl IH]; simpl; [done|].
  destruct (blank_line l) eqn:Hl; [done|]. simpl.
  intros [= H]. apply rstrip_nil in H. congruence.
Qed.

(** The lines of a trimmed text are lines of the text, the first and the
    last one trimmed. *)
Lemma strip_join_lines ls :
  Forall no_linebreak ls ->
  forall m, m ∈ splitlines (strip (join [10] ls)) ->
            exists l, l ∈ ls /\ trim_of m l.
Proof.
  intros Hls m. unfold strip. rewrite lstrip_join, rstrip_join.
  rewrite splitlines_join.
  - intros (l1 & H1 & T1)%rtrim_lines_trim.
    apply ltrim_lines_trim in H1 as (l & H & T). exists l. split; [done|].
    eapply trim_of_trans; eauto.
  - rewrite Forall_forall. intros x (l1 & H1 & T1)%rtrim_lines_trim.
    apply ltrim_lines_trim in H1 as (l & H & T).
    eapply trim_of_no_linebreak; [eapply trim_of_trans; eauto|].
    rewrite Forall_forall in Hls. auto.
  - apply rtrim_lines_last.
Qed.

(** ** Document order (C8) *)

Lemma fold_left_app_flat_map {A B} (step : list B -> A -> list B)
    (f : A -> list B) (l : list A) (init : list B) :
  (forall acc x, step acc x = acc ++ f x) ->
  fold_left step l init = init ++ flat_map f l.
Proof.
  intros Hstep. revert init.
  induction l as [|x l IH]; intros init; simpl.
  - by rewrite app_nil_r.
  - by rewrite IH, Hstep, app_assoc.
Qed.

Lemma testcase_step_app suite_name issues tc :
  testcase_step suite_name issues tc
  = issues ++ option_list (testcase_issue suite_name tc).
Proof.
  unfold testcase_step, testcase_issue.
  destruct (ET.find _ tc); simpl; [done | by rewrite app_nil_r].
Qed.

Lemma omap_flat_map {A B} (f : A -> option B) (l : list A) :
  omap f l = flat_map (fun x => option_list (f x)) l.
Proof.
  induction l as [|x l IH]; simpl; [done|].
  rewrite <- IH. by destruct (f x).
Qed.

Lemma testsuite_step_app issues testsuite :
  testsuite_step issues testsuite
  = issues ++ omap (testcase_issue (ET.get (lit "name") [] testsuite))
                   (ET.findall (lit "testcase") testsuite).
Proof.
  unfold testsuite_step. rewrite omap_flat_map.
  apply fold_left_app_flat_map. intros; apply testcase_step_app.
Qed.

Lemma issues_of_root_eq (root : ET.Element) :
  issues_of_root root = document_order_issues root.
Proof.
  unfold issues_of_root, document_order_issues.
  by rewrite (fold_left_app_flat_map testsuite_step _ _ _ testsuite_step_app).
Qed.

Lemma get_attribute key e : ET.get key [] e = attribute key e.
Proof. unfold ET.get, attribute. by destruct (ET.attrib e !! key). Qed.

Lemma filter_tag_cons name c (cs : list ET.Element) :
  filter (fun child => ET.tag child = name) (c :: cs)
  = if has_tag name c
    then c :: filter (fun child => ET.tag child = name) cs
    else filter (fun child => ET.tag child = name) cs.
Proof.
  rewrite filter_cons. unfold has_tag, str_eqb.
  destruct (decide (ET.tag c = name)); by case_bool_decide.
Qed.

Lemma find_first_with_tag name e :
  ET.find name e = first_with_tag name (ET.children e).
Proof.
  unfold ET.find, ET.findall.
  induction (ET.children e) as [|c cs IH]; [done|].
  rewrite filter_tag_cons. cbn [first_with_tag].
  by destruct (has_tag name c).
Qed.

Lemma testcase_issues_failed suite_name cs :
  omap (testcase_issue suite_name)
       (filter (fun child => ET.tag child = lit "testcase") cs)
  = map (fun found =>
           failure_issue suite_name (attribute (lit "name") found.1)
             (attribute (lit "time") found.1) found.2)
        (failed_testcases cs).
Proof.
  induction cs as [|c cs IH]; [done|].
  rewrite filter_tag_cons. cbn [failed_testcases].
  destruct (has_tag (lit "testcase") c); [|done].
  cbn [omap list_omap]. unfold testcase_issue at 1.
  rewrite find_first_with_tag, !get_attribute, IH.
  by destruct (first_with_tag _ _).
Qed.

Lemma document_order_issues_failures root :
  document_order_issues root
  = map expected_issue (document_order_failures (ET.children root)).
Proof.
  unfold document_order_issues, ET.findall.
  induction (ET.children root) as [|c cs IH]; [done|].
  rewrite filter_tag_cons. cbn [document_order_failures].
  destruct (has_tag (lit "testsuite") c); [|done].
  cbn [flat_map]. rewrite IH, map_app, map_map. f_equal.
  unfold ET.findall. rewrite testcase_issues_failed, get_attribute.
  apply map_ext. by intros [tc failure].
Qed.

Lemma first_with_tag_none name cs :
  Forall (fun c => ET.tag c <> name) cs -> first_with_tag name cs = None.
Proof.
  induction 1 as [|c cs Hc _ IH]; [done|]. cbn.
  unfold has_tag, str_eqb. by case_bool_decide.
Qed.

Lemma first_with_tag_some name cs failure :
  first_with_tag name cs = Some failure ->
  exists before after,
    cs = before ++ failure :: after /\ ET.tag failure = name
    /\ Forall (fun c => ET.tag c <> name) before.
Proof.
  induction cs as [|c cs IH]; [done|]. cbn. unfold has_tag, str_eqb.
  case_bool_decide as Hc.
  - intros [= ->]. by exists [], cs.
  - intros (before & after & -> & Ht & Hb)%IH.
    exists (c :: before), after. split; [done|]. split; [done|].
    by constructor.
Qed.

Lemma has_tag_true name e : has_tag name e = true <-> ET.tag e = name.
Proof. unfold has_tag, str_eqb. by rewrite bool_decide_eq_true. Qed.

Lemma has_tag_false name e : has_tag name e = false <-> ET.tag e <> name.
Proof. unfold has_tag, str_eqb. by rewrite bool_decide_eq_false. Qed.

Lemma first_with_tag_none_iff name cs :
  first_with_tag name cs = None
  <-> ~ exists failure, failure ∈ cs /\ ET.tag failure = name.
Proof.
  split.
  - intros Hnone (f & Hf & Ht).
    induction cs as [|c cs IH]; [by apply elem_of_nil in Hf|].
    cbn in Hnone. destruct (has_tag name c) eqn:E; [done|].
    apply has_tag_false in E. apply elem_of_cons in Hf as [->|Hf]; auto.
  - intros Hno. apply first_with_tag_none, Forall_forall.
    intros c Hc Ht. apply Hno. by exists c.
Qed.

Lemma failed_testcases_positions pre cs :
  exists js,
    StronglySorted Nat.lt js
    /\ (forall j, j ∈ js <->
          (length pre <= j)%nat /\ failed_testcase_at (pre ++ cs) j)
    /\ Forall2 (fun j (found : ET.Element * ET.Element) =>
                  (pre ++ cs) !! j = Some found.1
                  /\ first_with_tag (lit "failure") (ET.children found.1)
                     = Some found.2)
               js (failed_testcases cs).
Proof.
  revert pre. induction cs as [|c cs IH]; intros pre.
  - exists []. split; [constructor|]. split; [|constructor].
    intros j. split; [by intros ?%elem_of_nil|].
    intros [Hj (tc & Hl & _)]. rewrite app_nil_r in Hl.
    apply lookup_lt_Some in Hl. lia.
  - destruct (IH (pre ++ [c])) as (js & Hsorted & Hin & Hall).
    rewrite <- app_assoc in Hin, Hall. cbn [app] in Hin, Hall.
    rewrite length_app in Hin. cbn [length] in Hin.
    assert (Hhere : (pre ++ c :: cs) !! length pre = Some c)
      by (by rewrite list_lookup_middle).
    assert (Hskip : forall j,
              j ∈ js <-> (length pre <= j)%nat /\ j <> length pre
                         /\ failed_testcase_at (pre ++ c :: cs) j).
    { intros j. rewrite Hin. split; [intros [? ?]|intros (? & ? & ?)];
        (split; [lia|try split; try done; lia]). }
    cbn [failed_testcases].
    destruct (has_tag (lit "testcase") c) eqn:Etag.
    + destruct (first_with_tag (lit "failure") (ET.children c)) as [f|] eqn:Ef.
      * exists (length pre :: js). split; [|split].
        -- constructor; [done|]. apply Forall_forall. intros j Hj%Hin. lia.
        -- intros j. rewrite elem_of_cons, Hskip. split.
           ++ intros [->|H]; [|tauto]. split; [done|].
              exists c. split; [done|]. split; [by apply has_tag_true|].
              apply first_with_tag_some in Ef as (b & a & Hc & Ht & _).
              exists f. split; [|done]. rewrite Hc, elem_of_app, elem_of_cons. auto.
           ++ intros [Hj H]. destruct (decide (j = length pre)); [by left|].
              right. tauto.
        -- constructor; [|done]. done.
      * exists js. split; [done|]. split; [|done].
        intros j. rewrite Hskip. split; [tauto|]. intros [Hj H].
        split; [done|]. split; [|done]. intros ->.
        destruct H as (tc & Hl & _ & Hf). rewrite Hhere in Hl.
        injection Hl as <-. by apply first_with_tag_none_iff in Ef.
    + exists js. split; [done|]. split; [|done].
      intros j. rewrite Hskip. split; [tauto|]. intros [Hj H].
      split; [done|]. split; [|done]. intros ->.
      destruct H as (tc & Hl & Ht & _). rewrite Hhere in Hl.
      injection Hl as <-. apply has_tag_false in Etag. done.
Qed.

Lemma document_order_positions pre cs :
  exists ps,
    StronglySorted before_in_document ps
    /\ (forall p, p ∈ ps <->
          (length pre <= p.1)%nat
          /\ exists testsuite,
               (pre ++ cs) !! p.1 = Some testsuite
               /\ ET.tag testsuite = lit "testsuite"
               /\ failed_testcase_at (ET.children testsuite) p.2)
    /\ Forall2 (fun (p : nat * nat)
                    (found : ET.Element * ET.Element * ET.Element) =>
                  (pre ++ cs) !! p.1 = Some found.1.1
                  /\ ET.children found.1.1 !! p.2 = Some found.1.2
                  /\ first_with_tag (lit "failure") (ET.children found.1.2)
                     = Some found.2)
               ps (document_order_failures cs).
Proof.
  revert pre. induction cs as [|c cs IH]; intros pre.
  - exists []. split; [constructor|]. split; [|constructor].
    intros p. split; [by intros ?%elem_of_nil|].
    intros [Hp (s & Hl & _)]. rewrite app_nil_r in Hl.
    apply lookup_lt_Some in Hl. lia.
  - destruct (IH (pre ++ [c])) as (ps & Hsorted & Hin & Hall).
    rewrite <- app_assoc in Hin, Hall. cbn [app] in Hin, Hall.
    rewrite length_app in Hin. cbn [length] in Hin.
    assert (Hhere : (pre ++ c :: cs) !! length pre = Some c)
      by (by rewrite list_lookup_middle).
    cbn [document_order_failures].
    destruct (has_tag (lit "testsuite") c) eqn:Etag.
    + destruct (failed_testcases_positions [] (ET.children c))
        as (js & Hjs & Hjin & Hjall).
      cbn [app length] in Hjin, Hjall.
      exists (map (pair (length pre)) js ++ ps). split; [|split].
      * apply StronglySorted_app_2; [|
          |done].
        -- intros p q (j & -> & _)%list_elem_of_fmap Hq%Hin.
           left. cbn. lia.
        -- apply (StronglySorted_fmap _ Nat.lt); [|done].
           intros x y Hxy. right. cbn. done.
      * intros [i j]. rewrite elem_of_app, Hin. cbn [fst snd]. split.
        -- intros [(j' & [= -> ->] & Hj)%list_elem_of_fmap|[Hi H]].
           ++ split; [done|]. exists c. split; [done|].
              split; [by apply has_tag_true|]. by apply Hjin.
           ++ split; [lia|done].
        -- intros [Hi (s & Hl & Ht & Hf)].
           destruct (decide (i = length pre)) as [->|Hne].
           ++ left. rewrite Hhere in Hl. injection Hl as <-.
              apply list_elem_of_fmap. exists j. split; [done|].
              apply Hjin. split; [lia|done].
           ++ right. split; [lia|]. by exists s.
      * apply Forall2_app; [|done].
        apply Forall2_fmap. eapply Forall2_impl; [exact Hjall|].
        intros j found [H1 H2]. cbn [fst snd]. done.
    + exists ps. split; [done|]. split; [|done].
      intros p. rewrite Hin. split.
      * intros [Hp H]. split; [lia|done].
      * intros [Hp (s & Hl & Ht & Hf)]. split; [|by exists s].
        destruct (decide (p.1 = length pre)) as [E|]; [|lia].
        rewrite E, Hhere in Hl. injection Hl as <-.
        apply has_tag_false in Etag. done.
Qed.

(** C8: the extractor returns the issues in document order, suite by suite
    and test case by test case, one for each test case that has a [failure]
    child and none for the others.  Over the children of the elements and
    their tags: the issues are those of the failed test cases of the
    children of the root, child by child; there is a list of positions,
    strictly increasing in document order, that holds exactly the
    positions of the test cases with a [failure] child, and the issues are,
    one for one and in that order, the issues of these positions; a document
    without such a position gives no issue. *)
Theorem issues_in_document_order (root : ET.Element) :
  issues_of_root root
  = map expected_issue (document_order_failures (ET.children root))
  /\ (exists positions,
        StronglySorted before_in_document positions
        /\ (forall position, position ∈ positions <-> failed_at root position)
        /\ Forall2 (issue_at root) positions (issues_of_root root))
  /\ ((forall position, ~ failed_at root position) -> issues_of_root root = []).
Proof.
  assert (Heq : issues_of_root root
                = map expected_issue (document_order_failures (ET.children root)))
    by (rewrite issues_of_root_eq; apply document_order_issues_failures).
  destruct (document_order_positions [] (ET.children root))
    as (ps & Hsorted & Hin & Hall).
  cbn [app length] in Hin, Hall.
  assert (Hat : Forall2 (issue_at root) ps (issues_of_root root)).
  { rewrite Heq. apply Forall2_fmap_r. eapply Forall2_impl; [exact Hall|].
    intros p [[s tc] f] (Hs & Htc & Hf). cbn [fst snd] in *.
    apply first_with_tag_some in Hf as (b & a & Hc & Ht & Hb).
    exists s, tc, f, b, a. done. }
  assert (Hiff : forall p, p ∈ ps <-> failed_at root p).
  { intros p. rewrite Hin. unfold failed_at. split; [tauto|].
    intros H. split; [lia|done]. }
  split; [done|]. split; [by exists ps|].
  intros Hnone. destruct ps as [|p ps].
  - by inversion Hat.
  - exfalso. apply (Hnone p), Hiff. by left.
Qed.

(** ** The loop over the lines of a message *)

Lemma is_curl_head s : is_curl s = true -> exists t, s = 99 :: t.
Proof.
  destruct s as [|c t]; [done|]. unfold is_curl.
  change (lit "curl ") with ([99; 117; 114; 108; 32] : str). cbn [startswith].
  intros [H _]%andb_true_iff. apply N.eqb_eq in H. subst. eauto.
Qed.

Lemma is_curl_nonempty s : is_curl s = true -> s <> [].
Proof. by intros [t ->]%is_curl_head. Qed.

Lemma is_curl_not_marker s : is_curl s = true -> is_marker s = false.
Proof. by intros [t ->]%is_curl_head. Qed.

Lemma is_marker_not_curl s : is_marker s = true -> is_curl s = false.
Proof.
  intros H. destruct (is_curl s) eqn:E; [|done].
  apply is_curl_not_marker in E. congruence.
Qed.

Lemma strip_line_curl st line :
  curl_cmd (strip_line st line)
  = match curl_cmd st with
    | [] => if is_curl (strip line) then strip line else []
    | cmd => cmd
    end.
Proof.
  unfold strip_line.
  destruct (is_marker (strip line)) eqn:Hm.
  - rewrite (is_marker_not_curl _ Hm). simpl. by destruct (curl_cmd st).
  - destruct (is_curl (strip line)) eqn:Hc; simpl.
    + done.
    + destruct (seen_reproduce st && _); simpl; by destruct (curl_cmd st).
Qed.

Lemma fold_strip_line_curl lines st :
  curl_cmd (fold_left strip_line lines st)
  = match curl_cmd st with [] => first_curl_line lines | cmd => cmd end.
Proof.
  revert st. induction lines as [|line lines IH]; intros st; simpl.
  - unfold first_curl_line. simpl. by destruct (curl_cmd st).
  - rewrite IH, strip_line_curl. unfold first_curl_line. simpl.
    destruct (curl_cmd st) as [|c cmd]; [|done].
    destruct (is_curl (strip line)) eqn:Hc; [|done].
    destruct (strip line) eqn:E; [|done].
    by apply is_curl_nonempty in Hc.
Qed.

Lemma strip_lines_curl lines :
  curl_cmd (strip_lines lines) = first_curl_line lines.
Proof. unfold strip_lines. by rewrite fold_strip_line_curl. Qed.

Lemma strip_line_clean st line l :
  l ∈ clean_lines (strip_line st line) ->
  l ∈ clean_lines st \/ (l = line /\ kept_line l).
Proof.
  unfold strip_line, kept_line.
  destruct (is_marker (strip line)) eqn:Hm; [by left|].
  destruct (is_curl (strip line)) eqn:Hc; [by left|].
  destruct (seen_reproduce st && _); [by left|]. simpl.
  intros [H|H]%elem_of_app; [by left|].
  apply list_elem_of_singleton in H. subst. by right.
Qed.

Lemma fold_strip_line_clean lines st l :
  l ∈ clean_lines (fold_left strip_line lines st) ->
  l ∈ clean_lines st \/ (l ∈ lines /\ kept_line l).
Proof.
  revert st. induction lines as [|line lines IH]; intros st; simpl; [by left|].
  intros [H|[H K]]%IH.
  - apply strip_line_clean in H as [H|[-> K]]; [by left|].
    right. split; [by left | done].
  - right. split; [by right | done].
Qed.

Lemma strip_lines_clean lines l :
  l ∈ clean_lines (strip_lines lines) -> l ∈ lines /\ kept_line l.
Proof.
  intros [H|H]%fold_strip_line_clean; [|done]. by apply elem_of_nil in H.
Qed.

(** The lines of the kept text are kept lines of the raw message, trimmed. *)
Lemma kept_text_lines raw_msg m :
  m ∈ splitlines (kept_text raw_msg) ->
  exists l, l ∈ splitlines raw_msg /\ kept_line l /\ trim_of m l.
Proof.
  unfold kept_text. intros Hm.
  apply strip_join_lines in Hm as (l & Hl & T).
  - apply strip_lines_clean in Hl as [Hl K]. eauto.
  - rewrite Forall_forall. intros l [Hl _]%strip_lines_clean.
    pose proof (splitlines_no_linebreak raw_msg) as H.
    rewrite Forall_forall in H. auto.
Qed.

Lemma kept_text_line_kept raw_msg m :
  m ∈ splitlines (kept_text raw_msg) -> kept_line m.
Proof.
  intros (l & _ & [K1 K2] & [T _])%kept_text_lines.
  unfold kept_line. by rewrite T.
Qed.

Lemma clean_message_kept raw_msg :
  kept_text raw_msg <> [] ->
  clean_message raw_msg (strip_lines (splitlines raw_msg)) = kept_text raw_msg.
Proof.
  unfold clean_message, kept_text.
  by destruct (strip (join [10] _)).
Qed.

Lemma clean_message_fallback raw_msg :
  kept_text raw_msg = [] ->
  clean_message raw_msg (strip_lines (splitlines raw_msg)) = raw_msg.
Proof. unfold clean_message, kept_text. by intros ->. Qed.

(** The reproduction command, when there is one, is a trimmed curl line of
    the raw message. *)
Lemma first_curl_line_spec lines :
  first_curl_line lines <> [] ->
  exists l, l ∈ lines /\ first_curl_line lines = strip l
            /\ is_curl (strip l) = true.
Proof.
  unfold first_curl_line.
  destruct (List.find _ lines) as [l|] eqn:E; [|done].
  intros _. apply find_some in E as [Hin Hc].
  exists l. by rewrite list_elem_of_In.
Qed.

(** Every issue of a document is built by [failure_issue]. *)
Lemma issue_of_root root i :
  i ∈ issues_of_root root ->
  exists suite_name tc_name time failure,
    i = failure_issue suite_name tc_name time failure.
Proof.
  rewrite issues_of_root_eq. unfold document_order_issues.
  rewrite list_elem_of_In, in_flat_map.
  intros (testsuite & _ & Hi). rewrite <- list_elem_of_In in Hi.
  apply list_elem_of_omap in Hi as (tc & _ & Hi).
  unfold testcase_issue in Hi.
  destruct (ET.find _ tc) as [failure|]; [|done].
  injection Hi as <-. eauto.
Qed.

Lemma sample_issue_of_root : sample_issue ∈ issues_of_root sample_root.
Proof. apply list_elem_of_In. vm_compute. by left. Qed.

(** ** The reproduction command (C10) *)

(** C10: a reproduction command that is not empty starts with [curl ], holds
    neither a line feed nor a carriage return, and is its own trimmed
    form: its first and its last character are no whitespace. *)
Theorem reproduction_command_shape (root : ET.Element) (i : Issue) :
  i ∈ issues_of_root root ->
  curl i <> [] ->
  startswith (lit "curl ") (curl i) = true
  /\ (10 ∉ curl i) /\ (13 ∉ curl i)
  /\ strip (curl i) = curl i
  /\ (exists c, head (curl i) = Some c /\ isspace c = false)
  /\ (exists d, last (curl i) = Some d /\ isspace d = false).
Proof.
  intros (s & n & t & f & ->)%issue_of_root. cbn [curl failure_issue].
  rewrite strip_lines_curl.
  intros (l & Hl & -> & Hc)%first_curl_line_spec.
  pose proof (splitlines_no_linebreak (strip (ET.get (lit "message") [] f))) as Hnb.
  rewrite Forall_forall in Hnb. specialize (Hnb _ Hl).
  unfold no_linebreak in Hnb. rewrite Forall_forall in Hnb.
  assert (Hne : strip l <> []) by (intros E; by rewrite E in Hc).
  destruct (strip_ends l Hne) as [Hhead Hlast].
  split; [exact Hc|].
  split; [intros H%elem_of_strip%Hnb; done|].
  split; [intros H%elem_of_strip%Hnb; done|].
  split; [apply strip_idem|].
  split; [exact Hhead | exact Hlast].
Qed.

Lemma reproduction_command_shape_witness :
  startswith (lit "curl ") (curl sample_issue) = true
  /\ (10 ∉ curl sample_issue) /\ (13 ∉ curl sample_issue)
  /\ strip (curl sample_issue) = curl sample_issue
  /\ (exists c, head (curl sample_issue) = Some c /\ isspace c = false)
  /\ (exists d, last (curl sample_issue) = Some d /\ isspace d = false).
Proof.
  apply (reproduction_command_shape sample_root sample_issue).
  - apply list_elem_of_In. vm_compute. left. reflexivity.
  - vm_compute. discriminate.
Defined.

(** ** The message without its reproduction block (C1, C5) *)

(** C1, as stated, fails: a message made of the marker and the curl line
    only is kept whole, marker line and command included. *)
Lemma marker_only_message_kept_whole :
  let i := failure_issue [] [] [] (failure_with marker_only_message) in
  curl i <> []
  /\ ~ no_marker_line (msg i)
  /\ ~ lacks_line (curl i) (msg i).
Proof.
  cbv zeta. split; [vm_compute; discriminate|]. split.
  - intros H. specialize (H (lit "Reproduce with:")).
    assert (Hin : lit "Reproduce with:"
                  ∈ splitlines (msg (failure_issue [] [] []
                                       (failure_with marker_only_message)))).
    { apply list_elem_of_In. vm_compute. left. reflexivity. }
    specialize (H Hin). vm_compute in H. discriminate.
  - intros H. specialize (H curl_only_message).
    assert (Hin : curl_only_message
                  ∈ splitlines (msg (failure_issue [] [] []
                                       (failure_with marker_only_message)))).
    { apply list_elem_of_In. vm_compute. right. left. reflexivity. }
    specialize (H Hin). apply H. vm_compute. reflexivity.
Qed.

(** C1, amended: when the loop over the lines leaves some text, no line of
    the message is a marker line or a curl line, and none is the
    reproduction command. *)
Theorem message_without_reproduction_block
    (suite_name tc_name time : str) (failure : ET.Element) :
  let raw_msg := strip (ET.get (lit "message") [] failure) in
  let i := failure_issue suite_name tc_name time failure in
  kept_text raw_msg <> [] ->
  no_marker_line (msg i)
  /\ no_curl_line (msg i)
  /\ (curl i <> [] -> lacks_line (curl i) (msg i)).
Proof.
  cbv zeta. intros Hkept. cbn [msg curl failure_issue].
  rewrite clean_message_kept by done.
  split; [|split].
  - intros m Hm. by apply kept_text_line_kept in Hm as [? ?].
  - intros m Hm. by apply kept_text_line_kept in Hm as [? ?].
  - rewrite strip_lines_curl.
    intros (l & _ & -> & Hc)%first_curl_line_spec m Hm Heq.
    apply kept_text_line_kept in Hm as [_ Hm]. congruence.
Qed.

Lemma message_without_reproduction_block_witness :
  no_marker_line (msg sample_issue)
  /\ no_curl_line (msg sample_issue)
  /\ (curl sample_issue <> [] -> lacks_line (curl sample_issue) (msg sample_issue)).
Proof.
  apply (message_without_reproduction_block
           (lit "API Tests") (lit "GET /users [500] - Server error")
           (lit "0.12") (failure_with sample_message)).
  vm_compute. discriminate.
Defined.

(** C5, as stated, fails: a message that is one curl line keeps it. *)
Lemma curl_only_message_kept :
  let i := failure_issue [] [] [] (failure_with curl_only_message) in
  curl i = curl_only_message /\ ~ no_curl_line (msg i).
Proof.
  cbv zeta. split; [vm_compute; reflexivity|].
  intros H. specialize (H curl_only_message).
  assert (Hin : curl_only_message
                ∈ splitlines (msg (failure_issue [] [] []
                                     (failure_with curl_only_message)))).
  { apply list_elem_of_In. vm_compute. left. reflexivity. }
  specialize (H Hin). vm_compute in H. discriminate.
Qed.

(** C5, amended: the reproduction command is the first line whose trimmed
    form starts with [curl ], trimmed, whether or not the message has a
    marker line; and when the loop over the lines leaves some text, no line
    of the message is a curl line. *)
Theorem curl_line_captured
    (suite_name tc_name time : str) (failure : ET.Element) :
  let raw_msg := strip (ET.get (lit "message") [] failure) in
  let i := failure_issue suite_name tc_name time failure in
  curl i = first_curl_line (splitlines raw_msg)
  /\ (kept_text raw_msg <> [] -> no_curl_line (msg i)).
Proof.
  cbv zeta. cbn [msg curl failure_issue]. split.
  - apply strip_lines_curl.
  - intros Hkept. rewrite clean_message_kept by done.
    intros m Hm. by apply kept_text_line_kept in Hm as [? ?].
Qed.

(** ** Status and kind (C3, C4) *)

Lemma re_search_found {A} (match_at : str -> option A) s m :
  re_search match_at s = Some m ->
  exists before rest, s = before ++ rest /\ match_at rest = Some m.
Proof.
  induction s as [|c s IH]; simpl.
  - destruct (match_at []) eqn:E; [|done]. intros [= ->]. by exists [], [].
  - destruct (match_at (c :: s)) eqn:E.
    + intros [= ->]. by exists [], (c :: s).
    + intros (before & rest & -> & H)%IH. by exists (c :: before), rest.
Qed.

Lemma re_search_none_head {A} (match_at : str -> option A) s :
  re_search match_at s = None -> match_at s = None.
Proof. destruct s; simpl; by destruct (match_at _). Qed.

Lemma re_search_none_tail {A} (match_at : str -> option A) c s :
  re_search match_at (c :: s) = None -> re_search match_at s = None.
Proof. simpl. by destruct (match_at (c :: s)). Qed.

Lemma STATUS_RE_match_Some s g :
  STATUS_RE_match s = Some g ->
  exists d1 d2 d3 rest,
    s = 91 :: d1 :: d2 :: d3 :: 93 :: rest /\ g = [d1; d2; d3]
    /\ isdecimal d1 = true /\ isdecimal d2 = true /\ isdecimal d3 = true.
Proof.
  unfold STATUS_RE_match.
  destruct s as [|o [|d1 [|d2 [|d3 [|c rest]]]]]; try done.
  destruct (_ && _) eqn:E; [|done]. intros [= <-].
  repeat (apply andb_true_iff in E as [E ?]).
  apply N.eqb_eq in E. subst o.
  match goal with H : (c =? 93) = true |- _ => apply N.eqb_eq in H; subst c end.
  by exists d1, d2, d3, rest.
Qed.

Lemma STATUS_RE_match_here d1 d2 d3 rest :
  isdecimal d1 = true -> isdecimal d2 = true -> isdecimal d3 = true ->
  STATUS_RE_match (91 :: d1 :: d2 :: d3 :: 93 :: rest) = Some [d1; d2; d3].
Proof. intros H1 H2 H3. unfold STATUS_RE_match. by rewrite H1, H2, H3. Qed.

Lemma isdecimal_not_bracket d : isdecimal d = true -> d <> 91 /\ d <> 93.
Proof. split; intros ->; by vm_compute in H. Qed.

(** A match that starts before a bracketed status lies before it. *)
Lemma STATUS_RE_match_before c before d1 d2 d3 rest :
  isdecimal d1 = true -> isdecimal d2 = true -> isdecimal d3 = true ->
  STATUS_RE_match (c :: before) = None ->
  STATUS_RE_match ((c :: before) ++ 91 :: d1 :: d2 :: d3 :: 93 :: rest) = None.
Proof.
  intros H1 H2 H3 Hnone.
  destruct (STATUS_RE_match (_ ++ _)) as [g|] eqn:E; [|done]. exfalso.
  apply STATUS_RE_match_Some in E as (e1 & e2 & e3 & r & Heq & _ & E1 & E2 & E3).
  pose proof (isdecimal_not_bracket _ E1) as [? ?].
  pose proof (isdecimal_not_bracket _ E2) as [? ?].
  pose proof (isdecimal_not_bracket _ E3) as [? ?].
  destruct before as [|b1 [|b2 [|b3 [|b4 b]]]];
    cbn [app] in Heq; injection Heq as -> ? ? ? ?; subst; try congruence.
  by rewrite STATUS_RE_match_here in Hnone.
Qed.

Lemma STATUS_RE_search_first before d1 d2 d3 rest :
  isdecimal d1 = true -> isdecimal d2 = true -> isdecimal d3 = true ->
  STATUS_RE_search before = None ->
  STATUS_RE_search (before ++ 91 :: d1 :: d2 :: d3 :: 93 :: rest)
  = Some [d1; d2; d3].
Proof.
  intros H1 H2 H3. unfold STATUS_RE_search.
  induction before as [|c before IH]; intros Hnone.
  - cbn [app re_search]. by rewrite STATUS_RE_match_here.
  - pose proof (re_search_none_head _ _ Hnone) as Hh.
    apply re_search_none_tail in Hnone.
    pose proof (STATUS_RE_match_before c before d1 d2 d3 rest H1 H2 H3 Hh) as Hb.
    cbn [app] in Hb. cbn [app re_search]. rewrite Hb. auto.
Qed.

Lemma STATUS_RE_search_Some s g :
  STATUS_RE_search s = Some g ->
  length g = 3%nat /\ Forall (fun d => isdecimal d = true) g
  /\ forall d, d ∈ g -> d ∈ s.
Proof.
  intros (before & rest & -> & H)%re_search_found.
  apply STATUS_RE_match_Some in H as (d1 & d2 & d3 & r & -> & -> & ? & ? & ?).
  split; [done|]. split; [by repeat constructor|].
  intros d Hd. rewrite elem_of_app. right.
  apply elem_of_cons. right.
  rewrite !elem_of_cons in Hd. rewrite !elem_of_cons.
  destruct Hd as [->|[->|[->|Hd]]]; auto. by apply not_elem_of_nil in Hd.
Qed.

Lemma decimal_zeros_ascii :
  Forall (fun z => z = 48 \/ 128 <= z) decimal_zeros.
Proof.
  apply Forall_forall. intros z Hz.
  assert (H : forallb (fun z => (z =? 48) || (128 <=? z)) decimal_zeros = true)
    by (vm_compute; reflexivity).
  rewrite forallb_forall in H. apply list_elem_of_In in Hz.
  apply H in Hz. apply orb_true_iff in Hz as [Hz|Hz]; [left|right].
  - by apply N.eqb_eq.
  - by apply N.leb_le.
Qed.

Lemma isdecimal_ascii c :
  isdecimal c = true -> c < 128 -> is_ascii_digit c = true.
Proof.
  unfold isdecimal, decimal_value.
  destruct (List.find _ decimal_zeros) as [z|] eqn:E; [|done].
  intros _ Hc. apply find_some in E as [Hin Hz].
  pose proof decimal_zeros_ascii as H. rewrite Forall_forall in H.
  apply list_elem_of_In, H in Hin.
  apply andb_true_iff in Hz as [Hlo Hhi].
  apply N.leb_le in Hlo. apply N.ltb_lt in Hhi.
  unfold is_ascii_digit. apply andb_true_iff.
  split; [apply N.leb_le | apply N.leb_le]; lia.
Qed.

(** C3: the status code and the kind are read from the raw message, whatever
    the loop over its lines keeps: the first bracketed group of three digits
    of the raw message is the status code, wherever it stands; and a status
    and a kind that stand in the curl line only are extracted although the
    message no longer holds them. *)
Theorem status_and_kind_from_raw_message
    (suite_name tc_name time : str) (failure : ET.Element) :
  let raw_msg := strip (ET.get (lit "message") [] failure) in
  let i := failure_issue suite_name tc_name time failure in
  status i = default [] (STATUS_RE_search raw_msg)
  /\ kind i = default [] (strip <$> KIND_RE_search raw_msg)
  /\ (forall before d1 d2 d3 rest,
        raw_msg = before ++ 91 :: d1 :: d2 :: d3 :: 93 :: rest ->
        isdecimal d1 = true -> isdecimal d2 = true -> isdecimal d3 = true ->
        STATUS_RE_search before = None ->
        status i = [d1; d2; d3])
  /\ (let j := failure_issue suite_name tc_name time
                 (failure_with curl_status_message) in
      status j = lit "404" /\ kind j = lit "verbose"
      /\ msg j = lit "Server error"
      /\ STATUS_RE_search (msg j) = None /\ KIND_RE_search (msg j) = None).
Proof.
  cbv zeta. cbn [status kind failure_issue].
  split; [done|]. split; [done|]. split.
  - intros before d1 d2 d3 rest -> H1 H2 H3 Hnone.
    by rewrite STATUS_RE_search_first.
  - cbn [msg]. vm_compute. done.
Qed.

(** C4, as stated, fails: the digits of a status code need not be ASCII. *)
Lemma arabic_status_extracted :
  let i := failure_issue [] [] [] (failure_with arabic_status_message) in
  status i = [1637; 1632; 1632]
  /\ ~ Forall (fun c => is_ascii_digit c = true) (status i).
Proof.
  cbv zeta. split; [vm_compute; reflexivity|].
  intros H. apply Forall_inv in H. vm_compute in H. discriminate.
Qed.

(** C4, amended: a status code that is not empty is three decimal digits of
    the raw message, in the sense of [str.isdecimal]; they are ASCII digits
    when the raw message is ASCII. *)
Theorem status_code_shape
    (suite_name tc_name time : str) (failure : ET.Element) :
  let raw_msg := strip (ET.get (lit "message") [] failure) in
  let i := failure_issue suite_name tc_name time failure in
  status i <> [] ->
  length (status i) = 3%nat
  /\ Forall (fun c => isdecimal c = true) (status i)
  /\ (Forall (fun c => c < 128) raw_msg ->
      Forall (fun c => is_ascii_digit c = true) (status i)).
Proof.
  cbv zeta. cbn [status failure_issue].
  destruct (STATUS_RE_search _) as [g|] eqn:E; [|done]. intros _. cbn.
  apply STATUS_RE_search_Some in E as (Hlen & Hdec & Hsub).
  split; [done|]. split; [done|].
  rewrite !Forall_forall in *. intros Hascii c Hc.
  apply isdecimal_ascii; auto.
Qed.

Lemma status_code_shape_witness :
  length (status sample_issue) = 3%nat
  /\ Forall (fun c => isdecimal c = true) (status sample_issue)
  /\ (Forall (fun c => c < 128)
             (strip (ET.get (lit "message") [] (failure_with sample_message))) ->
      Forall (fun c => is_ascii_digit c = true) (status sample_issue)).
Proof.
  apply (status_code_shape (lit "API Tests")
           (lit "GET /users [500] - Server error") (lit "0.12")
           (failure_with sample_message)).
  vm_compute. discriminate.
Defined.

(** ** Errors of the run (C9) *)

(** [parse_junit] changes nothing in the outside world. *)
Lemma parse_junit_world {world : Type}
    (ET_parse : str -> world -> exn + ET.Element) xml_path w :
  parse_junit ET_parse xml_path w
  = (match ET_parse xml_path w with
     | inl e => inl e
     | inr root => inr (issues_of_root root)
     end, w).
Proof.
  unfold parse_junit, bind, reading, ret. by destruct (ET_parse xml_path w).
Qed.

(** A run whose input cannot be read and parsed ends there. *)
Lemma main_parse_error
    (check_bracketed_netloc : str -> bool)
    (render : Summary -> list Issue -> str) {world : Type}
    (ET_parse : str -> world -> exn + ET.Element)
    (write_text : str -> str -> world -> (exn + unit) * world)
    (resolve : str -> world -> exn + str)
    (print : str -> world -> (exn + unit) * world)
    (junit_xml output : str) (w : world) (e : exn) :
  ET_parse junit_xml w = inl e ->
  main check_bracketed_netloc render ET_parse write_text resolve print
       junit_xml output w
  = (inl e, w).
Proof.
  intros He. unfold main. unfold bind at 1.
  by rewrite parse_junit_world, He.
Qed.

(** C9: when [ET.parse] raises [ParseError] on the input file, as it does
    for a content that is not well-formed, [parse_junit] raises it before
    any issue exists, and the run ends with that error and the outside
    world as it was, whatever [write_text] and [print] would do: they are
    not reached.  A run that changes the outside world at all has parsed
    its input. *)
Theorem malformed_xml_aborts_run
    (check_bracketed_netloc : str -> bool)
    (render : Summary -> list Issue -> str) (world : Type)
    (ET_parse : str -> world -> exn + ET.Element)
    (write_text : str -> str -> world -> (exn + unit) * world)
    (resolve : str -> world -> exn + str)
    (print : str -> world -> (exn + unit) * world)
    (junit_xml output : str) (w : world) :
  ET_parse junit_xml w = inl ParseError ->
  parse_junit ET_parse junit_xml w = (inl ParseError, w)
  /\ main check_bracketed_netloc render ET_parse write_text resolve print
          junit_xml output w
     = (inl ParseError, w)
  /\ (forall w0 r w',
        main check_bracketed_netloc render ET_parse write_text resolve print
             junit_xml output w0 = (r, w') ->
        w' <> w0 -> exists root, ET_parse junit_xml w0 = inr root).
Proof.
  intros Hbad. split; [|split].
  - by rewrite parse_junit_world, Hbad.
  - by apply main_parse_error.
  - intros w0 r w' Hrun Hchanged.
    destruct (ET_parse junit_xml w0) as [e|root] eqn:E; [|by exists root].
    rewrite (main_parse_error _ _ _ _ _ _ _ _ _ e E) in Hrun.
    injection Hrun as _ <-. done.
Qed.

Lemma malformed_xml_aborts_run_witness :
  parse_junit sample_ET_parse (lit "junit.xml") sample_world
  = (inl ParseError, sample_world)
  /\ main (fun _ => true) (fun _ _ => []) sample_ET_parse sample_write_text
          sample_resolve sample_print (lit "junit.xml") default_output
          sample_world
     = (inl ParseError, sample_world)
  /\ (forall w0 r w',
        main (fun _ => true) (fun _ _ => []) sample_ET_parse sample_write_text
             sample_resolve sample_print (lit "junit.xml") default_output w0
        = (r, w') ->
        w' <> w0 -> exists root, sample_ET_parse (lit "junit.xml") w0 = inr root).
Proof.
  apply (malformed_xml_aborts_run (fun _ => true) (fun _ _ => [])
           (gmap str str) sample_ET_parse sample_write_text sample_resolve
           sample_print (lit "junit.xml") default_output sample_world).
  vm_compute. reflexivity.
Defined.

(** ** The range of the times (C7) *)

Lemma times_from acc issues :
  fold_left
    (fun acc issue =>
       match pyfloat.of_str (time issue) with
       | Some time_val => acc ++ [time_val]
       | None => acc
       end)
    issues acc
  = acc ++ parsed_times issues.
Proof.
  revert acc. induction issues as [|i issues IH]; intros acc; simpl.
  - by rewrite app_nil_r.
  - rewrite IH. unfold parsed_times. simpl.
    destruct (pyfloat.of_str (time i)); simpl; [|done].
    by rewrite <- app_assoc.
Qed.

Lemma times_parsed issues : times issues = parsed_times issues.
Proof. unfold times. by rewrite times_from. Qed.

Ltac compare_cases :=
  repeat match goal with
  | H : context [Z.compare ?x ?y] |- _ => destruct (Z.compare_spec x y)
  | H : context [Pos.compare_cont Eq ?x ?y] |- _ =>
      change (Pos.compare_cont Eq x y) with (Pos.compare x y) in *;
      destruct (Pos.compare_spec x y)
  | |- context [Z.compare ?x ?y] => destruct (Z.compare_spec x y)
  | |- context [Pos.compare_cont Eq ?x ?y] =>
      change (Pos.compare_cont Eq x y) with (Pos.compare x y) in *;
      destruct (Pos.compare_spec x y)
  end.

Lemma lt_trans a b c :
  pyfloat.lt a b = true -> pyfloat.lt b c = true -> pyfloat.lt a c = true.
Proof.
  unfold pyfloat.lt, SFltb.
  destruct a as [sa|sa| |sa ma ea], b as [sb|sb| |sb mb eb],
           c as [sc|sc| |sc mc ec]; simpl;
    repeat match goal with s : bool |- _ => destruct s end; simpl;
    try done; intros Hab Hbc; compare_cases; simpl in *; try done; lia.
Qed.

Lemma not_lt_le a b :
  pyfloat.is_nan a = false -> pyfloat.is_nan b = false ->
  pyfloat.lt b a = false -> pyfloat.le a b = true.
Proof.
  unfold pyfloat.lt, pyfloat.le, SFltb, SFleb.
  destruct a as [sa|sa| |sa ma ea], b as [sb|sb| |sb mb eb]; simpl;
    repeat match goal with s : bool |- _ => destruct s end; simpl;
    try done; intros _ _ Hba; compare_cases; simpl in *; try done; lia.
Qed.

(** The first element is kept until a later one is strictly below it: the
    result is an element, and nothing is strictly below it. *)
Lemma min_from_elem first l : pyfloat.min_from first l ∈ first :: l.
Proof.
  unfold pyfloat.min_from. revert first.
  induction l as [|x l IH]; intros first; simpl; [by left|].
  destruct (pyfloat.lt x first).
  - right. apply IH.
  - specialize (IH first). rewrite !elem_of_cons in *. tauto.
Qed.

Lemma max_from_elem first l : pyfloat.max_from first l ∈ first :: l.
Proof.
  unfold pyfloat.max_from. revert first.
  induction l as [|x l IH]; intros first; simpl; [by left|].
  destruct (pyfloat.lt first x).
  - right. apply IH.
  - specialize (IH first). rewrite !elem_of_cons in *. tauto.
Qed.

Lemma lt_irrefl a : pyfloat.lt a a = false.
Proof.
  unfold pyfloat.lt, SFltb.
  destruct a as [sa|sa| |sa ma ea]; simpl;
    repeat match goal with s : bool |- _ => destruct s end; simpl; try done;
    compare_cases; simpl in *; try done; lia.
Qed.

Lemma min_from_seen seen best l :
  (forall t, t ∈ seen -> pyfloat.lt t best = false) ->
  forall t, t ∈ seen ++ l -> pyfloat.lt t (pyfloat.min_from best l) = false.
Proof.
  unfold pyfloat.min_from. revert seen best.
  induction l as [|x l IH]; intros seen best Hseen t; simpl.
  - rewrite app_nil_r. auto.
  - intros Ht.
    assert (Ht' : t ∈ (seen ++ [x]) ++ l) by by rewrite <- app_assoc.
    revert Ht'. apply IH. clear t Ht. intros t.
    rewrite elem_of_app, list_elem_of_singleton.
    destruct (pyfloat.lt x best) eqn:E.
    + intros [Ht| ->]; [|apply lt_irrefl].
      destruct (pyfloat.lt t x) eqn:E'; [|done].
      by rewrite <- (Hseen t Ht), (lt_trans t x best).
    + intros [Ht| ->]; auto.
Qed.

Lemma max_from_seen seen best l :
  (forall t, t ∈ seen -> pyfloat.lt best t = false) ->
  forall t, t ∈ seen ++ l -> pyfloat.lt (pyfloat.max_from best l) t = false.
Proof.
  unfold pyfloat.max_from. revert seen best.
  induction l as [|x l IH]; intros seen best Hseen t; simpl.
  - rewrite app_nil_r. auto.
  - intros Ht.
    assert (Ht' : t ∈ (seen ++ [x]) ++ l) by by rewrite <- app_assoc.
    revert Ht'. apply IH. clear t Ht. intros t.
    rewrite elem_of_app, list_elem_of_singleton.
    destruct (pyfloat.lt best x) eqn:E.
    + intros [Ht| ->]; [|apply lt_irrefl].
      destruct (pyfloat.lt x t) eqn:E'; [|done].
      by rewrite <- (Hseen t Ht), (lt_trans best x t).
    + intros [Ht| ->]; auto.
Qed.

Lemma min_from_lower first l t :
  t ∈ first :: l -> pyfloat.lt t (pyfloat.min_from first l) = false.
Proof.
  apply (min_from_seen [first]). intros t' ->%list_elem_of_singleton.
  apply lt_irrefl.
Qed.

Lemma max_from_upper first l t :
  t ∈ first :: l -> pyfloat.lt (pyfloat.max_from first l) t = false.
Proof.
  apply (max_from_seen [first]). intros t' ->%list_elem_of_singleton.
  apply lt_irrefl.
Qed.

Lemma lt_true_not_nan a b :
  pyfloat.lt a b = true -> pyfloat.is_nan a = false /\ pyfloat.is_nan b = false.
Proof.
  unfold pyfloat.lt, SFltb. destruct a, b; cbn; try done.
Qed.

Lemma min_from_nan best l :
  pyfloat.is_nan (pyfloat.min_from best l) = pyfloat.is_nan best.
Proof.
  unfold pyfloat.min_from. revert best.
  induction l as [|x l IH]; intros best; [done|]. cbn [fold_left].
  rewrite IH. destruct (pyfloat.lt x best) eqn:E; [|done].
  apply lt_true_not_nan in E as [-> ->]. done.
Qed.

Lemma max_from_nan best l :
  pyfloat.is_nan (pyfloat.max_from best l) = pyfloat.is_nan best.
Proof.
  unfold pyfloat.max_from. revert best.
  induction l as [|x l IH]; intros best; [done|]. cbn [fold_left].
  rewrite IH. destruct (pyfloat.lt best x) eqn:E; [|done].
  apply lt_true_not_nan in E as [-> ->]. done.
Qed.

Lemma is_nan_true a : pyfloat.is_nan a = true -> a = S754_nan.
Proof. by destruct a. Qed.

(** C7, as stated, fails: [float] reads the text nan as a NaN, which is a
    parsed time but no lower or upper bound of the others.  First in the
    list it is both bounds, and 0.5, a parsed time too, is neither above
    the one nor below the other; last in the list it is ignored.  The bounds
    depend on the order of the issues. *)
Lemma nan_time_is_no_bound :
  let half := S754_finite false 4503599627370496 (-53) in
  let issues := [timed_issue (lit "nan"); timed_issue (lit "0.5")] in
  pyfloat.of_str (lit "nan") = Some S754_nan
  /\ pyfloat.of_str (lit "0.5") = Some half
  /\ parsed_times issues = [S754_nan; half]
  /\ min_time issues = S754_nan /\ max_time issues = S754_nan
  /\ pyfloat.le (min_time issues) half = false
  /\ pyfloat.le half (max_time issues) = false
  /\ min_time (rev issues) = half /\ max_time (rev issues) = half.
Proof. vm_compute. repeat split; reflexivity. Qed.

(** C7, amended: the times are the parsed values of exactly the issues whose
    time parses, in order.  With none, the range is 0.0 to 1.0.  Otherwise
    the lower bound is one of them and none is strictly below it, the upper
    bound is one of them and none is strictly above it.  When the first of
    them is no NaN, neither bound is one, and the lower bound is less than
    or equal to, the upper bound greater than or equal to, each of them
    that is no NaN; when the first of them is a NaN, both bounds are that
    NaN.  Times 0.12, 3.4 and a malformed one give the range 0.12 to 3.4. *)
Theorem time_range_over_parsed_times (issues : list Issue) :
  times issues = parsed_times issues
  /\ (parsed_times issues = [] ->
      min_time issues = pyfloat.zero /\ max_time issues = pyfloat.one)
  /\ (parsed_times issues <> [] ->
      min_time issues ∈ parsed_times issues
      /\ max_time issues ∈ parsed_times issues
      /\ (forall t, t ∈ parsed_times issues ->
            pyfloat.lt t (min_time issues) = false
            /\ pyfloat.lt (max_time issues) t = false))
  /\ (forall first rest,
        parsed_times issues = first :: rest ->
        (pyfloat.is_nan first = false ->
         pyfloat.is_nan (min_time issues) = false
         /\ pyfloat.is_nan (max_time issues) = false
         /\ forall t, t ∈ parsed_times issues -> pyfloat.is_nan t = false ->
              pyfloat.le (min_time issues) t = true
              /\ pyfloat.le t (max_time issues) = true)
        /\ (pyfloat.is_nan first = true ->
            min_time issues = S754_nan /\ max_time issues = S754_nan))
  /\ (let sample := [timed_issue (lit "0.12"); timed_issue (lit "3.4");
                     timed_issue (lit "bad")] in
      pyfloat.of_str (lit "bad") = None
      /\ Some (min_time sample) = pyfloat.of_str (lit "0.12")
      /\ Some (max_time sample) = pyfloat.of_str (lit "3.4")
      /\ min_time sample = S754_finite false 8646911284551352 (-56)
      /\ max_time sample = S754_finite false 7656119366529843 (-51)).
Proof.
  split; [apply times_parsed|].
  unfold min_time, max_time. rewrite times_parsed.
  split; [by intros ->|]. split; [|split; [|vm_compute; done]].
  - destruct (parsed_times issues) as [|first l] eqn:E; [done|]. intros _.
    pose proof (min_from_elem first l) as Hmin.
    pose proof (max_from_elem first l) as Hmax.
    split; [done|]. split; [done|].
    intros t Ht. split; [by apply min_from_lower | by apply max_from_upper].
  - intros first l ->. split.
    + intros Hfirst.
      assert (Hmin : pyfloat.is_nan (pyfloat.min_from first l) = false)
        by by rewrite min_from_nan.
      assert (Hmax : pyfloat.is_nan (pyfloat.max_from first l) = false)
        by by rewrite max_from_nan.
      split; [done|]. split; [done|]. intros t Ht Hnan. split.
      * apply not_lt_le; auto. by apply min_from_lower.
      * apply not_lt_le; auto. by apply max_from_upper.
    + intros Hfirst. split; apply is_nan_true.
      * by rewrite min_from_nan.
      * by rewrite max_from_nan.
Qed.

(** ** The base URLs (C6) *)

Lemma str_ltb_nil_r a : str_ltb a [] = false.
Proof. by destruct a. Qed.

#[local] Instance str_le_total : Total str_le.
Proof.
  unfold Total, str_le. intros a.
  induction a as [|x a IH]; intros [|y b]; simpl; auto.
  destruct (N.ltb_spec x y), (N.ltb_spec y x); auto; lia.
Qed.

#[local] Instance str_le_trans : Transitive str_le.
Proof.
  unfold Transitive, str_le. intros a.
  induction a as [|x a IH]; intros [|y b] [|z c]; simpl; try done.
  destruct (N.ltb_spec y x); [done|].
  destruct (N.ltb_spec z y); [done|].
  destruct (N.ltb_spec x y), (N.ltb_spec y z); try done;
    destruct (N.ltb_spec z x), (N.ltb_spec x z); try done; try lia.
  apply IH.
Qed.

Section BaseUrls.

Variable check_bracketed_netloc : str -> bool.

Lemma base_url_set_from (acc : gset str) issues u :
  u ∈ fold_left
        (fun acc issue =>
           match extract_base_url check_bracketed_netloc (curl issue)
                   (suite issue) with
           | [] => acc
           | base_url => acc ∪ {[ base_url ]}
           end)
        issues acc
  <-> u ∈ acc
      \/ (u <> []
          /\ exists i, i ∈ issues
              /\ extract_base_url check_bracketed_netloc (curl i) (suite i) = u).
Proof.
  revert acc. induction issues as [|i issues IH]; intros acc; simpl.
  - split; [by left|]. intros [H|(_ & i & Hi & _)]; [done|].
    by apply not_elem_of_nil in Hi.
  - rewrite IH.
    set (base_of := fun i : Issue =>
           extract_base_url check_bracketed_netloc (curl i) (suite i)).
    change (extract_base_url check_bracketed_netloc (curl i) (suite i))
      with (base_of i). split.
    + intros [H|(Hu & j & Hj & <-)].
      * destruct (base_of i) as [|c b] eqn:E; [by left|].
        apply elem_of_union in H as [H|H]; [by left|].
        apply elem_of_singleton in H. subst u. right.
        split; [done|]. exists i. split; [by left|done].
      * right. split; [done|]. exists j. split; [by right|done].
    + intros [H|(Hu & j & Hj & <-)].
      * left. destruct (base_of i); [done|]. apply elem_of_union. by left.
      * apply elem_of_cons in Hj as [->|Hj].
        -- left. destruct (base_of i) as [|c b] eqn:E; [done|].
           apply elem_of_union. right. by apply elem_of_singleton.
        -- right. split; [done|]. by exists j.
Qed.

Lemma elem_of_base_urls issues u :
  u ∈ base_urls check_bracketed_netloc issues
  <-> u <> []
      /\ exists i, i ∈ issues
          /\ extract_base_url check_bracketed_netloc (curl i) (suite i) = u.
Proof.
  unfold base_urls, sorted. rewrite merge_sort_Permutation.
  rewrite elem_of_elements. unfold base_url_set.
  rewrite base_url_set_from. split; [|by right].
  intros [H|H]; [|done]. by apply not_elem_of_empty in H.
Qed.

Lemma url_base_shape text b :
  url_base check_bracketed_netloc text = Some b ->
  exists full_url parsed,
    URL_RE_search text = Some full_url
    /\ urllib.urlparse check_bracketed_netloc full_url = Some parsed
    /\ b = urllib.p_scheme parsed ++ lit "://" ++ urllib.p_netloc parsed.
Proof.
  unfold url_base. destruct (URL_RE_search text) as [full_url|]; [|done].
  destruct (urllib.urlparse _ full_url) as [parsed|] eqn:E; [|done].
  intros [= <-]. by exists full_url, parsed.
Qed.

End BaseUrls.

(** C6: the base URLs are free of duplicates and in lexicographic order;
    they are the base URLs of the issues that have one, an issue's base URL
    being the one of its reproduction command when it holds a URL that can
    be split, and the one of its suite name otherwise; and a base URL is the
    scheme and the host of the first URL of the text.  Two reproduction
    commands on https://a.test/x and https://a.test/y give https://a.test
    once. *)
Theorem base_urls_sorted_without_duplicates
    (check_bracketed_netloc : str -> bool) (issues : list Issue) :
  let base_of i :=
    extract_base_url check_bracketed_netloc (curl i) (suite i) in
  NoDup (base_urls check_bracketed_netloc issues)
  /\ StronglySorted str_le (base_urls check_bracketed_netloc issues)
  /\ (forall u, u ∈ base_urls check_bracketed_netloc issues
                <-> u <> [] /\ exists i, i ∈ issues /\ base_of i = u)
  /\ (forall i b, curl i <> [] ->
        url_base check_bracketed_netloc (curl i) = Some b -> base_of i = b)
  /\ (forall i, curl i = [] \/ url_base check_bracketed_netloc (curl i) = None ->
        base_of i = match suite i with
                    | [] => []
                    | _ => default [] (url_base check_bracketed_netloc (suite i))
                    end)
  /\ (forall text b, url_base check_bracketed_netloc text = Some b ->
        exists full_url parsed,
          URL_RE_search text = Some full_url
          /\ urllib.urlparse check_bracketed_netloc full_url = Some parsed
          /\ b = urllib.p_scheme parsed ++ lit "://" ++ urllib.p_netloc parsed)
  /\ base_urls check_bracketed_netloc
       [curl_issue (lit "curl https://a.test/x");
        curl_issue (lit "curl https://a.test/y")]
     = [lit "https://a.test"].
Proof.
  cbv zeta. repeat apply conj.
  - unfold base_urls, sorted. rewrite merge_sort_Permutation.
    apply NoDup_elements.
  - apply StronglySorted_merge_sort; apply _.
  - apply elem_of_base_urls.
  - intros i b Hc Hb. unfold extract_base_url. rewrite Hb.
    by destruct (curl i).
  - intros i H. unfold extract_base_url.
    assert (match curl i with
            | [] => None
            | _ :: _ => url_base check_bracketed_netloc (curl i)
            end = None) as ->.
    { destruct H as [-> | ->]; [done|]. by destruct (curl i). }
    destruct (suite i); [done|]. by destruct (url_base _ _).
  - apply url_base_shape.
  - vm_compute. reflexivity.
Qed.

(** ** The short message (C2) *)

(** *** Words *)

Lemma split_from_words cur s :
  Forall (fun c => isspace c = false) cur ->
  Forall word (split_from cur s).
Proof.
  revert cur. induction s as [|c s IH]; intros cur Hcur; simpl.
  - destruct cur; constructor; [by split | constructor].
  - destruct (isspace c) eqn:E.
    + destruct cur as [|x cur]; [by apply IH|].
      constructor; [by split|]. by apply IH.
    + apply IH. apply Forall_app_2; [done|]. by repeat constructor.
Qed.

Lemma split_words s : Forall word (split s).
Proof. by apply split_from_words. Qed.

Lemma is_whitespace_isspace c : textwrap.is_whitespace c = true -> isspace c = true.
Proof.
  unfold textwrap.is_whitespace. intros H.
  assert (c = 9 \/ c = 10 \/ c = 11 \/ c = 12 \/ c = 13 \/ c = 32) as Hc.
  { apply orb_true_iff in H as [H|H].
    - apply andb_true_iff in H as [H1 H2].
      apply N.leb_le in H1. apply N.leb_le in H2. lia.
    - apply N.eqb_eq in H. lia. }
  destruct Hc as [->|[->|[->|[->|[->| ->]]]]]; by vm_compute.
Qed.

Lemma join_words_spaced ws : Forall word ws -> spaced (join [32] ws).
Proof.
  unfold spaced. induction 1 as [|w ws [_ Hw] Hws IH]; [constructor|].
  assert (Hw' : Forall (fun c => isspace c = false \/ c = 32) w).
  { eapply Forall_impl; [exact Hw|]. simpl. auto. }
  destruct ws as [|w' ws]; [done|].
  change (join [32] (w :: w' :: ws)) with (w ++ [32] ++ join [32] (w' :: ws)).
  apply Forall_app_2; [done|]. apply Forall_app_2; [|by apply IH].
  constructor; [by right | constructor].
Qed.

Lemma last_join_words ws :
  Forall word ws -> ws <> [] ->
  exists c, last (join [32] ws) = Some c /\ isspace c = false.
Proof.
  induction 1 as [|w ws [Hne Hw] Hws IH]; [done|]. intros _.
  destruct ws as [|w' ws].
  - simpl. destruct (last w) as [c|] eqn:E.
    + exists c. split; [done|]. apply last_Some in E as [l ->].
      apply Forall_app in Hw as [_ Hw]. by apply Forall_inv in Hw.
    + by apply last_None in E.
  - destruct IH as (c & Hc & Hsp); [done|]. exists c. split; [|done].
    change (join [32] (w :: w' :: ws)) with (w ++ [32] ++ join [32] (w' :: ws)).
    rewrite !last_app, Hc. done.
Qed.

Lemma expandtabs_from_plain tabsize col s :
  Forall (fun c => c <> 9) s -> expandtabs_from tabsize col s = s.
Proof.
  intros H. revert col. induction H as [|c s Hc Hs IH]; intros col; [done|].
  cbn [expandtabs_from]. destruct (N.eqb_spec c 9) as [->|_]; [done|].
  destruct ((c =? 10) || (c =? 13)); by rewrite IH.
Qed.

(** The wrapper leaves a text of words and single spaces as it is. *)
Lemma munge_whitespace_spaced t : spaced t -> textwrap.munge_whitespace t = t.
Proof.
  intros H. unfold textwrap.munge_whitespace, expandtabs.
  rewrite expandtabs_from_plain.
  - induction H as [|c t Hc Ht IH]; [done|]. cbn [map]. rewrite IH. f_equal.
    destruct (textwrap.is_whitespace c) eqn:E; [|done].
    apply is_whitespace_isspace in E. destruct Hc as [Hc|Hc]; congruence.
  - eapply Forall_impl; [exact H|]. intros c [Hc|Hc] Hc'; subst c; [|done].
    by vm_compute in Hc.
Qed.

(** *** Chunks *)

(** The chunks are the text, cut in pieces none of which is empty. *)
Lemma wordsep_scan_concat before cur m rest :
  concat (textwrap.wordsep_scan before cur m rest) = cur ++ rest.
Proof.
  revert before cur m. induction rest as [|c rest IH]; intros before cur m.
  - cbn [textwrap.wordsep_scan]. destruct cur; [done|].
    cbn [concat]. by rewrite !app_nil_r.
  - cbn [textwrap.wordsep_scan].
    destruct (textwrap.continues m before (c :: rest)) as [m'|].
    + rewrite IH. by rewrite <- app_assoc.
    + destruct cur as [|x cur]; [by rewrite IH|].
      cbn [concat]. by rewrite IH.
Qed.

Lemma wordsep_scan_nonempty before cur m rest :
  Forall (fun chunk => chunk <> []) (textwrap.wordsep_scan before cur m rest).
Proof.
  revert before cur m. induction rest as [|c rest IH]; intros before cur m.
  - cbn [textwrap.wordsep_scan]. destruct cur; by repeat constructor.
  - cbn [textwrap.wordsep_scan].
    destruct (textwrap.continues m before (c :: rest)) as [m'|]; [apply IH|].
    destruct cur as [|x cur]; [apply IH|]. constructor; [done|apply IH].
Qed.

Lemma concat_nil_nonempty (chunks : list str) :
  Forall (fun chunk => chunk <> []) chunks -> concat chunks = [] -> chunks = [].
Proof.
  destruct 1 as [|chunk chunks Hc _]; [done|]. cbn [concat].
  intros [-> _]%app_eq_nil. done.
Qed.

Lemma last_concat_nonempty (chunks : list str) chunk :
  Forall (fun chunk => chunk <> []) chunks ->
  last chunks = Some chunk -> last (concat chunks) = last chunk.
Proof.
  intros Hne [l ->]%last_Some.
  apply Forall_app in Hne as [_ Hne]. apply Forall_inv in Hne.
  rewrite concat_app. cbn [concat]. rewrite app_nil_r.
  destruct (last chunk) as [c|] eqn:E.
  - apply last_Some in E as [l' ->]. by rewrite app_assoc, !last_snoc.
  - by apply last_None in E.
Qed.

Lemma blank_forallb chunk : textwrap.blank chunk = blank_line chunk.
Proof.
  unfold textwrap.blank. destruct (strip chunk) eqn:E.
  - symmetry. by apply strip_nil.
  - destruct (blank_line chunk) eqn:E'; [|done].
    apply strip_nil in E'. congruence.
Qed.

Lemma last_not_blank chunk c :
  last chunk = Some c -> isspace c = false -> textwrap.blank chunk = false.
Proof.
  intros [l ->]%last_Some Hc. rewrite blank_forallb. unfold blank_line.
  rewrite forallb_app. cbn [forallb]. rewrite Hc. by rewrite andb_false_r.
Qed.

(** *** The wrapper *)

Lemma total_len_app a b :
  textwrap.total_len (a ++ b) = (textwrap.total_len a + textwrap.total_len b)%nat.
Proof. unfold textwrap.total_len. by rewrite map_app, list_sum_app. Qed.

Lemma total_len_cons c l :
  textwrap.total_len (c :: l) = (length c + textwrap.total_len l)%nat.
Proof. done. Qed.

Lemma total_len_nil : textwrap.total_len [] = 0%nat.
Proof. done. Qed.

Lemma length_concat_total (chunks : list str) :
  length (concat chunks) = textwrap.total_len chunks.
Proof.
  induction chunks as [|c chunks IH]; [done|].
  cbn [concat]. by rewrite length_app, IH, total_len_cons.
Qed.

Lemma drop_last_snoc {A} (l : list A) x : textwrap.drop_last (l ++ [x]) = l.
Proof.
  unfold textwrap.drop_last. rewrite length_app. cbn [length].
  replace (pred (length l + 1)) with (length l) by lia.
  by rewrite take_app_length.
Qed.

Lemma list_sum_rev (l : list nat) : list_sum (rev l) = list_sum l.
Proof.
  induction l as [|n l IH]; [done|].
  cbn [rev]. rewrite list_sum_app, IH.
  change (list_sum [n]) with (n + 0)%nat.
  change (list_sum (n :: l)) with (n + list_sum l)%nat. lia.
Qed.

Lemma total_len_rev chunks :
  textwrap.total_len (rev chunks) = textwrap.total_len chunks.
Proof. unfold textwrap.total_len. by rewrite map_rev, list_sum_rev. Qed.

Section WrapperFacts.

Variable width : nat.
Variable placeholder : str.

(** Python refuses a placeholder that does not fit the width. *)
Hypothesis placeholder_fits : (length (lstrip placeholder) <= width)%nat.

Lemma add_placeholder_length rev_line line :
  textwrap.add_placeholder width placeholder rev_line
    (textwrap.total_len rev_line) = Some line ->
  (length line <= width)%nat.
Proof.
  revert line. induction rev_line as [|chunk rev_line IH]; intros line; [done|].
  cbn [textwrap.add_placeholder].
  destruct (negb (textwrap.blank chunk) && _) eqn:E.
  - intros [= <-]. apply andb_true_iff in E as [_ E]. apply Nat.leb_le in E.
    rewrite length_app, length_concat_total.
    change (rev rev_line ++ [chunk]) with (rev (chunk :: rev_line)).
    by rewrite total_len_rev.
  - replace (textwrap.total_len (chunk :: rev_line) - length chunk)%nat
      with (textwrap.total_len rev_line); [apply IH|].
    rewrite total_len_cons. lia.
Qed.

(** What a pass of the loop can do to the lines. *)
Lemma wrap_pass_cases lines chunks :
  match textwrap.wrap_pass width placeholder lines chunks with
  | textwrap.Next lines' chunks' =>
      lines' = lines
      \/ exists line, lines' = lines ++ [line] /\ (length line <= width)%nat
           /\ (chunks' = []
               \/ exists c, chunks' = [c] /\ textwrap.blank c = true)
  | textwrap.Break lines' =>
      (exists line, lines' = lines ++ [line] /\ (length line <= width)%nat)
      \/ (exists line, lines' = textwrap.drop_last lines ++ [line]
                       /\ (length line <= width)%nat /\ lines <> [])
  end.
Proof.
  unfold textwrap.wrap_pass.
  generalize (match chunks, lines with
              | chunk :: chunks', _ :: _ =>
                  if textwrap.blank chunk then chunks' else chunks
              | _, _ => chunks
              end).
  intros chunks0.
  destruct (textwrap.take_fitting width [] 0 chunks0) as [[cl len] rest].
  generalize (match rest with
              | chunk :: _ =>
                  if (width <? length chunk)%nat
                  then textwrap.handle_long_word width rest cl len
                  else (cl, rest)
              | [] => (cl, rest)
              end).
  intros [cl2 rest2].
  assert (exists cl3,
            (match last cl2 with
             | Some chunk =>
                 if textwrap.blank chunk
                 then (textwrap.drop_last cl2,
                       (textwrap.total_len cl2 - length chunk)%nat)
                 else (cl2, textwrap.total_len cl2)
             | None => (cl2, textwrap.total_len cl2)
             end) = (cl3, textwrap.total_len cl3)) as [cl3 ->].
  { destruct (last cl2) as [chunk|] eqn:E; [|by exists cl2].
    destruct (textwrap.blank chunk); [|by exists cl2].
    apply last_Some in E as [l ->]. exists l.
    rewrite drop_last_snoc, total_len_app, total_len_cons, total_len_nil.
    f_equal. lia. }
  destruct cl3 as [|c3 cl3]; [by left|].
  destruct (_ && _) eqn:E.
  - right. exists (concat (c3 :: cl3)). split; [done|].
    apply andb_true_iff in E as [E1 E2]. apply Nat.leb_le in E2.
    split; [by rewrite length_concat_total|].
    destruct rest2 as [|c [|? ?]]; [by left| |done]. right. by exists c.
  - destruct (textwrap.add_placeholder _ _ _ _) as [line|] eqn:Ea.
    + left. exists line. split; [done|].
      apply add_placeholder_length with (rev_line := rev (c3 :: cl3)).
      by rewrite total_len_rev.
    + destruct (last lines) as [prev|] eqn:El.
      * cbv zeta.
        destruct (length (rstrip prev) + length placeholder <=? width)%nat
          eqn:Ew.
        -- right. exists (rstrip prev ++ placeholder). split; [done|].
           apply Nat.leb_le in Ew. rewrite length_app. split; [done|].
           by intros ->.
        -- left. by exists (lstrip placeholder).
      * left. by exists (lstrip placeholder).
Qed.

Lemma wrap_loop_nil fuel lines :
  textwrap.wrap_loop width placeholder fuel lines [] = lines.
Proof. by destruct fuel. Qed.

(** After the line, a last chunk of whitespace is dropped. *)
Lemma wrap_pass_after_line l lines c :
  textwrap.blank c = true ->
  textwrap.wrap_pass width placeholder (l :: lines) [c]
  = textwrap.Next (l :: lines) [].
Proof. intros Hc. unfold textwrap.wrap_pass. rewrite Hc. done. Qed.

(** With [max_lines = 1] the loop leaves at most one line, and it fits the
    width. *)
Lemma wrap_loop_one_line fuel lines chunks :
  Forall (fun l : str => (length l <= width)%nat) lines ->
  lines = []
  \/ ((exists l, lines = [l])
      /\ (chunks = [] \/ exists c, chunks = [c] /\ textwrap.blank c = true)) ->
  (length (textwrap.wrap_loop width placeholder fuel lines chunks) <= 1)%nat
  /\ Forall (fun l : str => (length l <= width)%nat)
            (textwrap.wrap_loop width placeholder fuel lines chunks).
Proof.
  revert lines chunks. induction fuel as [|fuel IH]; intros lines chunks Hb Hst.
  - assert (textwrap.wrap_loop width placeholder 0 lines chunks = lines) as ->
      by by destruct chunks.
    split; [|done]. destruct Hst as [->|[[l ->] _]]; cbn; lia.
  - destruct chunks as [|chunk chunks].
    { cbn [textwrap.wrap_loop]. split; [|done].
      destruct Hst as [->|[[l ->] _]]; cbn; lia. }
    cbn [textwrap.wrap_loop].
    destruct Hst as [->|[[l ->] [?|(c & [= -> ->] & Hc)]]]; [|done|].
    + pose proof (wrap_pass_cases [] (chunk :: chunks)) as Hcases.
      destruct (textwrap.wrap_pass width placeholder [] (chunk :: chunks))
        as [lines' chunks'|lines'].
      * destruct Hcases as [->|(line & -> & Hline & Hrest)].
        -- apply IH; [done|by left].
        -- apply IH; [by repeat constructor|]. right. split; [by exists line|done].
      * destruct Hcases as [(line & -> & Hline)|(line & _ & _ & Hne)]; [|done].
        split; [cbn; lia|by repeat constructor].
    + rewrite wrap_pass_after_line by done. rewrite wrap_loop_nil.
      split; [cbn; lia|done].
Qed.

End WrapperFacts.

(** *** The loop ends *)

Section WrapperFuel.

Variable width : nat.
Variable placeholder : str.
Hypothesis width_positive : (1 <= width)%nat.

Lemma take_fitting_spec cur_line cur_len chunks line' len' rest :
  textwrap.take_fitting width cur_line cur_len chunks = (line', len', rest) ->
  exists taken,
    line' = cur_line ++ taken /\ chunks = taken ++ rest
    /\ len' = (cur_len + textwrap.total_len taken)%nat
    /\ match rest with
       | c :: _ => (width < len' + length c)%nat
       | [] => True
       end.
Proof.
  revert cur_line cur_len. induction chunks as [|chunk chunks IH];
    intros cur_line cur_len; cbn [textwrap.take_fitting].
  - intros [= <- <- <-]. exists []. rewrite app_nil_r, total_len_nil.
    repeat split; lia.
  - destruct (Nat.leb_spec (cur_len + length chunk) width) as [Hfit|Hno].
    + intros (taken & -> & -> & -> & Hrest)%IH. exists (chunk :: taken).
      rewrite <- app_assoc, total_len_cons. repeat split; [lia|done].
    + intros [= <- <- <-]. exists []. rewrite app_nil_r, total_len_nil.
      repeat split; lia.
Qed.

Lemma measure_cons c chunks :
  textwrap.measure (c :: chunks)
  = (1 + length c + textwrap.measure chunks)%nat.
Proof. unfold textwrap.measure. rewrite total_len_cons. cbn [length]. lia. Qed.

Lemma measure_app a b :
  textwrap.measure (a ++ b) = (textwrap.measure a + textwrap.measure b)%nat.
Proof. unfold textwrap.measure. rewrite total_len_app, length_app. lia. Qed.

(** A long word is cut after one character at least. *)
Lemma handle_long_word_measure c rest cur_line cur_len line' chunks' :
  (cur_len < width)%nat -> (width < length c)%nat ->
  textwrap.handle_long_word width (c :: rest) cur_line cur_len
  = (line', chunks') ->
  (textwrap.measure chunks' < textwrap.measure (c :: rest))%nat.
Proof.
  intros Hlen Hc. unfold textwrap.handle_long_word.
  destruct (Nat.ltb_spec width 1) as [?|_]; [lia|].
  match goal with
  | |- context [take ?stop c] =>
      assert (1 <= stop)%nat as Hstop; [|generalize dependent stop]
  end.
  { destruct (Nat.ltb_spec (width - cur_len) (length c)); [|lia].
    destruct (textwrap.rfind_hyphen c (width - cur_len)) as [h|]; [|lia].
    destruct (_ && _); lia. }
  intros stop Hstop [= <- <-]. rewrite !measure_cons, length_drop. lia.
Qed.

(** A pass that goes on has used up part of the chunks. *)
Lemma wrap_pass_measure lines chunks lines' chunks' :
  chunks <> [] ->
  textwrap.wrap_pass width placeholder lines chunks
  = textwrap.Next lines' chunks' ->
  (textwrap.measure chunks' < textwrap.measure chunks)%nat.
Proof.
  intros Hne. unfold textwrap.wrap_pass.
  assert (exists chunks0,
            (match chunks, lines with
             | chunk :: chunks', _ :: _ =>
                 if textwrap.blank chunk then chunks' else chunks
             | _, _ => chunks
             end) = chunks0
            /\ (chunks0 = chunks
                \/ (textwrap.measure chunks0 < textwrap.measure chunks)%nat))
    as (chunks0 & -> & Hdrop).
  { eexists. split; [done|]. destruct chunks as [|c chunks]; [done|].
    destruct lines; [by left|]. destruct (textwrap.blank c); [|by left].
    right. rewrite measure_cons. lia. }
  destruct (textwrap.take_fitting width [] 0 chunks0) as [[cl len] rest] eqn:Etf.
  apply take_fitting_spec in Etf as (taken & -> & -> & -> & Hrest).
  cbn [app Nat.add] in *.
  assert (exists cl2 rest2,
            (match rest with
             | chunk :: _ =>
                 if (width <? length chunk)%nat
                 then textwrap.handle_long_word width rest taken
                        (textwrap.total_len taken)
                 else (taken, rest)
             | [] => (taken, rest)
             end) = (cl2, rest2)
            /\ (textwrap.measure rest2 < textwrap.measure (taken ++ rest)
                \/ (taken = [] /\ rest = [] /\ rest2 = []))%nat)
    as (cl2 & rest2 & -> & Hcut).
  { destruct rest as [|c rest].
    - exists taken, []. split; [done|]. rewrite app_nil_r.
      destruct taken as [|t taken]; [by right|]. left.
      rewrite measure_cons. unfold textwrap.measure. cbn. lia.
    - destruct (Nat.ltb_spec width (length c)) as [Hlong|Hshort].
      + destruct (textwrap.handle_long_word _ _ _ _) as [cl2 rest2] eqn:Eh.
        exists cl2, rest2. split; [done|]. left. rewrite measure_app.
        destruct taken as [|t taken].
        * change (textwrap.measure []) with 0%nat.
          apply handle_long_word_measure in Eh;
            [exact Eh | rewrite total_len_nil; lia | lia].
        * unfold textwrap.handle_long_word in Eh. injection Eh as <- <-.
          rewrite !measure_cons, length_drop. lia.
      + exists taken, (c :: rest). split; [done|]. left. rewrite measure_app.
        destruct taken as [|t taken]; [rewrite total_len_nil in Hrest; lia|].
        rewrite (measure_cons t). lia. }
  destruct (match last cl2 with
            | Some chunk =>
                if textwrap.blank chunk
                then (textwrap.drop_last cl2,
                      (textwrap.total_len cl2 - length chunk)%nat)
                else (cl2, textwrap.total_len cl2)
            | None => (cl2, textwrap.total_len cl2)
            end) as [cl3 len3].
  assert (chunks' = rest2 ->
          (textwrap.measure chunks' < textwrap.measure chunks)%nat) as Hfinal.
  { intros ->. destruct Hcut as [Hcut|(-> & -> & ->)].
    - destruct Hdrop as [<-|Hdrop]; lia.
    - destruct Hdrop as [<-|Hdrop]; [done|]. exact Hdrop. }
  destruct cl3 as [|c3 cl3]; [intros [= _ <-]; by apply Hfinal|].
  destruct (_ && _); [intros [= _ <-]; by apply Hfinal|].
  destruct (textwrap.add_placeholder _ _ _ _); [done|].
  destruct (last lines); [|done]. cbv zeta. by destruct (Nat.leb _ _).
Qed.

(** Fuel above the measure of the chunks is never exhausted: more fuel
    gives the same lines. *)
Lemma wrap_loop_fuel fuel fuel' lines chunks :
  (textwrap.measure chunks < fuel)%nat ->
  (textwrap.measure chunks < fuel')%nat ->
  textwrap.wrap_loop width placeholder fuel lines chunks
  = textwrap.wrap_loop width placeholder fuel' lines chunks.
Proof.
  revert fuel' lines chunks.
  induction fuel as [|fuel IH]; intros fuel' lines chunks Hf Hf'; [lia|].
  destruct fuel' as [|fuel']; [lia|].
  destruct chunks as [|chunk chunks]; [done|]. cbn [textwrap.wrap_loop].
  destruct (textwrap.wrap_pass width placeholder lines (chunk :: chunks))
    as [lines' chunks'|lines'] eqn:E; [|done].
  apply wrap_pass_measure in E; [|done]. apply IH; lia.
Qed.

End WrapperFuel.

(** *** A text that fits *)

Lemma take_fitting_all width cur_line cur_len chunks :
  (cur_len + textwrap.total_len chunks <= width)%nat ->
  textwrap.take_fitting width cur_line cur_len chunks
  = (cur_line ++ chunks, (cur_len + textwrap.total_len chunks)%nat, []).
Proof.
  revert cur_line cur_len. induction chunks as [|c chunks IH];
    intros cur_line cur_len; cbn [textwrap.take_fitting].
  - intros _. rewrite app_nil_r, total_len_nil. do 2 f_equal. lia.
  - rewrite total_len_cons. intros H.
    destruct (Nat.leb_spec (cur_len + length c) width); [|lia].
    rewrite IH by lia. rewrite <- app_assoc. do 2 f_equal. lia.
Qed.

(** Chunks that fit the width together make the one line. *)
Lemma wrap_chunks_fits width placeholder chunks c :
  last chunks = Some c -> textwrap.blank c = false ->
  (textwrap.total_len chunks <= width)%nat ->
  textwrap.wrap_chunks width placeholder chunks = [concat chunks].
Proof.
  intros Hlast Hc Hfit. unfold textwrap.wrap_chunks.
  destruct chunks as [|c0 chunks]; [done|].
  cbn [textwrap.wrap_loop].
  assert (textwrap.wrap_pass width placeholder [] (c0 :: chunks)
          = textwrap.Next [concat (c0 :: chunks)] []) as ->.
  { unfold textwrap.wrap_pass.
    rewrite take_fitting_all by (cbn [Nat.add]; exact Hfit).
    cbn [app Nat.add]. rewrite Hlast, Hc.
    apply Nat.leb_le in Hfit. by rewrite Hfit. }
  apply wrap_loop_nil.
Qed.

Lemma collapsed_spaced text : spaced (collapsed text).
Proof. apply join_words_spaced, split_words. Qed.

Lemma shorten_fits text width placeholder :
  (length (collapsed text) <= width)%nat ->
  textwrap.shorten text width placeholder = collapsed text.
Proof.
  intros Hfit. unfold textwrap.shorten, textwrap.fill, textwrap.wrap,
    textwrap.split_chunks.
  fold (collapsed text). rewrite munge_whitespace_spaced by apply collapsed_spaced.
  pose proof (wordsep_scan_concat [] [] textwrap.Start (collapsed text)) as Hcat.
  pose proof (wordsep_scan_nonempty [] [] textwrap.Start (collapsed text)) as Hne.
  cbn [app] in Hcat.
  destruct (split (strip text)) as [|w ws] eqn:Ews.
  { unfold collapsed. rewrite Ews. done. }
  destruct (last_join_words (w :: ws)) as (c & Hlast & Hc); [|done|].
  { rewrite <- Ews. apply split_words. }
  assert (Hlast' : last (collapsed text) = Some c).
  { unfold collapsed. by rewrite Ews. }
  clear Hlast.
  destruct (last (textwrap.wordsep_scan [] [] textwrap.Start (collapsed text)))
    as [chunk|] eqn:Echunk.
  - rewrite (wrap_chunks_fits _ _ _ chunk); [by rewrite Hcat|done| |].
    + apply last_not_blank with c; [|done].
      by rewrite <- (last_concat_nonempty _ _ Hne Echunk), Hcat.
    + by rewrite <- length_concat_total, Hcat.
  - apply last_None in Echunk. rewrite Echunk in Hcat.
    rewrite <- Hcat in Hlast'. done.
Qed.

Lemma shorten_length text width placeholder :
  (length (lstrip placeholder) <= width)%nat ->
  (length (textwrap.shorten text width placeholder) <= width)%nat.
Proof.
  intros Hph. unfold textwrap.shorten, textwrap.fill, textwrap.wrap,
    textwrap.wrap_chunks.
  match goal with
  | |- context [textwrap.wrap_loop _ _ ?fuel [] ?chunks] =>
      destruct (wrap_loop_one_line width placeholder Hph fuel [] chunks)
        as [Hone Hb]; [done|by left|];
      destruct (textwrap.wrap_loop width placeholder fuel [] chunks)
        as [|l [|l' ls]]
  end.
  - cbn. lia.
  - by apply Forall_inv in Hb.
  - cbn in Hone. lia.
Qed.

(** *** Words and single spaces *)

Lemma split_from_word cur w rest :
  Forall (fun c => isspace c = false) w ->
  split_from cur (w ++ rest) = split_from (cur ++ w) rest.
Proof.
  intros H. revert cur. induction H as [|c w Hc Hw IH]; intros cur.
  - by rewrite app_nil_r.
  - cbn [app split_from]. rewrite Hc, IH. by rewrite <- app_assoc.
Qed.

(** Splitting undoes joining words with single spaces. *)
Lemma split_join_words ws : Forall word ws -> split (join [32] ws) = ws.
Proof.
  unfold split. induction 1 as [|w ws [Hne Hw] Hws IH]; [done|].
  destruct ws as [|w' ws].
  - cbn [join]. rewrite <- (app_nil_r w) at 1.
    rewrite (split_from_word [] w [] Hw).
    cbn [app split_from]. by destruct w.
  - change (join [32] (w :: w' :: ws)) with (w ++ 32 :: join [32] (w' :: ws)).
    rewrite (split_from_word [] w _ Hw). cbn [app split_from].
    change (isspace 32) with true. cbn match. rewrite IH. by destruct w.
Qed.

Lemma strip_fixed s c d :
  head s = Some c -> isspace c = false ->
  last s = Some d -> isspace d = false ->
  strip s = s.
Proof.
  intros Hhead Hc Hlast Hd. unfold strip.
  destruct s as [|x s]; [done|]. injection Hhead as ->.
  unfold lstrip at 1. rewrite drop_while_fix by done.
  apply last_Some in Hlast as [l Hl]. rewrite Hl.
  rewrite rstrip_app_not_blank
    by (unfold blank_line; cbn [forallb]; by rewrite Hd).
  f_equal. unfold rstrip, lstrip. cbn [rev app].
  by rewrite drop_while_fix.
Qed.

Lemma head_join_words ws :
  Forall word ws -> ws <> [] ->
  exists c, head (join [32] ws) = Some c /\ isspace c = false.
Proof.
  destruct 1 as [|w ws [Hne Hw] Hws]; [done|]. intros _.
  destruct w as [|c w]; [done|]. exists c. apply Forall_inv in Hw.
  split; [|done]. by destruct ws.
Qed.

Lemma collapsed_words ws :
  Forall word ws -> collapsed (join [32] ws) = join [32] ws.
Proof.
  intros H. unfold collapsed. destruct ws as [|w ws]; [done|].
  destruct (head_join_words (w :: ws)) as (c & Hc & Hc'); [done..|].
  destruct (last_join_words (w :: ws)) as (d & Hd & Hd'); [done..|].
  rewrite (strip_fixed _ c d) by done. by rewrite split_join_words.
Qed.

(** C2, as stated, fails: a message of two lines is no longer than 180
    characters, and its short form has a space for the line feed. *)
Lemma two_line_message_collapsed :
  let i := failure_issue [] [] [] (failure_with two_line_message) in
  msg i = two_line_message
  /\ (length (msg i) <= 180)%nat
  /\ msg_short i = lit "a b"
  /\ msg_short i <> msg i.
Proof.
  cbv zeta.
  assert (msg (failure_issue [] [] [] (failure_with two_line_message))
          = two_line_message) as -> by (vm_compute; reflexivity).
  assert (msg_short (failure_issue [] [] [] (failure_with two_line_message))
          = lit "a b") as -> by (vm_compute; reflexivity).
  repeat split; [cbn; lia|]. vm_compute. discriminate.
Qed.

(** C2, amended: the short message is never longer than 180 characters,
    with or without the ellipsis; it is the message with every run of
    whitespace made one space whenever that text is at most 180 characters
    long, and so the message itself when the message is words with single
    spaces between them; and the loop of the wrapper that computes it ends
    within its fuel. *)
Theorem short_message_within_width
    (suite_name tc_name time : str) (failure : ET.Element) :
  let i := failure_issue suite_name tc_name time failure in
  (length (msg_short i) <= 180)%nat
  /\ ((length (collapsed (msg i)) <= 180)%nat ->
      msg_short i = collapsed (msg i))
  /\ (forall ws, Forall word ws -> msg i = join [32] ws ->
      (length (msg i) <= 180)%nat -> msg_short i = msg i)
  /\ (forall fuel,
        let chunks := textwrap.split_chunks (collapsed (msg i)) in
        (textwrap.measure chunks < fuel)%nat ->
        join [10] (textwrap.wrap_loop 180 [ellipsis] fuel [] chunks)
        = msg_short i).
Proof.
  cbv zeta. cbn [msg msg_short failure_issue].
  set (m := clean_message _ _). repeat apply conj.
  - apply shorten_length.
    assert (lstrip [ellipsis] = [ellipsis]) as -> by (vm_compute; reflexivity).
    cbn [length]. lia.
  - apply shorten_fits.
  - intros ws Hws Hm Hlen. rewrite shorten_fits.
    + by rewrite Hm, collapsed_words.
    + by rewrite Hm, collapsed_words, <- Hm.
  - intros fuel Hfuel. unfold textwrap.shorten, textwrap.fill, textwrap.wrap,
      textwrap.wrap_chunks. fold (collapsed m).
    f_equal. apply wrap_loop_fuel; [clear|done|]; lia.
Qed.

(** * Further properties of the extractor *)



Lemma KIND_RE_match_Some s g :
  KIND_RE_match s = Some g ->
  g <> [] /\ Forall (fun c => not_newline c = true) g
  /\ exists after, s = lit "- " ++ g ++ after.
Proof.
  unfold KIND_RE_match.
  change (lit "- ") with ([45; 32] : str).
  destruct s as [|c1 [|c2 rest]]; cbn [strip_prefix]; try done.
  - by destruct (45 =? c1).
  - destruct (N.eqb_spec 45 c1) as [<-|]; [|done]. cbn [andb].
    destruct (N.eqb_spec 32 c2) as [<-|]; [|done]. cbn [strip_prefix].
    pose proof (take_while_all not_newline rest) as Hall.
    pose proof (take_drop_while not_newline rest) as Hcat.
    destruct (take_while not_newline rest) as [|x g'] eqn:E; [done|].
    intros [= Hg]. subst g. split; [done|]. split.
    + apply Forall_forall. intros c Hc.
      rewrite forallb_forall in Hall. apply Hall. by apply list_elem_of_In.
    + exists (drop_while not_newline rest). cbn [app]. do 2 f_equal.
      symmetry. exact Hcat.
Qed.

(** X2: the kind of an issue holds neither a line feed nor a carriage
    return and has no whitespace at either end; when it is not empty, it is
    the trimmed text that follows a dash and a space in the raw message, and
    its first and its last character are no whitespace. *)
Theorem kind_shape
    (suite_name tc_name time : str) (failure : ET.Element) :
  let raw_msg := strip (ET.get (lit "message") [] failure) in
  let i := failure_issue suite_name tc_name time failure in
  (10 ∉ kind i) /\ (13 ∉ kind i)
  /\ strip (kind i) = kind i
  /\ (kind i <> [] ->
      exists before g after,
        raw_msg = before ++ lit "- " ++ g ++ after /\ kind i = strip g)
  /\ (kind i <> [] ->
      (exists c, head (kind i) = Some c /\ isspace c = false)
      /\ (exists d, last (kind i) = Some d /\ isspace d = false)).
Proof.
  cbv zeta. cbn [kind failure_issue].
  set (raw_msg := strip (ET.get (lit "message") [] failure)).
  unfold KIND_RE_search.
  destruct (re_search KIND_RE_match raw_msg) as [g|] eqn:E; cbn.
  - apply re_search_found in E as (before & rest & Hraw & Hm).
    apply KIND_RE_match_Some in Hm as (Hne & Hg & after & ->).
    rewrite Forall_forall in Hg.
    assert (Hnl : forall c, c ∈ strip g -> c <> 10 /\ c <> 13).
    { intros c Hc%elem_of_strip%Hg. unfold not_newline in Hc.
      apply negb_true_iff, orb_false_iff in Hc as [H1 H2].
      apply N.eqb_neq in H1. apply N.eqb_neq in H2. done. }
    split; [intros H%Hnl; by destruct H|].
    split; [intros H%Hnl; by destruct H|].
    split; [apply strip_idem|].
    split; [intros _; by exists before, g, after|].
    apply strip_ends.
  - split; [by intros H%elem_of_nil|].
    split; [by intros H%elem_of_nil|].
    split; [done|]. split; by intros H.
Qed.

(** X3: every line of the message of an issue is a line of the raw message,
    up to whitespace at its ends: the loop over the lines adds no text. *)
Theorem message_lines_from_raw
    (suite_name tc_name time : str) (failure : ET.Element) (m : str) :
  let raw_msg := strip (ET.get (lit "message") [] failure) in
  let i := failure_issue suite_name tc_name time failure in
  m ∈ splitlines (msg i) ->
  exists l, l ∈ splitlines raw_msg /\ trim_of m l.
Proof.
  cbv zeta. cbn [msg failure_issue].
  set (raw_msg := strip (ET.get (lit "message") [] failure)).
  destruct (kept_text raw_msg) as [|c k] eqn:E.
  - rewrite clean_message_fallback by done. intros Hm. exists m.
    split; [done|apply trim_of_refl].
  - rewrite clean_message_kept by (by rewrite E).
    intros (l & Hl & _ & T)%kept_text_lines. by exists l.
Qed.

Lemma message_lines_from_raw_witness :
  exists l,
    l ∈ splitlines (strip (ET.get (lit "message") []
                             (failure_with sample_message)))
    /\ trim_of (lit "[500] - Internal error") l.
Proof.
  apply (message_lines_from_raw (lit "API Tests")
           (lit "GET /users [500] - Server error") (lit "0.12")
           (failure_with sample_message)).
  apply list_elem_of_In. vm_compute. left. reflexivity.
Defined.

(** X4: a failure whose [message] attribute is missing or blank gives an
    issue with an empty message, short message, status code, kind and
    reproduction command, whatever else the element holds. *)
Theorem blank_message_issue
    (suite_name tc_name time : str) (failure : ET.Element) :
  blank_line (ET.get (lit "message") [] failure) = true ->
  failure_issue suite_name tc_name time failure
  = {| suite := suite_name; endpoint := tc_name; time := time;
       msg := []; msg_short := []; status := []; kind := []; curl := [] |}.
Proof.
  intros H%strip_nil. unfold failure_issue. rewrite H. done.
Qed.

Lemma blank_message_issue_witness :
  failure_issue (lit "API Tests") (lit "GET /users") (lit "0.12")
    (ET.mkElement (lit "failure") ∅ [failure_with sample_message])
  = {| suite := lit "API Tests"; endpoint := lit "GET /users";
       time := lit "0.12";
       msg := []; msg_short := []; status := []; kind := []; curl := [] |}.
Proof.
  apply (blank_message_issue (lit "API Tests") (lit "GET /users") (lit "0.12")
           (ET.mkElement (lit "failure") ∅ [failure_with sample_message])).
  vm_compute. reflexivity.
Defined.

Lemma findall_app name t a cs1 cs2 :
  ET.findall name (ET.mkElement t a (cs1 ++ cs2))
  = ET.findall name (ET.mkElement t a cs1)
    ++ ET.findall name (ET.mkElement t a cs2).
Proof. unfold ET.findall. cbn [ET.children]. apply filter_app. Qed.

(** X5: only the direct [testsuite] children of the root count: the tag and
    the attributes of the root play no role, a root without such children
    (a report whose root is the test suite itself, say) gives no issue, and
    the issues of a root whose children are those of two roots in a row are
    the issues of the first followed by those of the second. *)
Theorem issues_of_direct_children
    (t t1 t2 : str) (a a1 a2 : gmap str str) (cs1 cs2 : list ET.Element) :
  issues_of_root (ET.mkElement t a (cs1 ++ cs2))
  = issues_of_root (ET.mkElement t1 a1 cs1)
    ++ issues_of_root (ET.mkElement t2 a2 cs2)
  /\ (Forall (fun child => ET.tag child <> lit "testsuite") cs1 ->
      issues_of_root (ET.mkElement t a cs1) = []).
Proof.
  split.
  - rewrite !issues_of_root_eq. unfold document_order_issues.
    rewrite findall_app. unfold ET.findall. cbn [ET.children].
    apply flat_map_app.
  - intros H. rewrite issues_of_root_eq. unfold document_order_issues.
    unfold ET.findall. cbn [ET.children].
    induction H as [|c cs Hc _ IH]; [done|].
    rewrite filter_cons. by destruct (decide (ET.tag c = lit "testsuite")).
Qed.

(** ** The loop over the lines, in closed form *)

Lemma str_eqb_nil s : str_eqb s [] = match s with [] => true | _ => false end.
Proof. unfold str_eqb. destruct s; by case_bool_decide. Qed.

Lemma strip_blank_eqb line : str_eqb (strip line) [] = blank_line line.
Proof.
  rewrite str_eqb_nil. destruct (strip line) eqn:E.
  - symmetry. by apply strip_nil.
  - destruct (blank_line line) eqn:B; [|done]. apply strip_nil in B. congruence.
Qed.

Lemma fold_strip_line_closed lines st :
  clean_lines (fold_left strip_line lines st)
  = clean_lines st
    ++ (if seen_reproduce st then List.filter kept_after_marker lines
        else lines_kept lines)
  /\ seen_reproduce (fold_left strip_line lines st)
     = seen_reproduce st || existsb marker_line lines.
Proof.
  revert st. induction lines as [|line lines IH]; intros st.
  - cbn. rewrite orb_false_r. split; [|done].
    destruct (seen_reproduce st); by rewrite app_nil_r.
  - cbn [fold_left existsb]. destruct (IH (strip_line st line)) as [-> ->].
    unfold strip_line, lines_kept, kept_after_marker.
    cbn [take_while drop_while List.filter].
    fold (marker_line line). fold (curl_line line).
    destruct (marker_line line) eqn:Hm; cbn [negb andb orb].
    { cbn [clean_lines seen_reproduce]. rewrite orb_true_r. split; [|done].
      destruct (seen_reproduce st); [done|]. cbn [List.filter app].
      rewrite Hm. done. }
    destruct (curl_line line) eqn:Hc; cbn [negb andb orb].
    { cbn [clean_lines seen_reproduce]. split; [|done].
      destruct (seen_reproduce st); [done|]. cbn [List.filter].
      by rewrite Hc. }
    rewrite strip_blank_eqb.
    destruct (seen_reproduce st) eqn:Hs; cbn [andb].
    + destruct (blank_line line) eqn:Hb; cbn [negb].
      * rewrite ?Hs. done.
      * cbn [clean_lines seen_reproduce]. rewrite ?Hs, <- app_assoc. done.
    + cbn [clean_lines seen_reproduce]. rewrite ?Hs, <- app_assoc.
      cbn [List.filter]. rewrite Hc. done.
Qed.

(** X6: the loop over the lines of a raw message keeps, in their order,
    every line before the first marker line that is no curl line (blank
    lines too), and from the first marker line on every line that is no
    marker line, no curl line and not blank; it has seen a marker exactly
    when some line is one. *)
Theorem strip_lines_closed_form (lines : list str) :
  clean_lines (strip_lines lines) = lines_kept lines
  /\ seen_reproduce (strip_lines lines) = existsb marker_line lines.
Proof. apply (fold_strip_line_closed lines strip_init). Qed.

(** ** Times that are not numbers *)

(** X7: a time that reads as a NaN decides both bounds when it is the first
    of the parsed times, and never otherwise: the lower and the upper bound
    are NaN exactly when the first parsed time is. *)
Theorem nan_first_time_decides_bounds
    (issues : list Issue) (first : pyfloat.float) (rest : list pyfloat.float) :
  parsed_times issues = first :: rest ->
  pyfloat.is_nan (min_time issues) = pyfloat.is_nan first
  /\ pyfloat.is_nan (max_time issues) = pyfloat.is_nan first.
Proof.
  intros H. unfold min_time, max_time. rewrite times_parsed, H.
  split; [apply min_from_nan | apply max_from_nan].
Qed.

Lemma nan_first_time_decides_bounds_witness :
  pyfloat.is_nan (min_time [timed_issue (lit "nan"); timed_issue (lit "0.5")])
  = pyfloat.is_nan S754_nan
  /\ pyfloat.is_nan (max_time [timed_issue (lit "nan"); timed_issue (lit "0.5")])
     = pyfloat.is_nan S754_nan.
Proof.
  apply (nan_first_time_decides_bounds
           [timed_issue (lit "nan"); timed_issue (lit "0.5")]
           S754_nan [S754_finite false 4503599627370496 (-53)]).
  vm_compute. reflexivity.
Defined.

(** ** Digits, [int] and the status pill *)

Lemma in_N_upto lo n c :
  lo <= c -> c < lo + N.of_nat n -> In c (N_upto lo n).
Proof.
  revert lo. induction n as [|n IH]; intros lo Hlo Hhi; [lia|].
  cbn [N_upto]. destruct (N.eq_dec lo c) as [->|Hne]; [by left|].
  right. apply IH; lia.
Qed.

Lemma in_ranges_members rs c :
  in_ranges rs c = true -> In c (flat_map range_members rs).
Proof.
  unfold in_ranges. intros ([lo hi] & Hin & Hc)%existsb_exists.
  apply in_flat_map. exists (lo, hi). split; [done|].
  cbn [fst snd] in Hc. apply andb_true_iff in Hc as [H1 H2].
  apply N.leb_le in H1. apply N.leb_le in H2.
  unfold range_members. cbn [fst snd]. apply in_N_upto; lia.
Qed.

Lemma isspace_not_decimal c : isspace c = true -> isdecimal c = false.
Proof.
  intros H%in_ranges_members.
  assert (Hall : forallb (fun c => negb (isdecimal c))
                   (flat_map range_members space_ranges) = true)
    by (vm_compute; reflexivity).
  rewrite forallb_forall in Hall. apply Hall in H. by apply negb_true_iff.
Qed.

Lemma digit_only_facts c :
  in_ranges digit_only_ranges c = true ->
  128 <= c /\ isspace c = false /\ isdecimal c = false.
Proof.
  intros H%in_ranges_members.
  assert (Hall : forallb (fun c => (128 <=? c) && negb (isspace c)
                                   && negb (isdecimal c))
                   (flat_map range_members digit_only_ranges) = true)
    by (vm_compute; reflexivity).
  rewrite forallb_forall in Hall. apply Hall in H.
  apply andb_true_iff in H as [[H1 H2]%andb_true_iff H3].
  apply N.leb_le in H1. apply negb_true_iff in H2. apply negb_true_iff in H3.
  done.
Qed.

(** A decimal digit and its value. *)
Lemma decimal_value_Some c d :
  decimal_value c = Some d ->
  d < 10 /\ (c < 128 -> c = 48 + d) /\ ascii_digit_of c = 48 + d.
Proof.
  unfold ascii_digit_of. intros H. rewrite H. split; [|split; [|done]].
  - unfold decimal_value in H.
    destruct (List.find _ decimal_zeros) as [z|] eqn:E; [|done].
    injection H as <-. apply find_some in E as [_ Hz].
    apply andb_true_iff in Hz as [Hlo Hhi].
    apply N.leb_le in Hlo. apply N.ltb_lt in Hhi. lia.
  - intros Hc. unfold decimal_value in H.
    destruct (List.find _ decimal_zeros) as [z|] eqn:E; [|done].
    injection H as <-. apply find_some in E as [Hin Hz].
    apply andb_true_iff in Hz as [Hlo Hhi].
    apply N.leb_le in Hlo. apply N.ltb_lt in Hhi.
    pose proof decimal_zeros_ascii as Hzeros. rewrite Forall_forall in Hzeros.
    apply list_elem_of_In, Hzeros in Hin. lia.
Qed.

Lemma isdecimal_value c :
  isdecimal c = true -> exists d, decimal_value c = Some d.
Proof. unfold isdecimal. destruct (decimal_value c) as [d|]; [eauto|done]. Qed.

Lemma ascii_digit_of_digit c :
  isdecimal c = true -> is_ascii_digit (ascii_digit_of c) = true.
Proof.
  intros (d & Hd)%isdecimal_value.
  apply decimal_value_Some in Hd as (Hlt & _ & ->).
  unfold is_ascii_digit. apply andb_true_iff.
  split; apply N.leb_le; lia.
Qed.

(** Bringing decimal digits to ASCII. *)
Lemma transform_decimal s :
  Forall (fun c => isdecimal c = true) s ->
  pyfloat.transform s = map ascii_digit_of s.
Proof.
  induction 1 as [|c s Hc Hs IH]; [done|]. cbn [pyfloat.transform map].
  rewrite IH. destruct (isdecimal_value c Hc) as (d & Hd).
  pose proof (decimal_value_Some c d Hd) as (Hlt & Hascii & Hasc).
  destruct (N.ltb_spec c 127) as [Hlow|Hhigh].
  - rewrite Hasc. f_equal. apply Hascii. lia.
  - destruct (isspace c) eqn:Hsp.
    + apply isspace_not_decimal in Hsp. congruence.
    + rewrite Hd. by rewrite Hasc.
Qed.

Lemma to_ascii_decimal s :
  Forall (fun c => isdecimal c = true) s ->
  pyfloat.to_ascii s = map ascii_digit_of s.
Proof.
  intros H. unfold pyfloat.to_ascii.
  destruct (forallb (fun c => c <? 128) s) eqn:E.
  - rewrite forallb_forall in E. symmetry.
    rewrite <- (map_id s) at 2. apply map_ext_in. intros c Hc.
    rewrite Forall_forall in H.
    destruct (isdecimal_value c) as (d & Hd); [apply H; by apply list_elem_of_In|].
    apply decimal_value_Some in Hd as (_ & Hascii & ->).
    symmetry. apply Hascii. apply N.ltb_lt. by apply E.
  - by apply transform_decimal.
Qed.

(** A decimal digit, then anything, then a digit that is no decimal digit:
    the text is cut there, and a question mark put. *)
Lemma transform_cut pre c post :
  Forall (fun c => isdecimal c = true) pre ->
  in_ranges digit_only_ranges c = true ->
  pyfloat.transform (pre ++ c :: post) = map ascii_digit_of pre ++ [63].
Proof.
  intros Hpre Hc. induction Hpre as [|x pre Hx Hpre IH].
  - cbn [app map pyfloat.transform].
    apply digit_only_facts in Hc as (Hhigh & Hsp & Hdec).
    destruct (N.ltb_spec c 127); [lia|]. rewrite Hsp.
    unfold isdecimal in Hdec. by destruct (decimal_value c).
  - cbn [app map pyfloat.transform]. rewrite IH.
    destruct (isdecimal_value x Hx) as (d & Hd).
    pose proof (decimal_value_Some x d Hd) as (Hlt & Hascii & Hasc).
    destruct (N.ltb_spec x 127) as [Hlow|Hhigh].
    + rewrite Hasc. f_equal. apply Hascii. lia.
    + destruct (isspace x) eqn:Hsp.
      * apply isspace_not_decimal in Hsp. congruence.
      * rewrite Hd. by rewrite Hasc.
Qed.

(** *** Reading ASCII digits *)

Lemma ascii_digit_cases c :
  is_ascii_digit c = true ->
  c = 48 \/ c = 49 \/ c = 50 \/ c = 51 \/ c = 52 \/ c = 53 \/ c = 54
  \/ c = 55 \/ c = 56 \/ c = 57.
Proof.
  unfold is_ascii_digit. intros [H1 H2]%andb_true_iff.
  apply N.leb_le in H1. apply N.leb_le in H2. lia.
Qed.

Lemma ascii_digit_plain c :
  is_ascii_digit c = true ->
  pyfloat.is_c_space c = false /\ (c =? 95) = false
  /\ pyint.digit_or_underscore c = true
  /\ forall s, pyfloat.read_sign (c :: s) = (false, c :: s).
Proof.
  intros H%ascii_digit_cases.
  repeat destruct H as [->|H]; try subst c; by vm_compute.
Qed.

Lemma take_while_digits ds rest :
  Forall (fun c => is_ascii_digit c = true) ds ->
  match rest with
  | c :: _ => pyint.digit_or_underscore c = false
  | [] => True
  end ->
  take_while pyint.digit_or_underscore (ds ++ rest) = ds
  /\ drop_while pyint.digit_or_underscore (ds ++ rest) = rest.
Proof.
  intros Hds Hrest. induction Hds as [|c ds Hc Hds [IH1 IH2]].
  - cbn [app]. destruct rest as [|c rest]; [done|].
    cbn [take_while drop_while]. by rewrite Hrest.
  - cbn [app take_while drop_while].
    destruct (ascii_digit_plain c Hc) as (_ & _ & -> & _).
    by rewrite IH1, IH2.
Qed.

Lemma filter_digits ds :
  Forall (fun c => is_ascii_digit c = true) ds ->
  List.filter is_ascii_digit ds = ds.
Proof.
  induction 1 as [|c ds Hc Hds IH]; [done|].
  cbn [List.filter]. by rewrite Hc, IH.
Qed.

Lemma underscores_ok_digits prev ds :
  (prev =? 95) = false ->
  Forall (fun c => is_ascii_digit c = true) ds ->
  pyint.underscores_ok prev ds = true.
Proof.
  intros Hprev Hds. revert prev Hprev.
  induction Hds as [|c ds Hc Hds IH]; intros prev Hprev.
  - cbn. by rewrite Hprev.
  - cbn [pyint.underscores_ok].
    destruct (ascii_digit_plain c Hc) as (_ & H95 & _ & _).
    rewrite H95. cbn [andb]. by apply IH.
Qed.

(** [int] on ASCII digits followed by a character that ends the number. *)
Lemma parse_ascii_digits d ds rest :
  Forall (fun c => is_ascii_digit c = true) (d :: ds) ->
  match rest with
  | c :: _ => pyint.digit_or_underscore c = false
  | [] => True
  end ->
  Forall (fun c => c < 128) rest ->
  pyint.of_str ((d :: ds) ++ rest)
  = if (pyint.max_str_digits <? length (d :: ds))%nat then None
    else if forallb pyfloat.is_c_space rest
         then Some (pyfloat.digits_value (d :: ds)) else None.
Proof.
  intros Hds Hrest Hascii. unfold pyint.of_str.
  assert (pyfloat.to_ascii ((d :: ds) ++ rest) = (d :: ds) ++ rest) as ->.
  { unfold pyfloat.to_ascii.
    assert (forallb (fun c => c <? 128) ((d :: ds) ++ rest) = true) as ->; [|done].
    rewrite forallb_app. apply andb_true_iff. split; apply forallb_forall.
    - intros c Hc%list_elem_of_In. rewrite Forall_forall in Hds.
      apply Hds, ascii_digit_cases in Hc. apply N.ltb_lt. lia.
    - intros c Hc%list_elem_of_In. rewrite Forall_forall in Hascii.
      apply N.ltb_lt. by apply Hascii. }
  pose proof (Forall_inv Hds) as Hd. cbn beta in Hd.
  destruct (ascii_digit_plain d Hd) as (Hsp & H95 & _ & Hsign).
  cbn [app drop_while]. rewrite Hsp, Hsign.
  destruct (take_while_digits (d :: ds) rest Hds Hrest) as [Ht Hdr].
  cbn [app] in Ht, Hdr. rewrite Ht, Hdr, H95.
  rewrite underscores_ok_digits by done. cbn [negb].
  rewrite filter_digits by done.
  destruct (Nat.ltb _ _); [done|]. by destruct (forallb _ rest).
Qed.

Lemma of_str_via_ascii s t :
  pyfloat.to_ascii s = pyfloat.to_ascii t -> pyint.of_str s = pyint.of_str t.
Proof. unfold pyint.of_str. by intros ->. Qed.

Lemma to_ascii_ascii s :
  Forall (fun c => c < 128) s -> pyfloat.to_ascii s = s.
Proof.
  intros H. unfold pyfloat.to_ascii.
  assert (forallb (fun c => c <? 128) s = true) as ->; [|done].
  apply forallb_forall. intros c Hc%list_elem_of_In.
  rewrite Forall_forall in H. apply N.ltb_lt. by apply H.
Qed.

Lemma ascii_digits_of_decimal s :
  Forall (fun c => isdecimal c = true) s ->
  Forall (fun c => is_ascii_digit c = true) (map ascii_digit_of s).
Proof.
  induction 1 as [|c s Hc Hs IH]; constructor; [|done].
  by apply ascii_digit_of_digit.
Qed.

Lemma ascii_digits_below s :
  Forall (fun c => is_ascii_digit c = true) s -> Forall (fun c => c < 128) s.
Proof.
  intros H. eapply Forall_impl; [exact H|].
  intros c Hc%ascii_digit_cases. cbn beta. lia.
Qed.

(** [int] on decimal digits of any script: their value, unless there are
    too many of them. *)
Lemma of_str_decimal s :
  s <> [] -> Forall (fun c => isdecimal c = true) s ->
  pyint.of_str s
  = if (pyint.max_str_digits <? length s)%nat then None
    else Some (pyfloat.digits_value (map ascii_digit_of s)).
Proof.
  intros Hne Hdec.
  pose proof (ascii_digits_of_decimal s Hdec) as Hasc.
  rewrite (of_str_via_ascii s (map ascii_digit_of s)).
  - destruct s as [|c s]; [done|]. cbn [map] in *.
    rewrite <- (app_nil_r (_ :: map _ s)).
    rewrite parse_ascii_digits; [|done|done|constructor].
    rewrite app_nil_r. cbn [length forallb]. by rewrite length_map.
  - rewrite to_ascii_decimal by done. symmetry.
    by apply to_ascii_ascii, ascii_digits_below.
Qed.

Lemma isdigit_split s :
  isdigit s = true ->
  Forall (fun c => isdecimal c = true) s
  \/ exists pre c post,
       s = pre ++ c :: post /\ Forall (fun c => isdecimal c = true) pre
       /\ in_ranges digit_only_ranges c = true /\ isdecimal c = false.
Proof.
  unfold isdigit. destruct s as [|x s]; [done|].
  generalize (x :: s). clear. intros s H. rewrite forallb_forall in H.
  induction s as [|c s IH]; [by left|].
  assert (Hc : isdigit_char c = true) by (apply H; by left).
  destruct IH as [IH|(pre & c' & post & -> & Hpre & Hc' & Hnd)].
  { intros y Hy. apply H. by right. }
  - destruct (isdecimal c) eqn:E.
    + left. by constructor.
    + right. exists [], c, s. unfold isdigit_char in Hc. rewrite E in Hc.
      split; [done|]. split; [constructor|]. by split.
  - right. destruct (isdecimal c) eqn:E.
    + exists (c :: pre), c', post.
      split; [done|]. split; [by constructor|]. by split.
    + exists [], c, (pre ++ c' :: post). unfold isdigit_char in Hc.
      rewrite E in Hc. split; [done|]. split; [constructor|]. by split.
Qed.

Lemma of_str_digit_only pre c post :
  Forall (fun c => isdecimal c = true) pre ->
  in_ranges digit_only_ranges c = true ->
  pyint.of_str (pre ++ c :: post) = None.
Proof.
  intros Hpre Hc.
  pose proof (ascii_digits_of_decimal pre Hpre) as Hasc.
  rewrite (of_str_via_ascii _ (map ascii_digit_of pre ++ [63])).
  - destruct pre as [|x pre]; [by vm_compute|]. cbn [map] in *.
    rewrite parse_ascii_digits; [|done|by vm_compute|by repeat constructor].
    by destruct (Nat.ltb _ _).
  - rewrite (to_ascii_ascii (map ascii_digit_of pre ++ [63])).
    + unfold pyfloat.to_ascii.
      assert (forallb (fun c => c <? 128) (pre ++ c :: post) = false) as ->.
      { rewrite forallb_app. cbn [forallb].
        apply digit_only_facts in Hc as (Hhigh & _ & _).
        destruct (N.ltb_spec c 128); [lia|].
        cbn [andb]. by rewrite andb_false_r. }
      by apply transform_cut.
    + apply Forall_app. split; [by apply ascii_digits_below|].
      by repeat constructor.
Qed.

Lemma decimal_isdigit s :
  s <> [] -> Forall (fun c => isdecimal c = true) s -> isdigit s = true.
Proof.
  intros Hne H. unfold isdigit. destruct s as [|c s]; [done|].
  apply forallb_forall. intros x Hx%list_elem_of_In.
  rewrite Forall_forall in H. unfold isdigit_char. by rewrite (H x Hx).
Qed.

Lemma digit_below_ten d :
  d < 10 ->
  d = 0 \/ d = 1 \/ d = 2 \/ d = 3 \/ d = 4 \/ d = 5 \/ d = 6 \/ d = 7
  \/ d = 8 \/ d = 9.
Proof. lia. Qed.

(** The status code of an issue is one the extractor gives. *)
Lemma failure_issue_status suite_name tc_name time failure :
  extracted_status (status (failure_issue suite_name tc_name time failure)).
Proof.
  cbn [status failure_issue]. unfold extracted_status.
  destruct (STATUS_RE_search _) as [g|] eqn:E; [|by left].
  right. apply STATUS_RE_search_Some in E as (Hlen & Hdec & _). done.
Qed.

Lemma status_pill_html_extracted s :
  extracted_status s -> status_pill_html s = Some (expected_pill s).
Proof.
  intros [->|[Hlen Hdec]]; [by vm_compute|].
  destruct s as [|d1 [|d2 [|d3 [|? ?]]]]; try done.
  unfold status_pill_html.
  rewrite decimal_isdigit, of_str_decimal by done.
  cbn [length Nat.ltb Nat.leb pyint.max_str_digits].
  change (pyint.max_str_digits <? 3)%nat with false. cbn match.
  unfold expected_pill, pill_of_class.
  apply Forall_cons in Hdec as [H1 Hdec].
  apply Forall_cons in Hdec as [H2 Hdec].
  apply Forall_cons in Hdec as [H3 _].
  destruct (isdecimal_value d1 H1) as (v1 & E1).
  destruct (isdecimal_value d2 H2) as (v2 & E2).
  destruct (isdecimal_value d3 H3) as (v3 & E3).
  destruct (decimal_value_Some d1 v1 E1) as (L1 & _ & A1).
  destruct (decimal_value_Some d2 v2 E2) as (L2 & _ & A2).
  destruct (decimal_value_Some d3 v3 E3) as (L3 & _ & A3).
  cbn [map]. rewrite A1, A2, A3, E1. clear - L1 L2 L3.
  apply digit_below_ten in L1, L2, L3.
  repeat destruct L1 as [->|L1]; try subst v1;
    repeat destruct L2 as [->|L2]; try subst v2;
    repeat destruct L3 as [->|L3]; try subst v3;
    vm_compute; reflexivity.
Qed.

(** X8: for the status code of an issue of a document [status_pill_html]
    raises no error; it gives the pill of the class of the first digit (5,
    4 or 2) with the code written in ASCII digits, whatever the script of
    the digits in the message, and the pill of an unknown status for every
    other code and for the empty one. *)
Theorem status_pill_of_issue (root : ET.Element) (i : Issue) :
  i ∈ issues_of_root root ->
  status_pill_html (status i) = Some (expected_pill (status i)).
Proof.
  intros (s & n & t & f & ->)%issue_of_root.
  apply status_pill_html_extracted, failure_issue_status.
Qed.

Lemma status_pill_of_issue_witness :
  status_pill_html (status sample_issue)
  = Some (expected_pill (status sample_issue)).
Proof.
  apply (status_pill_of_issue sample_root sample_issue).
  apply list_elem_of_In. vm_compute. left. reflexivity.
Defined.

(** X9: [status_pill_html] raises the error of [int] exactly on a text of
    digits one of which is no decimal digit (a superscript two, say), or
    that has more than 4300 of them. *)
Theorem status_pill_html_error (status : str) :
  status_pill_html status = None
  <-> isdigit status = true
      /\ (Exists (fun c => isdecimal c = false) status
          \/ (pyint.max_str_digits < length status)%nat).
Proof.
  unfold status_pill_html. destruct (isdigit status) eqn:Hd.
  2: { split; [done|]. by intros [? _]. }
  assert (Hne : status <> []) by (by intros ->).
  destruct (isdigit_split status Hd)
    as [Hdec|(pre & c & post & -> & Hpre & Hc & Hnd)].
  - rewrite of_str_decimal by done.
    destruct (Nat.ltb_spec pyint.max_str_digits (length status)) as [Hlong|Hok].
    + split; [|done]. intros _. split; [done|]. by right.
    + split.
      * intros H. repeat destruct (_ && _)%Z in H; done.
      * intros [_ [Hex|Hlong]]; [|lia]. exfalso.
        apply Exists_exists in Hex as (x & Hx & Hxd).
        rewrite Forall_forall in Hdec. rewrite (Hdec x Hx) in Hxd. done.
  - rewrite of_str_digit_only by done. split; [|done]. intros _.
    split; [done|]. left. apply Exists_app. right. by constructor.
Qed.

Lemma status_between_extracted lo hi s :
  extracted_status s ->
  status_between lo hi s
  = Some (match s with
          | [] => false
          | _ => let code := pyfloat.digits_value (map ascii_digit_of s) in
                 ((lo <=? code) && (code <? hi))%Z
          end).
Proof.
  intros [->|[Hlen Hdec]]; [by vm_compute|].
  destruct s as [|d1 [|d2 [|d3 [|? ?]]]]; try done.
  unfold status_between. rewrite decimal_isdigit, of_str_decimal by done.
  cbn [length]. change (pyint.max_str_digits <? 3)%nat with false. done.
Qed.

Lemma count_status_disjoint lo hi lo' hi' issues :
  (hi <= lo')%Z ->
  Forall (fun i => extracted_status (status i)) issues ->
  exists n n',
    count_status lo hi issues = Some n /\ count_status lo' hi' issues = Some n'
    /\ (n + n' <= length issues)%nat.
Proof.
  intros Hdis. induction 1 as [|i issues Hi His (n & n' & E & E' & Hle)].
  - exists 0%nat, 0%nat. by repeat split.
  - cbn [count_status]. rewrite E, E'.
    rewrite !status_between_extracted by done.
    destruct (status i) as [|d ds].
    + exists n, n'. repeat split. cbn [length]. lia.
    + cbv zeta. set (code := pyfloat.digits_value _).
      destruct (Z.leb_spec lo code), (Z.ltb_spec code hi),
               (Z.leb_spec lo' code), (Z.ltb_spec code hi');
        cbn [andb]; eexists _, _; repeat split; cbn [length]; lia.
Qed.

(** X10: counting the issues of a document that have a status code of the
    classes 5xx and 4xx raises no error, and the two counts together are
    at most the number of issues. *)
Theorem status_counts_of_document (root : ET.Element) :
  exists n5 n4,
    total_5xx (issues_of_root root) = Some n5
    /\ total_4xx (issues_of_root root) = Some n4
    /\ (n5 + n4 <= length (issues_of_root root))%nat.
Proof.
  destruct (count_status_disjoint 400 500 500 600 (issues_of_root root))
    as (n4 & n5 & E4 & E5 & Hle); [lia| |].
  - apply Forall_forall. intros i (s & n & t & f & ->)%issue_of_root.
    apply failure_issue_status.
  - exists n5, n4. repeat split; [done..|lia].
Qed.

(** ** The shape of a base URL *)

Lemma url_tail_Some scheme rest m :
  url_tail scheme rest = Some m ->
  exists host,
    m = scheme ++ lit "://" ++ host /\ host <> []
    /\ Forall (fun c => url_char c = true) host.
Proof.
  unfold url_tail. destruct (strip_prefix (lit "://") rest) as [body|]; [|done].
  pose proof (take_while_all url_char body) as Hall.
  destruct (take_while url_char body) as [|c host]; [done|].
  intros [= <-]. exists (c :: host). split; [done|]. split; [done|].
  apply Forall_forall. intros x Hx%list_elem_of_In.
  rewrite forallb_forall in Hall. by apply Hall.
Qed.

Lemma URL_RE_match_Some s m :
  URL_RE_match s = Some m ->
  exists scheme host,
    (scheme = lit "http" \/ scheme = lit "https")
    /\ m = scheme ++ lit "://" ++ host /\ host <> []
    /\ Forall (fun c => url_char c = true) host.
Proof.
  unfold URL_RE_match.
  destruct (strip_prefix (lit "http") s) as [rest|]; [|done].
  destruct (strip_prefix (lit "s") rest) as [rest'|].
  - destruct (url_tail (lit "https") rest') as [m'|] eqn:E.
    + intros [= <-]. apply url_tail_Some in E as (host & -> & ? & ?).
      exists (lit "https"), host. auto.
    + intros (host & -> & ? & ?)%url_tail_Some.
      exists (lit "http"), host. auto.
  - intros (host & -> & ? & ?)%url_tail_Some.
    exists (lit "http"), host. auto.
Qed.

Lemma url_char_plain c :
  url_char c = true ->
  isspace c = false /\ c <> 39 /\ c <> 34
  /\ negb ((c =? 9) || (c =? 13) || (c =? 10)) = true.
Proof.
  unfold url_char. intros H%negb_true_iff.
  apply orb_false_iff in H as [[Hsp H39]%orb_false_iff H34].
  apply N.eqb_neq in H39. apply N.eqb_neq in H34.
  repeat split; try done.
  destruct (N.eqb_spec c 9) as [->|_]; [by vm_compute in Hsp|].
  destruct (N.eqb_spec c 13) as [->|_]; [by vm_compute in Hsp|].
  destruct (N.eqb_spec c 10) as [->|_]; [by vm_compute in Hsp|]. done.
Qed.

Lemma filter_all {A} (f : A -> bool) (l : list A) :
  Forall (fun x => f x = true) l -> List.filter f l = l.
Proof.
  induction 1 as [|x l Hx Hl IH]; [done|]. cbn [List.filter].
  by rewrite Hx, IH.
Qed.

Section SplitFacts.

Variable check_bracketed_netloc : str -> bool.

(** What [urlsplit] makes of a URL matched by [URL_RE]. *)
Lemma urlsplit_matched scheme host r :
  scheme = lit "http" \/ scheme = lit "https" ->
  Forall (fun c => url_char c = true) host ->
  urllib.urlsplit check_bracketed_netloc (scheme ++ lit "://" ++ host) = Some r ->
  urllib.scheme r = scheme
  /\ urllib.netloc r
     = take_while (fun c => negb ((c =? 47) || (c =? 63) || (c =? 35))) host.
Proof.
  intros Hscheme Hhost. unfold urllib.urlsplit.
  assert (Hfilter :
    List.filter (fun c => negb ((c =? 9) || (c =? 13) || (c =? 10)))
                (scheme ++ lit "://" ++ host)
    = scheme ++ lit "://" ++ host).
  { apply filter_all. apply Forall_app. split.
    - destruct Hscheme as [-> | ->]; by repeat constructor.
    - apply Forall_app. split; [by repeat constructor|].
      eapply Forall_impl; [exact Hhost|]. intros c Hc.
      by apply url_char_plain in Hc as (_ & _ & _ & ?). }
  destruct Hscheme as [-> | ->].
  - change (lit "http" ++ lit "://" ++ host)
      with (104 :: 116 :: 116 :: 112 :: 58 :: 47 :: 47 :: host) in *.
    rewrite drop_while_fix by done. rewrite Hfilter.
    change (urllib.cut 58 (104 :: 116 :: 116 :: 112 :: 58 :: 47 :: 47 :: host))
      with (lit "http", Some (47 :: 47 :: host)).
    lazy beta iota zeta.
    change (lit "http") with ([104; 116; 116; 112] : str).
    lazy beta iota zeta.
    change (urllib.is_ascii_alpha 104
            && forallb urllib.scheme_char [104; 116; 116; 112]) with true.
    change (lower [104; 116; 116; 112]) with ([104; 116; 116; 112] : str).
    lazy beta iota zeta.
    destruct (negb (bool_decide _)); [done|].
    destruct (_ && negb _); [done|].
    destruct (urllib.cut 35 _) as [url1 fragment].
    destruct (urllib.cut 63 _) as [url2 query].
    destruct (urllib.checknetloc _); [|done]. by intros [= <-].
  - change (lit "https" ++ lit "://" ++ host)
      with (104 :: 116 :: 116 :: 112 :: 115 :: 58 :: 47 :: 47 :: host) in *.
    rewrite drop_while_fix by done. rewrite Hfilter.
    change (urllib.cut 58
              (104 :: 116 :: 116 :: 112 :: 115 :: 58 :: 47 :: 47 :: host))
      with (lit "https", Some (47 :: 47 :: host)).
    lazy beta iota zeta.
    change (lit "https") with ([104; 116; 116; 112; 115] : str).
    lazy beta iota zeta.
    change (urllib.is_ascii_alpha 104
            && forallb urllib.scheme_char [104; 116; 116; 112; 115]) with true.
    change (lower [104; 116; 116; 112; 115])
      with ([104; 116; 116; 112; 115] : str).
    lazy beta iota zeta.
    destruct (negb (bool_decide _)); [done|].
    destruct (_ && negb _); [done|].
    destruct (urllib.cut 35 _) as [url1 fragment].
    destruct (urllib.cut 63 _) as [url2 query].
    destruct (urllib.checknetloc _); [|done]. by intros [= <-].
Qed.

End SplitFacts.

Lemma take_while_sub {A} (p : A -> bool) (l : list A) x :
  x ∈ take_while p l -> x ∈ l /\ p x = true.
Proof.
  induction l as [|y l IH]; cbn [take_while]; [by intros ?%elem_of_nil|].
  destruct (p y) eqn:E; [|by intros ?%elem_of_nil].
  intros [->|H]%elem_of_cons; [split; [by left|done]|].
  apply IH in H as [? ?]. split; [by right|done].
Qed.

Lemma url_base_shaped check_bracketed_netloc text b :
  url_base check_bracketed_netloc text = Some b -> base_url_shaped b.
Proof.
  intros (full_url & parsed & Hsearch & Hparse & ->)%url_base_shape.
  apply re_search_found in Hsearch as (before & rest & _ & Hm).
  apply URL_RE_match_Some in Hm as (scheme & host & Hscheme & -> & _ & Hhost).
  unfold urllib.urlparse in Hparse.
  destruct (urllib.urlsplit _ _) as [r|] eqn:Hsplit; [|done].
  apply urlsplit_matched in Hsplit as [Hs Hn]; [|done..].
  assert (urllib.p_scheme parsed = urllib.scheme r
          /\ urllib.p_netloc parsed = urllib.netloc r) as [-> ->].
  { destruct (_ && _) in Hparse;
      [destruct (urllib.splitparams _) in Hparse|];
      by injection Hparse as <-. }
  rewrite Hs, Hn.
  exists scheme,
    (take_while (fun c => negb ((c =? 47) || (c =? 63) || (c =? 35))) host).
  split; [done|]. split; [done|].
  apply Forall_forall. intros c [Hc Hp]%take_while_sub.
  rewrite Forall_forall in Hhost. unfold host_char.
  by rewrite (Hhost c Hc), Hp.
Qed.

(** X11: a base URL that is not empty is [http] or [https], [://] and a
    host free of whitespace, quotes, slashes, question marks and number
    signs: the path, the query and the fragment of the URL are gone.  This
    holds for what [extract_base_url] returns and so for every entry of the
    list of base URLs. *)
Theorem base_url_is_scheme_and_host
    (check_bracketed_netloc : str -> bool) (curl_cmd suite_name : str)
    (issues : list Issue) :
  (extract_base_url check_bracketed_netloc curl_cmd suite_name = []
   \/ base_url_shaped
        (extract_base_url check_bracketed_netloc curl_cmd suite_name))
  /\ Forall base_url_shaped (base_urls check_bracketed_netloc issues).
Proof.
  assert (Hone : forall c s,
            extract_base_url check_bracketed_netloc c s = []
            \/ base_url_shaped (extract_base_url check_bracketed_netloc c s)).
  { intros c s. unfold extract_base_url.
    destruct (match c with [] => None | _ => url_base _ c end) as [b|] eqn:E.
    - right. destruct c; [done|]. by apply url_base_shaped in E.
    - destruct (match s with [] => None | _ => url_base _ s end) as [b|] eqn:E';
        [|by left].
      right. destruct s; [done|]. by apply url_base_shaped in E'. }
  split; [apply Hone|].
  apply Forall_forall. intros u Hu.
  apply elem_of_base_urls in Hu as (Hne & i & _ & <-).
  by destruct (Hone (curl i) (suite i)).
Qed.

(** ** Escaping *)

Lemma replace_char_app old new a b :
  replace_char old new (a ++ b)
  = replace_char old new a ++ replace_char old new b.
Proof. unfold replace_char. apply flat_map_app. Qed.

Lemma replace_char_cons old new c s :
  replace_char old new (c :: s)
  = (if c =? old then new else [c]) ++ replace_char old new s.
Proof. done. Qed.

Lemma flat_map_escape_char quote c s :
  flat_map (escape_char quote) (c :: s)
  = escape_char quote c ++ flat_map (escape_char quote) s.
Proof. done. Qed.

(** The five replacements amount to one pass over the text. *)
Lemma escape_one_pass s quote :
  html.escape s quote = flat_map (escape_char quote) s.
Proof.
  unfold html.escape. induction s as [|c s IH]; [by destruct quote|].
  rewrite flat_map_escape_char, <- IH. clear IH.
  rewrite (replace_char_cons 38). rewrite !replace_char_app.
  assert (Hc : forall q : bool,
    (if q then
       replace_char 39 (lit "&#x27;")
         (replace_char 34 (lit "&quot;")
            (replace_char 62 (lit "&gt;")
               (replace_char 60 (lit "&lt;")
                  (if c =? 38 then lit "&amp;" else [c]))))
     else replace_char 62 (lit "&gt;")
            (replace_char 60 (lit "&lt;")
               (if c =? 38 then lit "&amp;" else [c])))
    = escape_char q c).
  { intros q. unfold escape_char.
    destruct (N.eqb_spec c 38) as [->|H38]; [by destruct q|].
    destruct (N.eqb_spec c 60) as [->|H60]; [by destruct q|].
    destruct (N.eqb_spec c 62) as [->|H62]; [by destruct q|].
    destruct (N.eqb_spec c 34) as [->|H34]; [by destruct q|].
    destruct (N.eqb_spec c 39) as [->|H39]; [by destruct q|].
    apply N.eqb_neq in H60, H62, H34, H39.
    unfold replace_char. cbn [flat_map app].
    rewrite ?H60. cbn [flat_map app]. rewrite ?H62. cbn [flat_map app].
    destruct q; [|done]. cbn [andb flat_map app].
    rewrite ?H34. cbn [flat_map app]. by rewrite ?H39. }
  destruct quote.
  - rewrite ?replace_char_app. by rewrite <- (Hc true).
  - by rewrite <- (Hc false).
Qed.

Lemma escape_char_clean quote c x :
  x ∈ escape_char quote c ->
  x <> 60 /\ x <> 62 /\ (quote = true -> x <> 34 /\ x <> 39).
Proof.
  unfold escape_char.
  destruct (N.eqb_spec c 38) as [->|H38].
  { intros H%list_elem_of_In. cbn in H. intuition (subst; done). }
  destruct (N.eqb_spec c 60) as [->|H60].
  { intros H%list_elem_of_In. cbn in H. intuition (subst; done). }
  destruct (N.eqb_spec c 62) as [->|H62].
  { intros H%list_elem_of_In. cbn in H. intuition (subst; done). }
  destruct quote; cbn [andb].
  - destruct (N.eqb_spec c 34) as [->|H34].
    { intros H%list_elem_of_In. cbn in H. intuition (subst; done). }
    destruct (N.eqb_spec c 39) as [->|H39].
    { intros H%list_elem_of_In. cbn in H. intuition (subst; done). }
    intros ->%list_elem_of_singleton. done.
  - intros ->%list_elem_of_singleton. repeat split; done.
Qed.

Lemma escape_char_plain quote c :
  c <> 38 -> c <> 60 -> c <> 62 -> c <> 34 -> c <> 39 ->
  escape_char quote c = [c].
Proof.
  intros H38 H60 H62 H34 H39. unfold escape_char.
  apply N.eqb_neq in H38, H60, H62, H34, H39.
  rewrite H38, H60, H62, H34, H39. by rewrite !andb_false_r.
Qed.

(** X12: the text [html.escape] returns holds no angle bracket, and with
    [quote] no quote of either kind; a text that holds no ampersand, no
    angle bracket and no quote is returned as it is. *)
Theorem escape_leaves_no_markup (s : str) (quote : bool) :
  (60 ∉ html.escape s quote) /\ (62 ∉ html.escape s quote)
  /\ (quote = true ->
      (34 ∉ html.escape s quote) /\ (39 ∉ html.escape s quote))
  /\ (Forall (fun c => c <> 38 /\ c <> 60 /\ c <> 62 /\ c <> 34 /\ c <> 39) s ->
      html.escape s quote = s).
Proof.
  rewrite escape_one_pass.
  assert (Hclean : forall x, x ∈ flat_map (escape_char quote) s ->
            x <> 60 /\ x <> 62 /\ (quote = true -> x <> 34 /\ x <> 39)).
  { intros x Hx%list_elem_of_In. apply in_flat_map in Hx as (c & _ & Hx).
    apply list_elem_of_In in Hx. by apply escape_char_clean in Hx. }
  split; [|split; [|split]].
  - intros H%Hclean. by destruct H.
  - intros H%Hclean. by destruct H as (_ & ? & _).
  - intros Hq. split.
    + intros H%Hclean. destruct H as (_ & _ & H). by destruct (H Hq).
    + intros H%Hclean. destruct H as (_ & _ & H). by destruct (H Hq).
  - clear Hclean.
    induction 1 as [|c s' (H38 & H60 & H62 & H34 & H39) _ IH]; [done|].
    rewrite flat_map_escape_char, escape_char_plain, IH by done. done.
Qed.

Lemma escape_char_head quote c :
  exists x rest, escape_char quote c = x :: rest
    /\ (x = 38 \/ (escape_char quote c = [c] /\ c <> 38)).
Proof.
  unfold escape_char.
  destruct (N.eqb_spec c 38) as [->|H38]; [eexists _, _; split; [done|by left]|].
  destruct (N.eqb_spec c 60) as [->|H60]; [eexists _, _; split; [done|by left]|].
  destruct (N.eqb_spec c 62) as [->|H62]; [eexists _, _; split; [done|by left]|].
  destruct (quote && (c =? 34)); [eexists _, _; split; [done|by left]|].
  destruct (quote && (c =? 39)); [eexists _, _; split; [done|by left]|].
  exists c, []. split; [done|]. by right.
Qed.

Lemma escape_char_cases quote c :
  (c = 38 /\ escape_char quote c = [38; 97; 109; 112; 59])
  \/ (c = 60 /\ escape_char quote c = [38; 108; 116; 59])
  \/ (c = 62 /\ escape_char quote c = [38; 103; 116; 59])
  \/ (c = 34 /\ escape_char quote c = [38; 113; 117; 111; 116; 59])
  \/ (c = 39 /\ escape_char quote c = [38; 35; 120; 50; 55; 59])
  \/ (c <> 38 /\ escape_char quote c = [c]).
Proof.
  unfold escape_char.
  destruct (N.eqb_spec c 38) as [->|H38]; [by left|].
  destruct (N.eqb_spec c 60) as [->|H60]; [right; by left|].
  destruct (N.eqb_spec c 62) as [->|H62]; [right; right; by left|].
  destruct quote; cbn [andb]; [|by repeat right].
  destruct (N.eqb_spec c 34) as [->|H34]; [right; right; right; by left|].
  destruct (N.eqb_spec c 39) as [->|H39];
    [right; right; right; right; by left|].
  by repeat right.
Qed.

(** Two characters whose escaped forms start two equal texts are equal, and
    so are the texts that follow. *)
Lemma escape_char_cancel quote c d u v :
  escape_char quote c ++ u = escape_char quote d ++ v -> c = d /\ u = v.
Proof.
  destruct (escape_char_cases quote c)
    as [[-> ->]|[[-> ->]|[[-> ->]|[[-> ->]|[[-> ->]|[Hc ->]]]]]];
  destruct (escape_char_cases quote d)
    as [[-> ->]|[[-> ->]|[[-> ->]|[[-> ->]|[[-> ->]|[Hd ->]]]]]];
  cbn [app]; intros H; simplify_eq; done.
Qed.

Lemma escape_injective quote s t :
  flat_map (escape_char quote) s = flat_map (escape_char quote) t -> s = t.
Proof.
  revert t. induction s as [|c s IH]; intros [|d t].
  - done.
  - rewrite flat_map_escape_char. intros H. exfalso.
    destruct (escape_char_head quote d) as (x & rest & E & _).
    rewrite E in H. done.
  - rewrite flat_map_escape_char. intros H. exfalso.
    destruct (escape_char_head quote c) as (x & rest & E & _).
    rewrite E in H. done.
  - rewrite !flat_map_escape_char.
    intros [-> H]%escape_char_cancel. f_equal. by apply IH.
Qed.

(** X13: escaping two texts in a row is escaping them one after the other,
    and two texts with the same escaped form are the same text. *)
Theorem escape_additive_and_injective (quote : bool) :
  (forall a b, html.escape (a ++ b) quote
               = html.escape a quote ++ html.escape b quote)
  /\ (forall s t, html.escape s quote = html.escape t quote -> s = t).
Proof.
  split.
  - intros a b. rewrite !escape_one_pass. apply flat_map_app.
  - intros s t. rewrite !escape_one_pass. apply escape_injective.
Qed.

(** ** The other ends of a run *)

(** X14: whatever exception [ET.parse] raises on the input path, for a
    missing file, a directory, a path under a regular file or a document
    it cannot decode, the run ends with that exception and the outside
    world as it was: neither [write_text] nor [print] is reached. *)
Theorem missing_input_aborts_run
    (check_bracketed_netloc : str -> bool)
    (render : Summary -> list Issue -> str) (world : Type)
    (ET_parse : str -> world -> exn + ET.Element)
    (write_text : str -> str -> world -> (exn + unit) * world)
    (resolve : str -> world -> exn + str)
    (print : str -> world -> (exn + unit) * world)
    (junit_xml output : str) (w : world) (e : exn) :
  ET_parse junit_xml w = inl e ->
  main check_bracketed_netloc render ET_parse write_text resolve print
       junit_xml output w
  = (inl e, w).
Proof. apply main_parse_error. Qed.

Lemma missing_input_aborts_run_witness :
  main (fun _ => true) (fun _ _ => []) sample_ET_parse sample_write_text
       sample_resolve sample_print (lit "report.xml") default_output
       sample_world
  = (inl (Raised (lit "FileNotFoundError")), sample_world).
Proof.
  apply (missing_input_aborts_run (fun _ => true) (fun _ _ => [])
           (gmap str str) sample_ET_parse sample_write_text sample_resolve
           sample_print (lit "report.xml") default_output sample_world
           (Raised (lit "FileNotFoundError"))).
  vm_compute. reflexivity.
Defined.



(** ** When a status code is found *)

Lemma re_search_complete {A} (match_at : str -> option A) before rest m :
  match_at rest = Some m ->
  exists m', re_search match_at (before ++ rest) = Some m'.
Proof.
  intros Hm. induction before as [|c before (m' & IH)].
  - exists m. destruct rest; cbn [app re_search]; by rewrite Hm.
  - cbn [app re_search]. destruct (match_at (c :: before ++ rest)); eauto.
Qed.

(** X16: an issue has a status code exactly when its raw message holds an
    opening bracket, three decimal digits and a closing bracket in a
    row. *)
Theorem status_found_iff_bracketed_code
    (suite_name tc_name time : str) (failure : ET.Element) :
  let raw_msg := strip (ET.get (lit "message") [] failure) in
  let i := failure_issue suite_name tc_name time failure in
  status i <> []
  <-> exists before d1 d2 d3 after,
        raw_msg = before ++ 91 :: d1 :: d2 :: d3 :: 93 :: after
        /\ isdecimal d1 = true /\ isdecimal d2 = true /\ isdecimal d3 = true.
Proof.
  cbv zeta. cbn [status failure_issue]. unfold STATUS_RE_search. split.
  - destruct (re_search STATUS_RE_match _) as [g|] eqn:E; [|done]. intros _.
    apply re_search_found in E as (before & rest & -> & Hm).
    apply STATUS_RE_match_Some in Hm
      as (d1 & d2 & d3 & after & -> & _ & H1 & H2 & H3).
    by exists before, d1, d2, d3, after.
  - intros (before & d1 & d2 & d3 & after & -> & H1 & H2 & H3).
    destruct (@re_search_complete str STATUS_RE_match before
                (91 :: d1 :: d2 :: d3 :: 93 :: after) [d1; d2; d3])
      as (m' & Hm'); [by apply STATUS_RE_match_here|].
    apply (STATUS_RE_search_Some _ m') in Hm' as Hshape.
    destruct Hshape as (Hlen & _).
    destruct (re_search STATUS_RE_match _) as [g|]; [|done].
    injection Hm' as ->. by destruct m'.
Qed.

(** ** A text that does not fit *)

Lemma blank_cons_false c chunk :
  isspace c = false -> textwrap.blank (c :: chunk) = false.
Proof.
  intros Hc. rewrite blank_forallb. unfold blank_line. cbn [forallb].
  by rewrite Hc.
Qed.

Lemma head_concat_nonempty (chunks : list str) chunk :
  Forall (fun chunk => chunk <> []) chunks ->
  head chunks = Some chunk -> head (concat chunks) = head chunk.
Proof.
  destruct 1 as [|c chunks Hc _]; [done|]. intros [= ->].
  cbn [concat]. by destruct chunk.
Qed.

Lemma add_placeholder_prefix width placeholder rev_line n line :
  textwrap.add_placeholder width placeholder rev_line n = Some line ->
  exists a b, rev rev_line = a ++ b /\ line = concat a ++ placeholder.
Proof.
  revert n. induction rev_line as [|chunk rev_line IH]; intros n; [done|].
  cbn [textwrap.add_placeholder]. destruct (_ && _).
  - intros [= <-]. exists (rev (chunk :: rev_line)), []. by rewrite app_nil_r.
  - intros (a & b & Hab & ->)%IH. exists a, (b ++ [chunk]).
    cbn [rev]. by rewrite Hab, app_assoc.
Qed.

Section WrapperCut.

Variable width : nat.
Variable placeholder : str.
Hypothesis width_positive : (1 <= width)%nat.

Lemma take_fitting_bound cur_line cur_len chunks line' len' rest :
  (cur_len <= width)%nat ->
  textwrap.take_fitting width cur_line cur_len chunks = (line', len', rest) ->
  (len' <= width)%nat.
Proof.
  revert cur_line cur_len. induction chunks as [|chunk chunks IH];
    intros cur_line cur_len Hle; cbn [textwrap.take_fitting].
  - by intros [= _ <- _].
  - destruct (Nat.leb_spec (cur_len + length chunk) width) as [Hfit|Hno].
    + by apply IH.
    + by intros [= _ <- _].
Qed.

(** A long word is cut within it. *)
Lemma handle_long_word_cut c rest cur_line cur_len :
  (cur_len <= width)%nat -> (width < length c)%nat ->
  exists stop,
    textwrap.handle_long_word width (c :: rest) cur_line cur_len
    = (cur_line ++ [take stop c], drop stop c :: rest)
    /\ (stop < length c)%nat /\ (cur_len < width -> 1 <= stop)%nat.
Proof.
  intros Hlen Hc. unfold textwrap.handle_long_word.
  destruct (Nat.ltb_spec width 1) as [?|_]; [lia|].
  destruct (Nat.ltb_spec (width - cur_len) (length c)) as [_|?]; [|lia].
  destruct (textwrap.rfind_hyphen c (width - cur_len)) as [h|] eqn:Eh.
  - destruct (_ && _) eqn:Eb.
    + exists (S h). split; [done|].
      unfold textwrap.rfind_hyphen in Eh. apply last_Some in Eh as [l Hl].
      assert (Hin : h ∈ l ++ [h]) by (apply elem_of_app; right; by left).
      rewrite <- Hl in Hin.
      apply list_elem_of_filter in Hin as [_ Hin].
      apply elem_of_seq in Hin. lia.
    + exists (width - cur_len)%nat. split; [done|]. lia.
  - exists (width - cur_len)%nat. split; [done|]. lia.
Qed.

Lemma last_cons_ne {A} (x : A) (l : list A) :
  l <> [] -> last (x :: l) = last l.
Proof. by destruct l. Qed.

(** The first pass over chunks that do not fit the width, when the text
    they make starts and ends with a character that is no whitespace: a
    part of the text is kept, and the placeholder put after it. *)
Lemma wrap_pass_truncates chunks a z :
  Forall (fun chunk => chunk <> []) chunks ->
  head (concat chunks) = Some a -> isspace a = false ->
  last (concat chunks) = Some z -> isspace z = false ->
  (width < textwrap.total_len chunks)%nat ->
  exists line kept rest,
    textwrap.wrap_pass width placeholder [] chunks = textwrap.Break [line]
    /\ concat chunks = kept ++ rest
    /\ (line = kept ++ placeholder
        \/ (kept = [] /\ line = lstrip placeholder)).
Proof.
  intros Hne Hhead Ha Hlast Hz Hlong.
  destruct chunks as [|c0 chunks1]; [done|].
  unfold textwrap.wrap_pass. cbv beta iota.
  remember (c0 :: chunks1) as chunks eqn:Echunks in *.
  assert (Hc0 : exists c0', c0 = a :: c0').
  { pose proof (head_concat_nonempty chunks c0 Hne) as H.
    rewrite Echunks in H at 1. specialize (H eq_refl).
    rewrite Hhead in H. destruct c0 as [|x c0']; [done|].
    injection H as ->. by exists c0'. }
  destruct Hc0 as [c0' ->].
  assert (Hzlast : exists cz, last chunks = Some cz /\ last cz = Some z).
  { destruct (last chunks) as [cz|] eqn:E.
    - exists cz. split; [done|].
      by rewrite <- (last_concat_nonempty chunks cz Hne E).
    - apply last_None in E. by rewrite E in Echunks. }
  destruct Hzlast as (cz & Hcz & Hczz).
  destruct (textwrap.take_fitting width [] 0 chunks) as [[cl len] rest] eqn:Etf.
  pose proof (take_fitting_bound _ _ _ _ _ _ (Nat.le_0_l width) Etf) as Hlen.
  apply take_fitting_spec in Etf as (taken & -> & Hsplit & -> & Hrest);
    [|exact width_positive].
  cbn [app Nat.add] in *.
  destruct rest as [|c rest'].
  { rewrite app_nil_r in Hsplit. subst taken. lia. }
  assert (Hcut : exists cl2 rest2,
            (if (width <? length c)%nat
             then textwrap.handle_long_word width (c :: rest') taken
                    (textwrap.total_len taken)
             else (taken, c :: rest')) = (cl2, rest2)
            /\ concat cl2 ++ concat rest2 = concat chunks
            /\ (exists f cl2', cl2 = f :: cl2' /\ textwrap.blank f = false)
            /\ (exists l cz', rest2 = l ++ [cz']
                              /\ textwrap.blank cz' = false)).
  { destruct (Nat.ltb_spec width (length c)) as [Hlongc|Hshort].
    - destruct (handle_long_word_cut c rest' taken (textwrap.total_len taken))
        as (stop & Heq & Hstop & Hstop1); [done..|].
      exists (taken ++ [take stop c]), (drop stop c :: rest').
      split; [exact Heq|]. split; [|split].
      + rewrite Hsplit, !concat_app. cbn [concat].
        rewrite app_nil_r, <- !app_assoc, (app_assoc (take stop c)).
        by rewrite take_drop.
      + destruct taken as [|t taken].
        * cbn [app] in Hsplit. rewrite Echunks in Hsplit.
          injection Hsplit as <- _. rewrite total_len_nil in Hstop1.
          destruct stop as [|stop]; [lia|]. cbn [app take].
          eexists _, _. split; [done|]. by apply blank_cons_false.
        * cbn [app] in Hsplit. rewrite Echunks in Hsplit.
          injection Hsplit as <- _. cbn [app].
          eexists _, _. split; [done|]. by apply blank_cons_false.
      + destruct rest' as [|r rest'] using rev_ind.
        * exists [], (drop stop c). split; [done|].
          rewrite Hsplit, last_snoc in Hcz. injection Hcz as ->.
          apply last_not_blank with z; [|done].
          rewrite <- Hczz. rewrite <- (take_drop stop cz) at 2.
          rewrite last_app. destruct (last (drop stop cz)) eqn:E; [done|].
          apply last_None in E. apply (f_equal length) in E.
          rewrite length_drop in E. cbn in E. lia.
        * exists (drop stop c :: rest'), r. split; [done|].
          rewrite Hsplit in Hcz.
          replace (taken ++ c :: rest' ++ [r])
            with ((taken ++ c :: rest') ++ [r]) in Hcz
            by (by rewrite <- app_assoc).
          rewrite last_snoc in Hcz. injection Hcz as ->.
          by apply last_not_blank with z.
    - exists taken, (c :: rest'). split; [done|]. split; [|split].
      + by rewrite Hsplit, concat_app.
      + destruct taken as [|t taken]; [rewrite total_len_nil in Hrest; lia|].
        cbn [app] in Hsplit. rewrite Echunks in Hsplit.
        injection Hsplit as <- _.
        eexists _, _. split; [done|]. by apply blank_cons_false.
      + destruct rest' as [|r rest'] using rev_ind.
        * exists [], c. split; [done|].
          rewrite Hsplit, last_snoc in Hcz. injection Hcz as ->.
          by apply last_not_blank with z.
        * exists (c :: rest'), r. split; [done|].
          rewrite Hsplit in Hcz.
          replace (taken ++ c :: rest' ++ [r])
            with ((taken ++ c :: rest') ++ [r]) in Hcz
            by (by rewrite <- app_assoc).
          rewrite last_snoc in Hcz. injection Hcz as ->.
          by apply last_not_blank with z. }
  destruct Hcut as (cl2 & rest2 & -> & Hcat & (f & cl2' & -> & Hf)
                    & (l & cz' & -> & Hcz')).
  assert (Hcond : (match l ++ [cz'] with
                   | [] => true
                   | [chunk] => textwrap.blank chunk
                   | chunk :: _ :: _ => false
                   end) = false).
  { destruct l as [|x [|y l]]; cbn [app]; done. }
  rewrite Hcond. clear Hcond.
  assert (Hdrop : exists f3 cl3' b,
            (match last (f :: cl2') with
             | Some chunk =>
                 if textwrap.blank chunk
                 then (textwrap.drop_last (f :: cl2'),
                       (textwrap.total_len (f :: cl2') - length chunk)%nat)
                 else (f :: cl2', textwrap.total_len (f :: cl2'))
             | None => (f :: cl2', textwrap.total_len (f :: cl2'))
             end) = (f3 :: cl3', textwrap.total_len (f3 :: cl3'))
            /\ f :: cl2' = (f3 :: cl3') ++ b).
  { destruct (last (f :: cl2')) as [chunk|] eqn:E.
    - destruct (textwrap.blank chunk) eqn:Eb.
      + apply last_Some in E as [l0 E]. rewrite E.
        destruct l0 as [|f3 cl3'].
        { cbn [app] in E. injection E as -> _. congruence. }
        exists f3, cl3', [chunk]. split; [|done].
        rewrite drop_last_snoc, total_len_app.
        change (textwrap.total_len [chunk]) with (length chunk + 0)%nat.
        f_equal. lia.
      + exists f, cl2', []. by rewrite app_nil_r.
    - exists f, cl2', []. by rewrite app_nil_r. }
  destruct Hdrop as (f3 & cl3' & b & -> & Hb). cbn [andb].
  destruct (textwrap.add_placeholder _ _ _ _) as [line0|] eqn:Ea.
  - apply add_placeholder_prefix in Ea as (a' & b' & Hab & ->).
    rewrite rev_involutive in Hab.
    exists (concat a' ++ placeholder), (concat a'),
      (concat b' ++ concat b ++ concat (l ++ [cz'])).
    split; [done|]. split; [|by left].
    rewrite <- Hcat, Hb, Hab, !concat_app. by rewrite <- !app_assoc.
  - exists (lstrip placeholder), [], (concat chunks).
    split; [done|]. split; [done|]. by right.
Qed.

End WrapperCut.

Lemma shorten_cut text width placeholder :
  (1 <= width)%nat -> (width < length (collapsed text))%nat ->
  exists kept rest,
    collapsed text = kept ++ rest
    /\ (textwrap.shorten text width placeholder = kept ++ placeholder
        \/ (kept = []
            /\ textwrap.shorten text width placeholder = lstrip placeholder)).
Proof.
  intros Hwidth Hlong. unfold textwrap.shorten, textwrap.fill, textwrap.wrap,
    textwrap.split_chunks, textwrap.wrap_chunks.
  fold (collapsed text). rewrite munge_whitespace_spaced by apply collapsed_spaced.
  pose proof (wordsep_scan_concat [] [] textwrap.Start (collapsed text)) as Hcat.
  pose proof (wordsep_scan_nonempty [] [] textwrap.Start (collapsed text)) as Hne.
  cbn [app] in Hcat.
  set (chunks := textwrap.wordsep_scan [] [] textwrap.Start (collapsed text)) in *.
  assert (Hwords : split (strip text) <> []).
  { intros H. unfold collapsed in Hlong. rewrite H in Hlong. cbn in Hlong. lia. }
  destruct (head_join_words (split (strip text))) as (a & Ha & Ha');
    [apply split_words|done|].
  destruct (last_join_words (split (strip text))) as (z & Hz & Hz');
    [apply split_words|done|].
  fold (collapsed text) in Ha, Hz.
  destruct (wrap_pass_truncates width placeholder Hwidth chunks a z)
    as (line & kept & rest & Hpass & Hsplit & Hline);
    [done|by rewrite Hcat|done|by rewrite Hcat|done| |].
  { by rewrite <- length_concat_total, Hcat. }
  exists kept, rest. split; [by rewrite <- Hcat|].
  destruct chunks as [|c0 chunks1] eqn:E.
  { cbn in Hcat. rewrite <- Hcat in Hlong. cbn in Hlong. lia. }
  cbn [textwrap.wrap_loop]. rewrite Hpass. cbn [join].
  destruct Hline as [->|[-> ->]]; [by left|by right].
Qed.

(** X17: when the message with its whitespace collapsed is longer than 180
    characters, the short message is a part of that text taken from its
    start, followed by the ellipsis. *)
Theorem long_message_cut_with_ellipsis
    (suite_name tc_name time : str) (failure : ET.Element) :
  let i := failure_issue suite_name tc_name time failure in
  (180 < length (collapsed (msg i)))%nat ->
  exists kept rest,
    collapsed (msg i) = kept ++ rest /\ msg_short i = kept ++ [ellipsis].
Proof.
  cbv zeta. cbn [msg msg_short failure_issue].
  set (m := clean_message _ _). intros Hlong.
  destruct (shorten_cut m 180 [ellipsis]) as (kept & rest & Hsplit & Hshort);
    [lia|done|].
  exists kept, rest. split; [done|].
  destruct Hshort as [->|[-> ->]]; [done|]. by vm_compute.
Qed.

Lemma long_message_cut_with_ellipsis_witness :
  exists kept rest,
    collapsed (msg (failure_issue [] [] [] (failure_with long_message)))
    = kept ++ rest
    /\ msg_short (failure_issue [] [] [] (failure_with long_message))
       = kept ++ [ellipsis].
Proof.
  apply (long_message_cut_with_ellipsis [] [] [] (failure_with long_message)).
  apply Nat.ltb_lt. vm_compute. reflexivity.
Defined.

(** X18: the short message is one line: each of its characters is the
    ellipsis, a space, or a character that is no whitespace. *)
Theorem short_message_single_line
    (suite_name tc_name time : str) (failure : ET.Element) :
  let i := failure_issue suite_name tc_name time failure in
  (forall c, c ∈ msg_short i ->
     c = ellipsis \/ c = 32 \/ isspace c = false)
  /\ (10 ∉ msg_short i) /\ (13 ∉ msg_short i).
Proof.
  cbv zeta. cbn [msg_short failure_issue]. set (m := clean_message _ _).
  assert (Hchars : forall c, c ∈ textwrap.shorten m 180 [ellipsis] ->
            c = ellipsis \/ c = 32 \/ isspace c = false).
  { pose proof (collapsed_spaced m) as Hsp. unfold spaced in Hsp.
    rewrite Forall_forall in Hsp.
    destruct (Nat.le_gt_cases (length (collapsed m)) 180) as [Hfit|Hlong].
    - rewrite shorten_fits by done. intros c Hc%Hsp. tauto.
    - destruct (shorten_cut m 180 [ellipsis])
        as (kept & rest & Hsplit & Hshort); [lia|done|].
      assert (Hshort' : textwrap.shorten m 180 [ellipsis] = kept ++ [ellipsis]).
      { destruct Hshort as [->|[-> ->]]; [done|]. by vm_compute. }
      rewrite Hshort'. intros c [Hc|Hc]%elem_of_app.
      + assert (Hin : c ∈ collapsed m)
          by (rewrite Hsplit; apply elem_of_app; by left).
        apply Hsp in Hin. tauto.
      + apply list_elem_of_singleton in Hc. by left. }
  split; [done|]. split.
  - intros [H|[H|H]]%Hchars; by vm_compute in H.
  - intros [H|[H|H]]%Hchars; by vm_compute in H.
Qed.

Lemma split_from_nil cur s :
  split_from cur s = [] -> cur = [] /\ blank_line s = true.
Proof.
  revert cur. induction s as [|c s IH]; intros cur; cbn [split_from].
  - by destruct cur.
  - unfold blank_line. cbn [forallb]. destruct (isspace c) eqn:E.
    + destruct cur; [|done]. intros H%IH. by destruct H.
    + intros [H _]%IH. by destruct cur.
Qed.

Lemma collapsed_nil text : collapsed text = [] -> strip text = [].
Proof.
  unfold collapsed. pose proof (split_words (strip text)) as Hw.
  destruct (split (strip text)) as [|w ws] eqn:E.
  - intros _. apply split_from_nil in E as [_ E]. apply strip_nil in E.
    by rewrite strip_idem in E.
  - apply Forall_inv in Hw. destruct Hw as [Hne _].
    destruct ws; cbn [join]; [done|]. by destruct w.
Qed.

(** X19: the short message of an issue is empty exactly when its message
    is. *)
Theorem short_message_empty_iff
    (suite_name tc_name time : str) (failure : ET.Element) :
  let i := failure_issue suite_name tc_name time failure in
  msg_short i = [] <-> msg i = [].
Proof.
  cbv zeta.
  assert (Htrim : strip (msg (failure_issue suite_name tc_name time failure))
                  = msg (failure_issue suite_name tc_name time failure)).
  { cbn [msg failure_issue].
    set (raw_msg := strip (ET.get (lit "message") [] failure)).
    destruct (kept_text raw_msg) as [|c k] eqn:E.
    - rewrite clean_message_fallback by done. apply strip_idem.
    - rewrite clean_message_kept by (by rewrite E). apply strip_idem. }
  cbn [msg msg_short failure_issue] in *. set (m := clean_message _ _) in *.
  split.
  - intros Hshort.
    destruct (Nat.le_gt_cases (length (collapsed m)) 180) as [Hfit|Hlong].
    + rewrite shorten_fits in Hshort by done.
      apply collapsed_nil in Hshort. congruence.
    + destruct (shorten_cut m 180 [ellipsis])
        as (kept & rest & _ & [H|[_ H]]); [lia|done| |].
      * rewrite Hshort in H. by destruct kept.
      * rewrite Hshort in H. by vm_compute in H.
  - intros ->. by vm_compute.
Qed.

(** ** The status code in the page *)

Lemma isdecimal_no_markup c :
  isdecimal c = true -> c <> 38 /\ c <> 60 /\ c <> 62 /\ c <> 34 /\ c <> 39.
Proof. intros H. repeat split; intros ->; by vm_compute in H. Qed.

(** X20: the status code of an issue of a document holds no ampersand, no
    angle bracket and no quote, so that escaping leaves it as it is: the
    page can hold it as the value of an attribute without escaping it. *)
Theorem status_needs_no_escaping (root : ET.Element) (i : Issue) (quote : bool) :
  i ∈ issues_of_root root ->
  html.escape (status i) quote = status i
  /\ Forall (fun c => c <> 38 /\ c <> 60 /\ c <> 62 /\ c <> 34 /\ c <> 39)
            (status i).
Proof.
  intros (s & n & t & f & ->)%issue_of_root.
  assert (Hplain : Forall (fun c => c <> 38 /\ c <> 60 /\ c <> 62
                                    /\ c <> 34 /\ c <> 39)
                     (status (failure_issue s n t f))).
  { destruct (failure_issue_status s n t f) as [->|[_ Hdec]]; [constructor|].
    eapply Forall_impl; [exact Hdec|]. intros c Hc.
    by apply isdecimal_no_markup. }
  split; [|done]. rewrite escape_one_pass.
  induction Hplain as [|c st (H38 & H60 & H62 & H34 & H39) _ IH]; [done|].
  rewrite flat_map_escape_char, escape_char_plain, IH by done. done.
Qed.

Lemma status_needs_no_escaping_witness :
  html.escape (status sample_issue) true = status sample_issue
  /\ Forall (fun c => c <> 38 /\ c <> 60 /\ c <> 62 /\ c <> 34 /\ c <> 39)
            (status sample_issue).
Proof.
  apply (status_needs_no_escaping sample_root sample_issue true).
  apply list_elem_of_In. vm_compute. left. reflexivity.
Defined.
